(** * PrototypeEngine: the layered file system (src/filesystem/CFileSystem.cpp)

    A shallow embedding of [CFileSystem]: the search path registry, the
    table of open handles with the C streams they refer to, the pack file
    directory reader, the window arithmetic of pack entry handles, and the
    wildcard enumeration with its table of find cursors.

    Integers are [Z] with the wrap-around of their C++ type written out,
    C strings are [string], [std::vector]s are lists, the keyed container of
    pack entries is a [gmap], and every member function takes the file
    system object and returns it next to its result. *)

From Stdlib Require Import ZArith Lia Ascii String.
From stdpp Require Import base gmap strings list fin_maps.

Local Open Scope string_scope.
Local Open Scope list_scope.
Local Open Scope Z_scope.

(* ===================================================================== *)
(** ** Machine integers *)
(* ===================================================================== *)

(** [int] and [unsigned int] are 32 bits wide; [size_t] and the offsets of
    a file handle are taken 64 bits wide. *)
Definition wrap_unsigned (bits : Z) (z : Z) : Z := z mod 2 ^ bits.

Definition wrap_signed (bits : Z) (z : Z) : Z :=
  let u := z mod 2 ^ bits in
  if u <? 2 ^ (bits - 1) then u else u - 2 ^ bits.

Definition to_int (z : Z) : Z := wrap_signed 32 z.
Definition to_uint (z : Z) : Z := wrap_unsigned 32 z.
Definition to_u64 (z : Z) : Z := wrap_unsigned 64 z.
Definition to_size_t (z : Z) : Z := wrap_unsigned 64 z.

Definition INT_MAX : Z := 2 ^ 31 - 1.
Definition INT_MIN : Z := - 2 ^ 31.

(* ===================================================================== *)
(** ** C strings *)
(* ===================================================================== *)

Fixpoint string_map (f : ascii -> ascii) (s : string) : string :=
  match s with
  | EmptyString => EmptyString
  | String c s' => String (f c) (string_map f s')
  end.

Definition char_code (c : ascii) : Z := Z.of_nat (nat_of_ascii c).

(** [tolower] in the C locale. *)
Definition tolower (c : ascii) : ascii :=
  let n := char_code c in
  if (65 <=? n) && (n <=? 90) then ascii_of_nat (Z.to_nat (n + 32)) else c.

(** [strcmp]: the difference of the first pair of bytes that differ, the
    end of a string counting as byte 0. *)
Fixpoint strcmp (a b : string) : Z :=
  match a, b with
  | EmptyString, EmptyString => 0
  | EmptyString, String cb _ => 0 - char_code cb
  | String ca _, EmptyString => char_code ca
  | String ca a', String cb b' =>
      if Ascii.eqb ca cb then strcmp a' b' else char_code ca - char_code cb
  end.

(** [stricmp]: [strcmp] on the lower-cased bytes. *)
Definition stricmp (a b : string) : Z :=
  strcmp (string_map tolower a) (string_map tolower b).

(** [strchr( s, c ) != nullptr]. *)
Fixpoint strchr (s : string) (c : ascii) : bool :=
  match s with
  | EmptyString => false
  | String d s' => Ascii.eqb d c || strchr s' c
  end.

Fixpoint is_prefix (p s : string) : bool :=
  match p, s with
  | EmptyString, _ => true
  | String _ _, EmptyString => false
  | String cp p', String cs s' => Ascii.eqb cp cs && is_prefix p' s'
  end.

(** [strstr( s, needle ) != nullptr]. *)
Fixpoint strstr (s needle : string) : bool :=
  is_prefix needle s ||
  match s with
  | EmptyString => false
  | String _ s' => strstr s' needle
  end.

Fixpoint string_take (n : nat) (s : string) : string :=
  match n, s with
  | O, _ => EmptyString
  | S _, EmptyString => EmptyString
  | S n', String c s' => String c (string_take n' s')
  end.

(** [strncpy( dst, src, size ); dst[ size - 1 ] = 0]: what [dst] holds
    afterwards, read as a C string. *)
Definition strncpy_terminated (size : nat) (src : string) : string :=
  string_take (size - 1)%nat src.

Fixpoint last_char (s : string) : option ascii :=
  match s with
  | EmptyString => None
  | String c EmptyString => Some c
  | String _ s' => last_char s'
  end.

Definition first_char (s : string) : option ascii :=
  match s with
  | EmptyString => None
  | String c _ => Some c
  end.

(* ===================================================================== *)
(** ** Paths of the host platform *)
(* ===================================================================== *)

(** [std::experimental::filesystem::path] depends on the platform the
    engine is built for: the preferred separator is the slash on POSIX and
    the backslash on Windows, where the slash is a separator too. *)
Inductive Platform : Type := Posix | Windows.

Definition preferred_separator (plat : Platform) : ascii :=
  match plat with
  | Posix => "/"%char
  | Windows => "\"%char
  end.

Definition is_separator (plat : Platform) (c : ascii) : bool :=
  Ascii.eqb c "/"%char ||
  match plat with
  | Posix => false
  | Windows => Ascii.eqb c "\"%char
  end.

Definition preferred_char (plat : Platform) (c : ascii) : ascii :=
  if is_separator plat c then preferred_separator plat else c.

(** [path::make_preferred] followed by [u8string]. *)
Definition make_preferred (plat : Platform) (s : string) : string :=
  string_map (preferred_char plat) s.

Definition opt_is_separator (plat : Platform) (o : option ascii) : bool :=
  match o with
  | Some c => is_separator plat c
  | None => false
  end.

(** [fs::path( a ) / b]: a preferred separator is put between the two
    unless one of them is empty, [a] ends with a separator or [b] starts
    with one. *)
Definition path_append (plat : Platform) (a b : string) : string :=
  match a, b with
  | EmptyString, _ => b
  | _, EmptyString => a
  | _, _ =>
      if opt_is_separator plat (last_char a) || opt_is_separator plat (first_char b)
      then a +:+ b
      else a +:+ String (preferred_separator plat) b
  end.

(* ===================================================================== *)
(** ** C streams *)
(* ===================================================================== *)

(** A [FILE]: the bytes behind the stream and the position indicator.
    Positions are assumed to fit [long]. *)
Record FILE : Type := mkFILE {
  f_data : list Byte.byte;
  f_pos : Z;
}.

Inductive SeekOrigin : Type := SEEK_SET | SEEK_CUR | SEEK_END.

Definition f_size (f : FILE) : Z := Z.of_nat (length (f_data f)).

(** [fseek]: a target before the start of the file is refused and leaves
    the position where it was; a target past the end is accepted. *)
Definition c_fseek (f : FILE) (offset : Z) (origin : SeekOrigin) : FILE :=
  let target :=
    match origin with
    | SEEK_SET => offset
    | SEEK_CUR => f_pos f + offset
    | SEEK_END => f_size f + offset
    end in
  if target <? 0 then f else mkFILE (f_data f) target.

Definition c_ftell (f : FILE) : Z := f_pos f.

Definition c_rewind (f : FILE) : FILE := mkFILE (f_data f) 0.

(** [fread( buffer, size, count, f )]: the number of complete elements
    read, the bytes delivered, and the stream advanced by these bytes. *)
Definition c_fread (size count : Z) (f : FILE) : Z * list Byte.byte * FILE :=
  let available := Z.max 0 (f_size f - f_pos f) in
  let wanted := size * count in
  let got := Z.min wanted available in
  if (size <=? 0) || (got <=? 0) then (0, [], f)
  else (got / size,
        take (Z.to_nat got) (drop (Z.to_nat (f_pos f)) (f_data f)),
        mkFILE (f_data f) (f_pos f + got)).

(* ===================================================================== *)
(** ** What the build and the host provide *)
(* ===================================================================== *)

(** The platform and the capacities of the two fixed character arrays,
    [CSearchPath::szPath] and [FindFileData::szPathID], whose declarations
    are in headers that are not part of the sources at hand. *)
Record Build : Type := mkBuild {
  platform : Platform;
  sizeof_szPath : nat;
  sizeof_szPathID : nat;
}.

(** The directory tree of the host as the calls of the file system see it:
    the answers of [fs::exists], [fs::is_directory], [fs::file_size] (with
    [None] for the error case), [fs::last_write_time], the entries a
    [fs::recursive_directory_iterator] yields in order, and the bytes of
    the stream [fopen] gives for a name and a mode ([None] when it fails). *)
Record HostOS : Type := mkHostOS {
  fs_exists : string -> bool;
  fs_is_directory : string -> bool;
  fs_file_size : string -> option Z;
  fs_last_write_time : string -> Z;
  fs_recursive_directory_iterator : string -> list string;
  c_fopen : string -> string -> option (list Byte.byte);
}.

(* ===================================================================== *)
(** ** Pack files (PackFile.h) *)
(* ===================================================================== *)

Inductive PackType : Type := NOT_A_PACK | PACK_32BIT | PACK_64BIT.

(** One record of a pack directory as read from the file. *)
Record PackEntry_t : Type := mkPackEntry_t {
  szFileName : string;
  filepos : Z;
  filelen : Z;
}.

(** What [ProcessPackFile] uses of its template argument: the name of the
    kind, the size of the header and the two directory fields decoded from
    it (after [LittleValue]), the size of a directory record with its
    decoding, and the ceiling on the number of records. *)
Record PackLayout : Type := mkPackLayout {
  NAME : string;
  sizeof_Header_t : Z;
  header_dir : list Byte.byte -> Z * Z;
  sizeof_Entry_t : Z;
  entry_of_bytes : list Byte.byte -> PackEntry_t;
  MAX_FILES : Z;
}.

(** PackFile.h is not part of the sources at hand; its contents are taken
    as given: the size of the identification header, the function that
    tells the kind of a pack from it, and the layout of the two kinds. *)
Record PackFile_h : Type := mkPackFile_h {
  sizeof_pack_Header_t : Z;
  IdentifyPackType : list Byte.byte -> PackType;
  Pack32_t : PackLayout;
  Pack64_t : PackLayout;
}.

(* ===================================================================== *)
(** ** Data model *)
(* ===================================================================== *)

(** Modelled from the spec: the declaration of [SearchPathFlag] is in a
    header that is not part of the sources at hand; the flags are distinct
    single bits of a bit mask. *)
Module SearchPathFlag.
Definition NONE : Z := 0.
Definition READ_ONLY : Z := 1.
Definition IS_PACK_FILE : Z := 2.
End SearchPathFlag.

(** Modelled from the spec: the declaration of [FindFileFlag] is in a
    header that is not part of the sources at hand; a cursor carries a
    [VALID] and an [END_OF_DATA] bit. *)
Module FindFileFlag.
Definition NONE : Z := 0.
Definition VALID : Z := 1.
Definition END_OF_DATA : Z := 2.
End FindFileFlag.

(** [flags & bit] read as a condition. *)
Definition has_flag (flags bit : Z) : bool := negb (Z.land flags bit =? 0).

(** [flags &= ~bit]. *)
Definition clear_flag (flags bit : Z) : Z := Z.land flags (Z.lnot bit).

(** [CPackFileEntry]: the name of an entry and its window in the pack. *)
Record CPackFileEntry : Type := mkCPackFileEntry {
  pe_FileName : string;
  pe_StartOffset : Z;
  pe_Length : Z;
}.

(** Modelled from the spec: the declaration of [CFileHandle] is not part
    of the sources at hand. A handle has a file name, the [FILE*] it reads
    (the address of a stream, null once closed), and is either a plain
    handle or a view [(startOffset, length)] into the stream of a pack. *)
Record CFileHandle : Type := mkCFileHandle {
  m_szFileName : string;
  m_pFile : option nat;
  m_bIsPackEntry : bool;
  m_uiStartOffset : Z;
  m_uiLength : Z;
}.

Definition IsOpen (h : CFileHandle) : bool :=
  match m_pFile h with Some _ => true | None => false end.
Definition IsPackEntry (h : CFileHandle) : bool := m_bIsPackEntry h.
Definition GetStartOffset (h : CFileHandle) : Z := m_uiStartOffset h.
Definition GetLength (h : CFileHandle) : Z := m_uiLength h.

(** [CSearchPath]. [pszPathID] is null or a tag; [packFile] and
    [packEntries] are set for a pack file only. *)
Record CSearchPath : Type := mkCSearchPath {
  szPath : string;
  pszPathID : option string;
  flags : Z;
  packFile : option CFileHandle;
  packEntries : gmap string CPackFileEntry;
}.

(* ===================================================================== *)
(** ** Regular expressions ([std::regex], ECMAScript grammar) *)
(* ===================================================================== *)

(** The part of the grammar modelled here: pattern characters, the dot,
    an identity escape of a syntax character, and the quantifiers [*],
    [+] and [?] on one atom. Matching is by derivatives, which is the
    whole-string match of [std::regex_match]. *)
Inductive regex : Type :=
  | Void
  | Eps
  | Chr (c : ascii)
  | AnyChar
  | Seq (r1 r2 : regex)
  | Alt (r1 r2 : regex)
  | Star (r : regex).

(** The dot matches every character but a line terminator. *)
Definition is_line_terminator (c : ascii) : bool :=
  Ascii.eqb c "010"%char || Ascii.eqb c "013"%char.

Fixpoint nullable (r : regex) : bool :=
  match r with
  | Void => false
  | Eps => true
  | Chr _ => false
  | AnyChar => false
  | Seq r1 r2 => nullable r1 && nullable r2
  | Alt r1 r2 => nullable r1 || nullable r2
  | Star _ => true
  end.

Fixpoint deriv (a : ascii) (r : regex) : regex :=
  match r with
  | Void => Void
  | Eps => Void
  | Chr c => if Ascii.eqb a c then Eps else Void
  | AnyChar => if is_line_terminator a then Void else Eps
  | Seq r1 r2 =>
      if nullable r1 then Alt (Seq (deriv a r1) r2) (deriv a r2)
      else Seq (deriv a r1) r2
  | Alt r1 r2 => Alt (deriv a r1) (deriv a r2)
  | Star r1 => Seq (deriv a r1) (Star r1)
  end.

Fixpoint regex_match (s : string) (r : regex) : bool :=
  match s with
  | EmptyString => nullable r
  | String a s' => regex_match s' (deriv a r)
  end.

Inductive regex_error_type : Type := error_escape | error_badrepeat.

(** The outcome of constructing a [std::regex]: the compiled expression,
    a [std::regex_error] thrown, or a pattern that uses a part of the
    grammar outside the model. *)
Inductive regex_result : Type :=
  | Compiled (r : regex)
  | Throws (e : regex_error_type)
  | Unmodelled.

Definition is_syntax_character (c : ascii) : bool :=
  strchr "^$\.*+?()[]{}|" c.

Definition is_quantifier (c : ascii) : bool := strchr "*+?" c.

Definition quantify (q : ascii) (atom : regex) : regex :=
  if Ascii.eqb q "*"%char then Star atom
  else if Ascii.eqb q "+"%char then Seq atom (Star atom)
  else Alt Eps atom.

Definition seq_result (r : regex) (rest : regex_result) : regex_result :=
  match rest with
  | Compiled r' => Compiled (Seq r r')
  | other => other
  end.

(** The scanner of [std::regex]: a backslash makes the syntax character
    after it a pattern character and is an error at the end of the
    pattern; the dot and the quantifiers are tokens of their own. *)
Inductive regex_token : Type :=
  | token_char (c : ascii)
  | token_dot
  | token_quantifier (q : ascii)
  | token_error (e : regex_error_type)
  | token_unmodelled.

Definition ordinary_token (c : ascii) : regex_token :=
  if Ascii.eqb c "."%char then token_dot
  else if is_quantifier c then token_quantifier c
  else if is_syntax_character c then token_unmodelled
  else token_char c.

Fixpoint regex_scan (s : string) : list regex_token :=
  match s with
  | EmptyString => []
  | String c rest =>
      if Ascii.eqb c "\"%char then
        match rest with
        | EmptyString => [token_error error_escape]
        | String e rest' =>
            (if is_syntax_character e then token_char e else token_unmodelled)
            :: regex_scan rest'
        end
      else ordinary_token c :: regex_scan rest
  end.

Definition starts_with_quantifier (tokens : list regex_token) : bool :=
  match tokens with
  | token_quantifier _ :: _ => true
  | _ => false
  end.

(** The parser: a sequence of atoms, each with at most one quantifier
    after it. A quantifier with nothing to repeat is an error; a question
    mark after a quantifier, which makes it lazy, is outside the model. *)
Fixpoint regex_parse (tokens : list regex_token) : regex_result :=
  match tokens with
  | [] => Compiled Eps
  | token_error e :: _ => Throws e
  | token_unmodelled :: _ => Unmodelled
  | token_quantifier _ :: _ => Throws error_badrepeat
  | t :: rest =>
      let atom := match t with token_char c => Chr c | _ => AnyChar end in
      match rest with
      | token_quantifier q :: rest' =>
          match rest' with
          | token_quantifier q' :: _ =>
              if Ascii.eqb q' "?"%char then Unmodelled
              else seq_result (quantify q atom) (regex_parse rest')
          | _ => seq_result (quantify q atom) (regex_parse rest')
          end
      | _ => seq_result atom (regex_parse rest)
      end
  end.

(** [std::regex( pattern )]. *)
Definition regex_compile (s : string) : regex_result := regex_parse (regex_scan s).

(** The loop of [FindFirst] that makes a regular expression of a wild
    card: [find] the next star from [index] on, [replace] it by a dot and
    a star, and go on two characters later. *)
Fixpoint string_find (s : list ascii) (c : ascii) (index : nat) : option nat :=
  match index, s with
  | O, [] => None
  | O, d :: s' =>
      if Ascii.eqb d c then Some O
      else option_map S (string_find s' c O)
  | S _, [] => None
  | S i, _ :: s' => option_map S (string_find s' c i)
  end.

Definition string_replace (s : list ascii) (index len : nat) (by_ : list ascii) : list ascii :=
  take index s ++ by_ ++ drop (index + len)%nat s.

Fixpoint replace_wildcards_loop (fuel : nat) (szWildCard : list ascii) (index : nat) : list ascii :=
  match fuel with
  | O => szWildCard
  | S fuel' =>
      match string_find szWildCard "*"%char index with
      | None => szWildCard
      | Some index' =>
          replace_wildcards_loop fuel'
            (string_replace szWildCard index' 1 ["."%char; "*"%char]) (index' + 2)%nat
      end
  end.

(** One round of the loop per star, so the length of the wild card is
    fuel enough. *)
Definition replace_wildcards (pWildCard : string) : string :=
  let l := list_ascii_of_string pWildCard in
  string_of_list_ascii (replace_wildcards_loop (S (length l)) l 0).

(** The filter [FindFirst] hands to [std::regex]. *)
Definition wildcard_filter (plat : Platform) (pWildCard : string) : regex_result :=
  regex_compile (make_preferred plat (replace_wildcards pWildCard)).

(** The reading of a wild card the specification gives: a star stands for
    any sequence of characters, every other character for itself. *)
Fixpoint wildcard_spec_match (pattern : string) (s : string) : bool :=
  match pattern with
  | EmptyString => match s with EmptyString => true | _ => false end
  | String p pattern' =>
      if Ascii.eqb p "*"%char then
        (fix skip (s : string) : bool :=
           wildcard_spec_match pattern' s ||
           match s with
           | EmptyString => false
           | String _ s' => skip s'
           end) s
      else
        match s with
        | EmptyString => false
        | String c s' => Ascii.eqb p c && wildcard_spec_match pattern' s'
        end
  end.

(** The wild card with a dot put before every star. *)
Fixpoint expand_wildcards (pattern : string) : string :=
  match pattern with
  | EmptyString => EmptyString
  | String c pattern' =>
      if Ascii.eqb c "*"%char
      then String "."%char (String "*"%char (expand_wildcards pattern'))
      else String c (expand_wildcards pattern')
  end.

(** The same on the characters of a [std::string]. *)
Definition expand_list (l : list ascii) : list ascii :=
  flat_map (fun c => if Ascii.eqb c "*"%char then ["."%char; "*"%char] else [c]) l.

(** The regular expression of a wild card of stars and characters that
    stand for themselves. *)
Fixpoint wildcard_regex (pattern : string) : regex :=
  match pattern with
  | EmptyString => Eps
  | String c pattern' =>
      if Ascii.eqb c "*"%char
      then Seq (Star AnyChar) (wildcard_regex pattern')
      else Seq (Chr c) (wildcard_regex pattern')
  end.

(** The strings a regular expression stands for. *)
Inductive matches : regex -> string -> Prop :=
  | matches_Eps : matches Eps EmptyString
  | matches_Chr (c : ascii) : matches (Chr c) (String c EmptyString)
  | matches_AnyChar (c : ascii) :
      is_line_terminator c = false -> matches AnyChar (String c EmptyString)
  | matches_Seq (r1 r2 : regex) (s1 s2 : string) :
      matches r1 s1 -> matches r2 s2 -> matches (Seq r1 r2) (s1 +:+ s2)
  | matches_Alt_l (r1 r2 : regex) (s : string) : matches r1 s -> matches (Alt r1 r2) s
  | matches_Alt_r (r1 r2 : regex) (s : string) : matches r2 s -> matches (Alt r1 r2) s
  | matches_Star_nil (r : regex) : matches (Star r) EmptyString
  | matches_Star_app (r : regex) (s1 s2 : string) :
      matches r s1 -> matches (Star r) s2 -> matches (Star r) (s1 +:+ s2).

(* ===================================================================== *)
(** ** The file system object *)
(* ===================================================================== *)

(** [FindFileData]: the compiled filter, the scope tag (empty for none),
    the search path being walked (a default-constructed iterator is
    [None]), what is left of the recursive walk, the name of the entry
    last visited, and the flags. *)
Record FindFileData : Type := mkFindFileData {
  filter : regex;
  szPathID : string;
  currentPath : option nat;
  iterator : list string;
  data_szFileName : string;
  data_flags : Z;
}.

(** Modelled from the spec: the levels of [FileWarningLevel_t] are
    declared in a header that is not part of the sources at hand; the
    critical level is the most severe and so the smallest, reporting all
    accesses the least severe. *)
Definition FILESYSTEM_WARNING_CRITICAL : Z := -1.
Definition FILESYSTEM_WARNING_REPORTUNCLOSED : Z := 1.
Definition FILESYSTEM_WARNING_REPORTALLACCESSES : Z := 3.

(** The messages handed to [Warning], one constructor per call site. *)
Inductive WarningMessage : Type :=
  | Close_closing_file (name : string)
  | Close_already_closed
  | Seek_null_handle
  | Seek_null_file_pointer
  | Seek_invalid_seek_type (seekType : Z)
  | Tell_null_handle
  | Tell_null_file_pointer
  | Read_null_handle
  | Read_null_file_pointer
  | FindFirst_invalid_wildcard (e : regex_error_type)
  | ProcessPackFile_header (kind name : string)
  | ProcessPackFile_directory_length (kind name : string)
  | ProcessPackFile_too_many_files (kind name : string) (max got : Z)
  | ProcessPackFile_directory_entries (kind name : string)
  | AddPackFile_identifier (name : string)
  | AddPackFile_not_a_pack (name : string)
  | OpenFromCacheForRead_write_option (name : string).

(** [CFileSystem]. [m_OpenedFiles] pairs every handle object with its
    address, which is the [FileHandle_t] given to the caller. [streams]
    are the open C streams by address, [next_address] the next address
    the allocator gives out, and [reported] what reached the sink of
    [Warning], oldest first. *)
Record CFileSystem : Type := mkCFileSystem {
  m_SearchPaths : list CSearchPath;
  m_OpenedFiles : list (nat * CFileHandle);
  m_FindFiles : list FindFileData;
  m_WarningLevel : Z;
  reported : list WarningMessage;
  streams : gmap nat FILE;
  next_address : nat;
}.

Definition set_SearchPaths (st : CFileSystem) (v : list CSearchPath) : CFileSystem :=
  mkCFileSystem v (m_OpenedFiles st) (m_FindFiles st) (m_WarningLevel st)
    (reported st) (streams st) (next_address st).

Definition set_OpenedFiles (st : CFileSystem) (v : list (nat * CFileHandle)) : CFileSystem :=
  mkCFileSystem (m_SearchPaths st) v (m_FindFiles st) (m_WarningLevel st)
    (reported st) (streams st) (next_address st).

Definition set_FindFiles (st : CFileSystem) (v : list FindFileData) : CFileSystem :=
  mkCFileSystem (m_SearchPaths st) (m_OpenedFiles st) v (m_WarningLevel st)
    (reported st) (streams st) (next_address st).

Definition set_reported (st : CFileSystem) (v : list WarningMessage) : CFileSystem :=
  mkCFileSystem (m_SearchPaths st) (m_OpenedFiles st) (m_FindFiles st) (m_WarningLevel st)
    v (streams st) (next_address st).

Definition set_streams (st : CFileSystem) (v : gmap nat FILE) : CFileSystem :=
  mkCFileSystem (m_SearchPaths st) (m_OpenedFiles st) (m_FindFiles st) (m_WarningLevel st)
    (reported st) v (next_address st).

Definition set_next_address (st : CFileSystem) (v : nat) : CFileSystem :=
  mkCFileSystem (m_SearchPaths st) (m_OpenedFiles st) (m_FindFiles st) (m_WarningLevel st)
    (reported st) (streams st) v.

(** A file system freshly constructed: nothing mounted, nothing open. *)
Definition new_CFileSystem (level : Z) : CFileSystem :=
  mkCFileSystem [] [] [] level [] ∅ 1.

Definition FILESYSTEM_INVALID_HANDLE : nat := 0.
Definition FILESYSTEM_INVALID_FIND_HANDLE : Z := -1.

(** [CFileSystem::Warning]: the message reaches the sink when its level
    does not exceed the level set. *)
Definition Warning (st : CFileSystem) (level : Z) (msg : WarningMessage) : CFileSystem :=
  if level <=? m_WarningLevel st then set_reported st (reported st ++ [msg]) else st.

(** A stream just opened is put at a fresh address. *)
Definition new_stream (st : CFileSystem) (f : FILE) : CFileSystem * nat :=
  let fp := next_address st in
  (set_next_address (set_streams st (<[fp := f]> (streams st))) (S fp), fp).

Definition close_stream (st : CFileSystem) (fp : nat) : CFileSystem :=
  set_streams st (delete fp (streams st)).

(** The destructor of a search path closes the stream of its pack. *)
Definition destroy_search_path (st : CFileSystem) (sp : CSearchPath) : CFileSystem :=
  match packFile sp with
  | Some h =>
      match m_pFile h with
      | Some fp => close_stream st fp
      | None => st
      end
  | None => st
  end.

(* ===================================================================== *)
(** ** The search path registry *)
(* ===================================================================== *)

(** [RemoveAllSearchPaths]. *)
Definition RemoveAllSearchPaths (st : CFileSystem) : CFileSystem :=
  set_SearchPaths (fold_left destroy_search_path (m_SearchPaths st) st) [].

(** The test of [FindSearchPath] on the two tags. *)
Definition same_pathID (pathID other : option string) : bool :=
  match pathID, other with
  | None, None => true
  | Some a, Some b => strcmp a b =? 0
  | _, _ => false
  end.

(** [FindSearchPath]: the position of the first search path that fits,
    [None] for [m_SearchPaths.end()]. *)
Fixpoint FindSearchPath (paths : list CSearchPath) (pszPath : string)
    (bCheckPathID : bool) (pathID : option string) : option nat :=
  match paths with
  | [] => None
  | it :: rest =>
      if (stricmp pszPath (szPath it) =? 0)
         && (negb bCheckPathID || same_pathID pathID (pszPathID it))
      then Some O
      else option_map S (FindSearchPath rest pszPath bCheckPathID pathID)
  end.

(** [RemoveSearchPath]. *)
Definition RemoveSearchPath (st : CFileSystem) (pPath : option string) : CFileSystem * bool :=
  match pPath with
  | None => (st, false)
  | Some path =>
      match FindSearchPath (m_SearchPaths st) path false None with
      | None => (st, false)
      | Some i =>
          let st' :=
            match m_SearchPaths st !! i with
            | Some sp => destroy_search_path st sp
            | None => st
            end in
          (set_SearchPaths st' (delete i (m_SearchPaths st)), true)
      end
  end.

(** [AddSearchPath( pPath, pathID, bReadOnly )]. *)
Definition AddSearchPath (b : Build) (st : CFileSystem)
    (pPath pathID : option string) (bReadOnly : bool) : CFileSystem * bool :=
  match pPath with
  | None => (st, false)
  | Some path =>
      if strstr path ".bsp" then (st, false)
      else
        match FindSearchPath (m_SearchPaths st) path true pathID with
        | Some _ => (st, false)
        | None =>
            let sp :=
              mkCSearchPath
                (strncpy_terminated (sizeof_szPath b) (make_preferred (platform b) path))
                pathID
                (if bReadOnly
                 then Z.lor SearchPathFlag.NONE SearchPathFlag.READ_ONLY
                 else SearchPathFlag.NONE)
                None ∅ in
            (set_SearchPaths st (m_SearchPaths st ++ [sp]), true)
        end
  end.

(* ===================================================================== *)
(** ** Reading the directory of a pack *)
(* ===================================================================== *)

(** [entries.emplace( key, value )] on a container with unique keys: the
    pair is put in when no element has the key, and dropped otherwise. *)
Definition emplace (key : string) (value : CPackFileEntry)
    (entries : gmap string CPackFileEntry) : gmap string CPackFileEntry :=
  match entries !! key with
  | Some _ => entries
  | None => <[key := value]> entries
  end.

Definition make_entry (plat : Platform) (packEntry : PackEntry_t) : CPackFileEntry :=
  mkCPackFileEntry (make_preferred plat (szFileName packEntry))
    (filepos packEntry) (filelen packEntry).

(** The last loop of [ProcessPackFile], over the records in the order of
    the directory. *)
Fixpoint emplace_pack_entries (plat : Platform) (packEntries : list PackEntry_t)
    (entries : gmap string CPackFileEntry) : gmap string CPackFileEntry :=
  match packEntries with
  | [] => entries
  | packEntry :: rest =>
      let entry := make_entry plat packEntry in
      emplace_pack_entries plat rest (emplace (pe_FileName entry) entry entries)
  end.

(** The bytes of [count] records of [size] bytes each, record by record. *)
Fixpoint records_of_bytes (size count : nat) (bytes : list Byte.byte) : list (list Byte.byte) :=
  match count with
  | O => []
  | S count' => take size bytes :: records_of_bytes size count' (drop size bytes)
  end.

(** [ProcessPackFile<PackType>]: the file system with what was reported,
    the stream where the reads left it, and the entries on success. *)
Definition ProcessPackFile (plat : Platform) (layout : PackLayout) (st : CFileSystem)
    (pszFileName : string) (pFile : FILE) (entries : gmap string CPackFileEntry)
  : CFileSystem * FILE * option (gmap string CPackFileEntry) :=
  let '(got, header, pFile1) := c_fread (sizeof_Header_t layout) 1 pFile in
  if negb (got =? 1) then
    (Warning st FILESYSTEM_WARNING_CRITICAL
       (ProcessPackFile_header (NAME layout) pszFileName), pFile1, None)
  else
    let '(dirofs, dirlen) := header_dir layout header in
    if negb (dirlen mod sizeof_Entry_t layout =? 0) then
      (Warning st FILESYSTEM_WARNING_CRITICAL
         (ProcessPackFile_directory_length (NAME layout) pszFileName), pFile1, None)
    else
      let numFiles := dirlen / sizeof_Entry_t layout in
      if numFiles >? MAX_FILES layout then
        (Warning st FILESYSTEM_WARNING_CRITICAL
           (ProcessPackFile_too_many_files (NAME layout) pszFileName (MAX_FILES layout) numFiles),
         pFile1, None)
      else
        let pFile2 := c_fseek pFile1 dirofs SEEK_SET in
        let '(read, bytes, pFile3) := c_fread (sizeof_Entry_t layout) numFiles pFile2 in
        if negb (read =? numFiles) then
          (Warning st FILESYSTEM_WARNING_CRITICAL
             (ProcessPackFile_directory_entries (NAME layout) pszFileName), pFile3, None)
        else
          let packEntries :=
            map (entry_of_bytes layout)
              (records_of_bytes (Z.to_nat (sizeof_Entry_t layout)) (Z.to_nat numFiles) bytes) in
          (st, pFile3, Some (emplace_pack_entries plat packEntries entries)).

(** [AddPackFile]. The handle on the pack is a local object until the
    search path takes it over: on every failure its stream is closed
    again, so no stream is left behind. *)
Definition AddPackFile (b : Build) (pk : PackFile_h) (os : HostOS) (st : CFileSystem)
    (fullpath pathID : option string) : CFileSystem * bool :=
  match fullpath with
  | None => (st, false)
  | Some name =>
      match c_fopen os name "rb" with
      | None => (st, false)
      | Some bytes =>
          let file := mkFILE bytes 0 in
          let '(got, header, file1) := c_fread (sizeof_pack_Header_t pk) 1 file in
          if negb (got =? 1) then
            (Warning st FILESYSTEM_WARNING_CRITICAL (AddPackFile_identifier name), false)
          else
            match IdentifyPackType pk header with
            | NOT_A_PACK =>
                (Warning st FILESYSTEM_WARNING_CRITICAL (AddPackFile_not_a_pack name), false)
            | type =>
                let layout :=
                  match type with
                  | PACK_64BIT => Pack64_t pk
                  | _ => Pack32_t pk
                  end in
                match ProcessPackFile (platform b) layout st name (c_rewind file1) ∅ with
                | (st1, _, None) => (st1, false)
                | (st1, file2, Some entries) =>
                    let '(st2, fp) := new_stream st1 file2 in
                    let path :=
                      mkCSearchPath
                        (strncpy_terminated (sizeof_szPath b) (make_preferred (platform b) name))
                        pathID
                        (Z.lor SearchPathFlag.READ_ONLY SearchPathFlag.IS_PACK_FILE)
                        (Some (mkCFileHandle name (Some fp) false 0 (f_size file2)))
                        entries in
                    (set_SearchPaths st2 (m_SearchPaths st2 ++ [path]), true)
                end
            end
      end
  end.

(* ===================================================================== *)
(** ** Opening and closing files *)
(* ===================================================================== *)

(** The scope test of every scan: a tag is asked for and the search path
    has none or another one. *)
Definition pathID_excludes (pathID : option string) (searchPath : CSearchPath) : bool :=
  match pathID with
  | None => false
  | Some id =>
      match pszPathID searchPath with
      | None => true
      | Some tag => negb (strcmp id tag =? 0)
      end
  end.

(** [m_OpenedFiles.emplace_back( ... )]: the handle object gets a fresh
    address, which is the handle the caller receives. *)
Definition register_handle (st : CFileSystem) (file : CFileHandle) : CFileSystem * nat :=
  let address := next_address st in
  (set_next_address (set_OpenedFiles st (m_OpenedFiles st ++ [(address, file)])) (S address),
   address).

(** The loop of [Open] over the search paths still to try. Modelled from
    the spec: the plain constructor of [CFileHandle] is not part of the
    sources at hand; it is taken to [fopen] the name with the options, the
    handle being open when that succeeds, and to keep the size of the file
    as the length of the handle. *)
Fixpoint Open_scan (plat : Platform) (os : HostOS) (st : CFileSystem)
    (searchPaths : list CSearchPath) (pFileName pOptions : string)
    (pathID : option string) (bIsWrite : bool) : CFileSystem * nat :=
  match searchPaths with
  | [] => (st, FILESYSTEM_INVALID_HANDLE)
  | searchPath :: rest =>
      if has_flag (flags searchPath) SearchPathFlag.READ_ONLY && bIsWrite then
        Open_scan plat os st rest pFileName pOptions pathID bIsWrite
      else if pathID_excludes pathID searchPath then
        Open_scan plat os st rest pFileName pOptions pathID bIsWrite
      else
        let path := make_preferred plat (path_append plat (szPath searchPath) pFileName) in
        match c_fopen os path pOptions with
        | Some bytes =>
            let '(st1, fp) := new_stream st (mkFILE bytes 0) in
            register_handle st1
              (mkCFileHandle path (Some fp) false 0 (Z.of_nat (length bytes)))
        | None => Open_scan plat os st rest pFileName pOptions pathID bIsWrite
        end
  end.

(** [Open]. *)
Definition Open (b : Build) (os : HostOS) (st : CFileSystem)
    (pFileName pOptions pathID : option string) : CFileSystem * nat :=
  match pFileName, pOptions with
  | Some name, Some options =>
      let bIsWrite := strchr options "w"%char in
      Open_scan (platform b) os st (m_SearchPaths st) name options pathID bIsWrite
  | _, _ => (st, FILESYSTEM_INVALID_HANDLE)
  end.

(** The loop of [OpenFromCacheForRead]. Modelled from the spec: the
    constructor of a pack entry handle is not part of the sources at hand;
    the handle refers to the stream of the pack, which it does not own,
    and the stream is put at the start of the window. [None] stands for a
    search path flagged as a pack without a pack stream, which no mount
    operation builds. *)
Fixpoint OpenFromCacheForRead_scan (plat : Platform) (st : CFileSystem)
    (searchPaths : list CSearchPath) (pFileName : string) (pathID : option string)
  : option (CFileSystem * nat) :=
  match searchPaths with
  | [] => Some (st, FILESYSTEM_INVALID_HANDLE)
  | searchPath :: rest =>
      if negb (has_flag (flags searchPath) SearchPathFlag.IS_PACK_FILE) then
        OpenFromCacheForRead_scan plat st rest pFileName pathID
      else if pathID_excludes pathID searchPath then
        OpenFromCacheForRead_scan plat st rest pFileName pathID
      else
        let szFileName := make_preferred plat pFileName in
        match packEntries searchPath !! szFileName with
        | None => OpenFromCacheForRead_scan plat st rest pFileName pathID
        | Some it =>
            match packFile searchPath with
            | Some pack =>
                match m_pFile pack with
                | Some fp =>
                    match streams st !! fp with
                    | Some f =>
                        let st1 :=
                          set_streams st
                            (<[fp := c_fseek f (pe_StartOffset it) SEEK_SET]> (streams st)) in
                        Some (register_handle st1
                                (mkCFileHandle szFileName (Some fp) true
                                   (pe_StartOffset it) (pe_Length it)))
                    | None => None
                    end
                | None => None
                end
            | None => None
            end
        end
  end.

(** [OpenFromCacheForRead]. *)
Definition OpenFromCacheForRead (b : Build) (st : CFileSystem)
    (pFileName pOptions pathID : option string) : option (CFileSystem * nat) :=
  match pFileName, pOptions with
  | Some name, Some options =>
      let bIsWrite := strchr options "w"%char in
      if bIsWrite then
        Some (Warning st FILESYSTEM_WARNING_CRITICAL (OpenFromCacheForRead_write_option name),
              FILESYSTEM_INVALID_HANDLE)
      else OpenFromCacheForRead_scan (platform b) st (m_SearchPaths st) name pathID
  | _, _ => Some (st, FILESYSTEM_INVALID_HANDLE)
  end.

(** The first loop of [Close]: where the handle is in [m_OpenedFiles]. *)
Fixpoint position_of (files : list (nat * CFileHandle)) (pFile : nat) : option nat :=
  match files with
  | [] => None
  | (address, _) :: rest =>
      if Nat.eqb address pFile then Some O else option_map S (position_of rest pFile)
  end.

(** [CFileHandle::Close]: a plain handle closes its stream, a pack entry
    leaves the stream of the pack alone. *)
Definition CFileHandle_Close (st : CFileSystem) (h : CFileHandle) : CFileSystem :=
  match m_pFile h with
  | Some fp => if IsPackEntry h then st else close_stream st fp
  | None => st
  end.

(** [Close]. *)
Definition Close (st : CFileSystem) (file : nat) : CFileSystem :=
  if Nat.eqb file FILESYSTEM_INVALID_HANDLE then st
  else
    match position_of (m_OpenedFiles st) file with
    | None => st
    | Some position =>
        match m_OpenedFiles st !! position with
        | None => st
        | Some (_, pFile) =>
            let st1 :=
              if IsOpen pFile then
                CFileHandle_Close
                  (Warning st FILESYSTEM_WARNING_REPORTALLACCESSES
                     (Close_closing_file (m_szFileName pFile)))
                  pFile
              else Warning st FILESYSTEM_WARNING_CRITICAL Close_already_closed in
            set_OpenedFiles st1 (delete position (m_OpenedFiles st1))
        end
    end.

(* ===================================================================== *)
(** ** Positions and reads through a handle *)
(* ===================================================================== *)

Inductive FileSystemSeek_t : Type :=
  | FILESYSTEM_SEEK_HEAD
  | FILESYSTEM_SEEK_CURRENT
  | FILESYSTEM_SEEK_TAIL
  | FILESYSTEM_SEEK_other (value : Z).

(** What a member function finds behind a [FileHandle_t]: nothing for the
    null handle, the handle object for a handle of [m_OpenedFiles]. A
    handle that is neither is a dangling pointer, and using it is
    undefined. *)
Inductive Dereferenced : Type :=
  | NullHandle
  | HandleObject (h : CFileHandle)
  | Dangling.

Definition dereference (st : CFileSystem) (file : nat) : Dereferenced :=
  if Nat.eqb file 0 then NullHandle
  else
    match position_of (m_OpenedFiles st) file with
    | Some position =>
        match m_OpenedFiles st !! position with
        | Some (_, h) => HandleObject h
        | None => Dangling
        end
    | None => Dangling
    end.

(** The first half of [Seek]: the position and the seek type after the
    adjustment for a pack entry. The sums are [int] sums. *)
Definition Seek_adjust (pFile : CFileHandle) (pos : Z) (seekType : FileSystemSeek_t)
  : Z * FileSystemSeek_t :=
  if IsPackEntry pFile then
    match seekType with
    | FILESYSTEM_SEEK_HEAD =>
        (to_int (pos + to_int (GetStartOffset pFile)), FILESYSTEM_SEEK_HEAD)
    | FILESYSTEM_SEEK_TAIL =>
        (to_int (pos + to_int (to_u64 (GetStartOffset pFile + GetLength pFile))),
         FILESYSTEM_SEEK_HEAD)
    | other => (pos, other)
    end
  else (pos, seekType).

(** The second half: the [fseek] that [Seek] ends in, if any. *)
Definition Seek_origin (seekType : FileSystemSeek_t) : option SeekOrigin :=
  match seekType with
  | FILESYSTEM_SEEK_HEAD => Some SEEK_SET
  | FILESYSTEM_SEEK_CURRENT => Some SEEK_CUR
  | FILESYSTEM_SEEK_TAIL => Some SEEK_END
  | FILESYSTEM_SEEK_other _ => None
  end.

(** [Seek]. [None] stands for undefined behaviour: a dangling handle or
    a handle on a stream that is gone. *)
Definition Seek (st : CFileSystem) (file : nat) (pos : Z) (seekType : FileSystemSeek_t)
  : option CFileSystem :=
  match dereference st file with
  | NullHandle => Some (Warning st FILESYSTEM_WARNING_CRITICAL Seek_null_handle)
  | Dangling => None
  | HandleObject pFile =>
      match m_pFile pFile with
      | None => Some (Warning st FILESYSTEM_WARNING_CRITICAL Seek_null_file_pointer)
      | Some fp =>
          let '(pos1, seekType1) := Seek_adjust pFile pos seekType in
          match Seek_origin seekType1 with
          | None =>
              Some (Warning st FILESYSTEM_WARNING_CRITICAL
                      (Seek_invalid_seek_type
                         (match seekType1 with FILESYSTEM_SEEK_other v => v | _ => 0 end)))
          | Some origin =>
              match streams st !! fp with
              | None => None
              | Some f => Some (set_streams st (<[fp := c_fseek f pos1 origin]> (streams st)))
              end
          end
      end
  end.

(** [Tell]. *)
Definition Tell (st : CFileSystem) (file : nat) : option (CFileSystem * Z) :=
  match dereference st file with
  | NullHandle => Some (Warning st FILESYSTEM_WARNING_CRITICAL Tell_null_handle, 0)
  | Dangling => None
  | HandleObject pFile =>
      match m_pFile pFile with
      | None => Some (Warning st FILESYSTEM_WARNING_CRITICAL Tell_null_file_pointer, 0)
      | Some fp =>
          match streams st !! fp with
          | None => None
          | Some f =>
              if IsPackEntry pFile then
                let position := c_ftell f in
                Some (st, to_uint (to_u64 (position - GetStartOffset pFile)))
              else Some (st, to_uint (c_ftell f))
          end
      end
  end.

(** [Read]: the file system after the read, the [int] returned, and the
    bytes [fread] put into the buffer. *)
Definition Read (st : CFileSystem) (size : Z) (file : nat)
  : option (CFileSystem * Z * list Byte.byte) :=
  match dereference st file with
  | NullHandle => Some (Warning st FILESYSTEM_WARNING_CRITICAL Read_null_handle, 0, [])
  | Dangling => None
  | HandleObject pFile =>
      match m_pFile pFile with
      | None => Some (Warning st FILESYSTEM_WARNING_CRITICAL Read_null_file_pointer, 0, [])
      | Some fp =>
          match streams st !! fp with
          | None => None
          | Some f =>
              if IsPackEntry pFile then
                if GetLength pFile =? 0 then Some (st, 0, [])
                else
                  let position := c_ftell f in
                  let relativePos := to_u64 (position - GetStartOffset pFile) in
                  if relativePos >=? GetLength pFile then Some (st, 0, [])
                  else
                    let '(result, bytes, f1) := c_fread 1 (to_size_t size) f in
                    let st1 := set_streams st (<[fp := f1]> (streams st)) in
                    let result1 :=
                      if to_u64 (relativePos + size) >=? to_u64 (GetLength pFile + 1) then
                        let maxRead :=
                          to_size_t (to_u64 (to_u64 (GetLength pFile + 1) - relativePos)) in
                        Z.min result maxRead
                      else result in
                    Some (st1, to_int result1, bytes)
              else
                let '(result, bytes, f1) := c_fread 1 (to_size_t size) f in
                Some (set_streams st (<[fp := f1]> (streams st)), to_int result, bytes)
          end
      end
  end.

(* ===================================================================== *)
(** ** Queries by name *)
(* ===================================================================== *)

(** [FileExists]. *)
Fixpoint FileExists_scan (plat : Platform) (os : HostOS) (searchPaths : list CSearchPath)
    (pFileName : string) : bool :=
  match searchPaths with
  | [] => false
  | searchPath :: rest =>
      if fs_exists os (path_append plat (szPath searchPath) pFileName) then true
      else FileExists_scan plat os rest pFileName
  end.

Definition FileExists (b : Build) (os : HostOS) (st : CFileSystem)
    (pFileName : option string) : bool :=
  match pFileName with
  | None => false
  | Some name => FileExists_scan (platform b) os (m_SearchPaths st) name
  end.

(** [IsDirectory]. *)
Fixpoint IsDirectory_scan (plat : Platform) (os : HostOS) (searchPaths : list CSearchPath)
    (pFileName : string) : bool :=
  match searchPaths with
  | [] => false
  | searchPath :: rest =>
      if fs_is_directory os (path_append plat (szPath searchPath) pFileName) then true
      else IsDirectory_scan plat os rest pFileName
  end.

Definition IsDirectory (b : Build) (os : HostOS) (st : CFileSystem)
    (pFileName : option string) : bool :=
  match pFileName with
  | None => false
  | Some name => IsDirectory_scan (platform b) os (m_SearchPaths st) name
  end.

(** [Size( const char* pFileName )]: [fs::file_size] of the name as it is
    given; on an error [fs::file_size] returns [uintmax_t( -1 )]. *)
Definition Size_by_name (os : HostOS) (st : CFileSystem) (pFileName : option string) : Z :=
  match pFileName with
  | None => 0
  | Some name =>
      to_uint (match fs_file_size os name with
               | Some size => size
               | None => to_u64 (-1)
               end)
  end.

(** [GetFileTime]. *)
Fixpoint GetFileTime_scan (plat : Platform) (os : HostOS) (searchPaths : list CSearchPath)
    (pFileName : string) : Z :=
  match searchPaths with
  | [] => 0
  | searchPath :: rest =>
      let path := path_append plat (szPath searchPath) pFileName in
      if fs_exists os path then fs_last_write_time os path
      else GetFileTime_scan plat os rest pFileName
  end.

Definition GetFileTime (b : Build) (os : HostOS) (st : CFileSystem) (pFileName : string) : Z :=
  GetFileTime_scan (platform b) os (m_SearchPaths st) pFileName.

(** The scan the specification describes for the size of a file by name:
    the size of the first [location/relativePath] that exists, in the
    order of registration, [None] when there is none. *)
Fixpoint size_by_scan_spec (plat : Platform) (os : HostOS) (searchPaths : list CSearchPath)
    (pFileName : string) : option Z :=
  match searchPaths with
  | [] => None
  | searchPath :: rest =>
      let path := path_append plat (szPath searchPath) pFileName in
      if fs_exists os path then fs_file_size os path
      else size_by_scan_spec plat os rest pFileName
  end.

(* ===================================================================== *)
(** ** Enumeration *)
(* ===================================================================== *)

Definition set_data_flags (data : FindFileData) (v : Z) : FindFileData :=
  mkFindFileData (filter data) (szPathID data) (currentPath data) (iterator data)
    (data_szFileName data) v.

(** The inner [for] of [FindNext] over the search paths from [position]
    on: the first one in scope, with its position. *)
Fixpoint next_search_path (searchPaths : list CSearchPath) (position : nat)
    (szPathID : string) : option (nat * CSearchPath) :=
  match searchPaths with
  | [] => None
  | path :: rest =>
      if match szPathID with
         | EmptyString => false
         | _ =>
             match pszPathID path with
             | None => true
             | Some tag => negb (strcmp szPathID tag =? 0)
             end
         end
      then next_search_path rest (S position) szPathID
      else Some (position, path)
  end.

(** The last [for] of [FindNext]: entries are taken from the walk until
    one matches; the name of the entry, what is left of the walk, and the
    name last stored in the cursor. *)
Fixpoint next_match (flt : regex) (walk : list string) (szFileName : string)
  : option string * list string * string :=
  match walk with
  | [] => (None, [], szFileName)
  | entry :: rest =>
      if regex_match entry flt then (Some entry, rest, entry)
      else next_match flt rest entry
  end.

(** The [do ... while( true )] of [FindNext]; [None] when the rounds
    given do not suffice. *)
Fixpoint FindNext_loop (rounds : nat) (os : HostOS) (searchPaths : list CSearchPath)
    (data : FindFileData) : option (FindFileData * option string) :=
  match rounds with
  | O => None
  | S rounds' =>
      let data1 :=
        match iterator data with
        | [] =>
            let first := match currentPath data with Some i => i | None => O end in
            match next_search_path (drop first searchPaths) first (szPathID data) with
            | Some (position, path) =>
                mkFindFileData (filter data) (szPathID data) (Some position)
                  (fs_recursive_directory_iterator os (szPath path))
                  (data_szFileName data) (data_flags data)
            | None =>
                set_data_flags data (Z.lor (data_flags data) FindFileFlag.END_OF_DATA)
            end
        | _ => data
        end in
      if has_flag (data_flags data1) FindFileFlag.END_OF_DATA then Some (data1, None)
      else
        match next_match (filter data1) (iterator data1) (data_szFileName data1) with
        | (Some name, rest, last) =>
            Some (mkFindFileData (filter data1) (szPathID data1) (currentPath data1)
                    rest last (data_flags data1), Some name)
        | (None, rest, last) =>
            FindNext_loop rounds' os searchPaths
              (mkFindFileData (filter data1) (szPathID data1) (currentPath data1)
                 rest last (data_flags data1))
        end
  end.

(** [FindNext]. *)
Definition FindNext (os : HostOS) (st : CFileSystem) (handle : Z) (rounds : nat)
  : option (CFileSystem * option string) :=
  if to_size_t handle >=? Z.of_nat (length (m_FindFiles st)) then Some (st, None)
  else
    match m_FindFiles st !! Z.to_nat (to_size_t handle) with
    | None => Some (st, None)
    | Some data =>
        if has_flag (data_flags data) FindFileFlag.END_OF_DATA then Some (st, None)
        else
          match FindNext_loop rounds os (m_SearchPaths st) data with
          | None => None
          | Some (data', name) =>
              Some (set_FindFiles st (<[Z.to_nat (to_size_t handle) := data']> (m_FindFiles st)),
                    name)
          end
    end.

(** The loop of [FindClose] over the table from its end. It tests the
    flags of [data], the cursor being closed, in every round; the
    [erase] of its body is given [rbegin().base()], which is [end()], and
    that is undefined. *)
Definition FindClose_reclaim (data : FindFileData) (files : list FindFileData)
  : option (list FindFileData) :=
  match files with
  | [] => Some files
  | _ :: _ =>
      if has_flag (data_flags data) FindFileFlag.VALID then Some files
      else None
  end.

(** [FindClose]; [None] for undefined behaviour. *)
Definition FindClose (st : CFileSystem) (handle : Z) : option CFileSystem :=
  if to_size_t handle >=? Z.of_nat (length (m_FindFiles st)) then Some st
  else
    match m_FindFiles st !! Z.to_nat (to_size_t handle) with
    | None => Some st
    | Some data =>
        if negb (has_flag (data_flags data) FindFileFlag.VALID) then Some st
        else if to_size_t handle =? to_size_t (Z.of_nat (length (m_FindFiles st)) - 1) then
          match FindClose_reclaim data (m_FindFiles st) with
          | Some files => Some (set_FindFiles st files)
          | None => None
          end
        else
          Some (set_FindFiles st
                  (<[Z.to_nat (to_size_t handle) :=
                       set_data_flags data (clear_flag (data_flags data) FindFileFlag.VALID)]>
                     (m_FindFiles st)))
    end.

(** [FindFirst]: the file system, the value stored through [pHandle] if
    any, and the name returned. Modelled from the spec: the constructor of
    [FindFileData] is not part of the sources at hand; a cursor starts
    with the [VALID] flag, an end iterator and no current search path.
    [None] when the wild card is outside the modelled grammar, the rounds
    do not suffice or the behaviour is undefined. *)
Definition FindFirst (b : Build) (os : HostOS) (st : CFileSystem)
    (pWildCard : option string) (pHandle : bool) (pathID : option string) (rounds : nat)
  : option (CFileSystem * option Z * option string) :=
  match pWildCard, pHandle with
  | Some wildCard, true =>
      match wildcard_filter (platform b) wildCard with
      | Unmodelled => None
      | Throws e =>
          Some (Warning st FILESYSTEM_WARNING_CRITICAL (FindFirst_invalid_wildcard e),
                Some FILESYSTEM_INVALID_FIND_HANDLE, None)
      | Compiled flt =>
          let data :=
            mkFindFileData flt
              (match pathID with
               | Some id => strncpy_terminated (sizeof_szPathID b) id
               | None => EmptyString
               end)
              None [] EmptyString FindFileFlag.VALID in
          let st1 := set_FindFiles st (m_FindFiles st ++ [data]) in
          let handle := to_int (Z.of_nat (length (m_FindFiles st1)) - 1) in
          match FindNext os st1 handle rounds with
          | None => None
          | Some (st2, Some pszFileName) => Some (st2, Some handle, Some pszFileName)
          | Some (st2, None) =>
              match FindClose st2 handle with
              | None => None
              | Some st3 => Some (st3, Some FILESYSTEM_INVALID_FIND_HANDLE, None)
              end
          end
      end
  | _, _ => Some (st, None, None)
  end.

(* ===================================================================== *)
(** ** Properties of the registry and of wild cards *)
(* ===================================================================== *)

(** Two search paths take the same place in the registry: the locations
    compare equal without regard to case and the tags are the same. *)
Definition same_mount (a b : CSearchPath) : bool :=
  (stricmp (szPath a) (szPath b) =? 0) && same_pathID (pszPathID a) (pszPathID b).

(** No two search paths of the registry take the same place. *)
Fixpoint no_duplicate_mounts (searchPaths : list CSearchPath) : bool :=
  match searchPaths with
  | [] => true
  | searchPath :: rest =>
      forallb (fun other => negb (same_mount searchPath other)) rest
      && no_duplicate_mounts rest
  end.

(** Every search path flagged as a pack file is flagged read-only. *)
Definition packs_are_read_only (searchPaths : list CSearchPath) : Prop :=
  Forall (fun searchPath =>
            has_flag (flags searchPath) SearchPathFlag.IS_PACK_FILE = true ->
            has_flag (flags searchPath) SearchPathFlag.READ_ONLY = true) searchPaths.

(** The first record of a directory whose name, once normalized, is
    [name]. *)
Fixpoint first_record (plat : Platform) (name : string) (packEntries : list PackEntry_t)
  : option CPackFileEntry :=
  match packEntries with
  | [] => None
  | packEntry :: rest =>
      if String.eqb (make_preferred plat (szFileName packEntry)) name
      then Some (make_entry plat packEntry)
      else first_record plat name rest
  end.

(** Whether the filter made of a wild card matches a name; [None] when no
    filter comes out of the wild card. *)
Definition wildcard_matches (plat : Platform) (pWildCard name : string) : option bool :=
  match wildcard_filter plat pWildCard with
  | Compiled flt => Some (regex_match name flt)
  | _ => None
  end.

(** A character of a wild card that the regular expression takes for
    itself: what [make_preferred] leaves of it is not a syntax character
    of the grammar. *)
Definition plain_character (plat : Platform) (c : ascii) : bool :=
  negb (is_syntax_character (preferred_char plat c)).

(** A wild card of stars and plain characters. *)
Fixpoint plain_wildcard (plat : Platform) (pattern : string) : bool :=
  match pattern with
  | EmptyString => true
  | String c rest =>
      (Ascii.eqb c "*"%char || plain_character plat c) && plain_wildcard plat rest
  end.

Fixpoint no_line_terminator (s : string) : bool :=
  match s with
  | EmptyString => true
  | String c rest => negb (is_line_terminator c) && no_line_terminator rest
  end.

(* ===================================================================== *)
(** ** A host and a pack to run the code on *)
(* ===================================================================== *)

Definition posix_build : Build := mkBuild Posix 260 64.
Definition windows_build : Build := mkBuild Windows 260 64.

Definition byte_value (b : Byte.byte) : Z := Z.of_N (Byte.to_N b).

Definition byte_of_value (z : Z) : Byte.byte :=
  match Byte.of_N (Z.to_N (z mod 256)) with
  | Some b => b
  | None => Byte.x00
  end.

(** A little-endian 32-bit unsigned field. *)
Definition le32 (bytes : list Byte.byte) : Z :=
  fold_right (fun b acc => byte_value b + 256 * acc) 0 (take 4 bytes).

Definition bytes_of_le32 (z : Z) : list Byte.byte :=
  [byte_of_value z; byte_of_value (z / 256);
   byte_of_value (z / 65536); byte_of_value (z / 16777216)].

(** The C string at the start of a character array. *)
Fixpoint c_string (bytes : list Byte.byte) : string :=
  match bytes with
  | [] => EmptyString
  | b :: rest =>
      if byte_value b =? 0 then EmptyString
      else String (ascii_of_byte b) (c_string rest)
  end.

Definition bytes_of_string (s : string) : list Byte.byte :=
  map byte_of_ascii (list_ascii_of_string s).

Definition padded (size : nat) (bytes : list Byte.byte) : list Byte.byte :=
  take size (bytes ++ repeat Byte.x00 size).

(** A layout in the style of the classic pack format: a header of a
    4-byte signature and the two directory fields, and records of a
    56-byte name with the position and the length of the file. *)
Definition example_layout (kind : string) (max_files : Z) : PackLayout :=
  mkPackLayout kind 12
    (fun header => (le32 (drop 4 header), le32 (drop 8 header)))
    64
    (fun record =>
       mkPackEntry_t (c_string (take 56 record)) (le32 (drop 56 record))
         (le32 (drop 60 record)))
    max_files.

Definition example_PackFile_h : PackFile_h :=
  mkPackFile_h 12
    (fun header =>
       let signature := c_string (take 4 header) in
       if String.eqb signature "PACK" then PACK_32BIT
       else if String.eqb signature "PK64" then PACK_64BIT
       else NOT_A_PACK)
    (example_layout "PACK" 4096)
    (example_layout "PK64" 65536).

(** A pack of 256 bytes with one entry, [sound/a.wav], of 64 bytes at
    offset 128; its directory follows the entry at offset 192. *)
Definition example_pack : list Byte.byte :=
  bytes_of_string "PACK" ++ bytes_of_le32 192 ++ bytes_of_le32 64
  ++ repeat Byte.x00 116
  ++ repeat Byte.x61 64
  ++ padded 56 (bytes_of_string "sound/a.wav") ++ bytes_of_le32 128 ++ bytes_of_le32 64.

(** A pack of 76 bytes that is nothing but a header and a directory of
    one record, which places the entry [far.bin] at offset 2^31. *)
Definition far_pack : list Byte.byte :=
  bytes_of_string "PACK" ++ bytes_of_le32 12 ++ bytes_of_le32 64
  ++ padded 56 (bytes_of_string "far.bin") ++ bytes_of_le32 2147483648 ++ bytes_of_le32 16.

(** A host with the directory [/base], the file [/base/a.txt] of 10
    bytes in it, and the packs [/base.pak] and [/far.pak]; nothing can be
    opened for writing but files under [/base]. *)
Definition example_os : HostOS :=
  mkHostOS
    (fun path =>
       String.eqb path "/base" || String.eqb path "/base/a.txt"
       || String.eqb path "/base.pak" || String.eqb path "/far.pak")
    (fun path => String.eqb path "/base")
    (fun path =>
       if String.eqb path "/base/a.txt" then Some 10
       else if String.eqb path "/base.pak" then Some 256
       else if String.eqb path "/far.pak" then Some 76
       else None)
    (fun path => if String.eqb path "/base/a.txt" then 1000 else 0)
    (fun path => if String.eqb path "/base" then ["/base/a.txt"] else [])
    (fun path mode =>
       if String.eqb path "/base.pak" then
         if strchr mode "w"%char then None else Some example_pack
       else if String.eqb path "/far.pak" then
         if strchr mode "w"%char then None else Some far_pack
       else if String.eqb path "/base/a.txt" then Some (repeat Byte.x62 10)
       else if is_prefix "/base/" path && strchr mode "w"%char then Some []
       else None).

(** The file system after [/base] and the pack have been mounted. *)
Definition example_mounted : CFileSystem :=
  let st := fst (AddSearchPath posix_build (new_CFileSystem 0) (Some "/base") None false) in
  fst (AddPackFile posix_build example_PackFile_h example_os st (Some "/base.pak") None).

(** A table with two find cursors, both valid. *)
Definition example_cursor : FindFileData :=
  mkFindFileData Eps EmptyString None [] EmptyString FindFileFlag.VALID.

Definition example_cursors : CFileSystem :=
  set_FindFiles (new_CFileSystem 0) [example_cursor; example_cursor].

(** A handle on the entry of the example pack, over the stream of the
    pack at position 140. *)
Definition near_entry_handle : CFileHandle :=
  mkCFileHandle "sound/a.wav" (Some 1%nat) true 128 64.

Definition near_entry_open : CFileSystem :=
  mkCFileSystem [] [(2%nat, near_entry_handle)] [] 0 []
    {[ 1%nat := mkFILE example_pack 140 ]} 3.

(** A handle on a pack entry whose window starts at 2^31, over a stream
    whose position is 5. *)
Definition far_entry_handle : CFileHandle :=
  mkCFileHandle "far.bin" (Some 1%nat) true 2147483648 16.

Definition far_entry_open : CFileSystem :=
  mkCFileSystem [] [(2%nat, far_entry_handle)] [] 0 []
    {[ 1%nat := mkFILE (repeat Byte.x00 8) 5 ]} 3.

(** The same kind of handle got through the interface: [/far.pak] is
    mounted and [far.bin] opened from the cache, the cursor is moved on
    by 5 and then sought to 0 from the start; the handle object and what
    [Tell] returns at the end. *)
Definition far_entry_session : option (CFileHandle * Z) :=
  match OpenFromCacheForRead posix_build
          (fst (AddPackFile posix_build example_PackFile_h example_os (new_CFileSystem 0)
                  (Some "/far.pak") None))
          (Some "far.bin") (Some "rb") None with
  | Some (st1, h) =>
      match Seek st1 h 5 FILESYSTEM_SEEK_CURRENT with
      | Some st2 =>
          match Seek st2 h 0 FILESYSTEM_SEEK_HEAD with
          | Some st3 =>
              match dereference st3 h, Tell st3 h with
              | HandleObject pFile, Some (_, position) => Some (pFile, position)
              | _, _ => None
              end
          | None => None
          end
      | None => None
      end
  | None => None
  end.

(* ===================================================================== *)
(** ** More of the interface *)
(* ===================================================================== *)

(** [AddSearchPath( pPath, pathID )] and [AddSearchPathNoWrite]. *)
Definition AddSearchPath_writable (b : Build) (st : CFileSystem)
    (pPath pathID : option string) : CFileSystem :=
  fst (AddSearchPath b st pPath pathID false).

Definition AddSearchPathNoWrite (b : Build) (st : CFileSystem)
    (pPath pathID : option string) : CFileSystem :=
  fst (AddSearchPath b st pPath pathID true).

(** The loop of [RemoveFile]: the paths [fs::remove] is called on, in
    order, [fs_remove] telling whether a call removes something. The loop
    ends with the first call that does. *)
Fixpoint RemoveFile_scan (plat : Platform) (fs_remove : string -> bool)
    (searchPaths : list CSearchPath) (pRelativePath : string) (pathID : option string)
  : list string :=
  match searchPaths with
  | [] => []
  | searchPath :: rest =>
      if has_flag (flags searchPath) SearchPathFlag.READ_ONLY then
        RemoveFile_scan plat fs_remove rest pRelativePath pathID
      else if pathID_excludes pathID searchPath then
        RemoveFile_scan plat fs_remove rest pRelativePath pathID
      else
        let path := path_append plat (szPath searchPath) pRelativePath in
        if fs_remove path then [path]
        else path :: RemoveFile_scan plat fs_remove rest pRelativePath pathID
  end.

(** [RemoveFile]. *)
Definition RemoveFile (b : Build) (fs_remove : string -> bool) (st : CFileSystem)
    (pRelativePath pathID : option string) : list string :=
  match pRelativePath with
  | None => []
  | Some name => RemoveFile_scan (platform b) fs_remove (m_SearchPaths st) name pathID
  end.



(** The loop of [GetLocalPath]. *)
Fixpoint GetLocalPath_scan (plat : Platform) (os : HostOS) (searchPaths : list CSearchPath)
    (pFileName : string) : option string :=
  match searchPaths with
  | [] => None
  | searchPath :: rest =>
      let path := path_append plat (szPath searchPath) pFileName in
      if fs_exists os path then Some (make_preferred plat path)
      else GetLocalPath_scan plat os rest pFileName
  end.

(** [GetLocalPath]: what the buffer holds when a pointer to it is
    returned, [None] for the null pointer. [pLocalPath] tells whether a
    buffer is given. *)
Definition GetLocalPath (b : Build) (os : HostOS) (st : CFileSystem) (pFileName : string)
    (pLocalPath : bool) (localPathBufferSize : Z) : option string :=
  if negb pLocalPath || (localPathBufferSize <=? 0) then None
  else
    option_map (strncpy_terminated (Z.to_nat localPathBufferSize))
      (GetLocalPath_scan (platform b) os (m_SearchPaths st) pFileName).

(** What the member functions below do first: a null handle and a handle
    that is not open are each handed to [Warning] at the critical level,
    with a message of the function's own, and the function returns its
    zero; otherwise it goes on. *)
Inductive Validated (A : Type) : Type :=
  | warns_null_handle
  | warns_null_file_pointer
  | passes (a : A).

Arguments warns_null_handle {A}.
Arguments warns_null_file_pointer {A}.
Arguments passes {A} a.

(** [Size( FileHandle_t )]. *)
Definition Size_by_handle (st : CFileSystem) (file : nat) : option (Validated Z) :=
  match dereference st file with
  | NullHandle => Some warns_null_handle
  | Dangling => None
  | HandleObject pFile =>
      match m_pFile pFile with
      | None => Some warns_null_file_pointer
      | Some _ => Some (passes (to_uint (GetLength pFile)))
      end
  end.

(** [EndOfFile]. [c_feof] is what [feof] answers for a stream, which is
    asked for a plain handle only. *)
Definition EndOfFile (c_feof : FILE -> bool) (st : CFileSystem) (file : nat)
  : option (Validated bool) :=
  match dereference st file with
  | NullHandle => Some warns_null_handle
  | Dangling => None
  | HandleObject pFile =>
      match m_pFile pFile with
      | None => Some warns_null_file_pointer
      | Some fp =>
          match streams st !! fp with
          | None => None
          | Some f =>
              if IsPackEntry pFile then
                let position := c_ftell f in
                Some (passes (to_u64 position
                              >=? to_u64 (GetStartOffset pFile + GetLength pFile)))
              else Some (passes (c_feof f))
          end
      end
  end.

(** The bytes [fgets] takes for a line: at most [n] of them, up to the
    first newline, which is taken too. *)
Fixpoint line_prefix (n : nat) (bytes : list Byte.byte) : list Byte.byte :=
  match n, bytes with
  | O, _ => []
  | S _, [] => []
  | S n', b :: rest =>
      if byte_value b =? 10 then [b] else b :: line_prefix n' rest
  end.

(** [fgets( buffer, n, f )]: the line read, without its terminator, or
    null, and the stream after it. At most [n - 1] bytes are read; with
    nothing to read the result is null, except that [n = 1] gives the
    empty line; [n <= 0] gives null. *)
Definition c_fgets (n : Z) (f : FILE) : option (list Byte.byte) * FILE :=
  if n <=? 0 then (None, f)
  else
    let line := line_prefix (Z.to_nat (n - 1)) (drop (Z.to_nat (f_pos f)) (f_data f)) in
    match line with
    | [] => if n =? 1 then (Some [], f) else (None, f)
    | _ :: _ => (Some line, mkFILE (f_data f) (f_pos f + Z.of_nat (length line)))
    end.

(** [ReadLine]: the file system after it and the line put into the
    buffer, [None] for the null pointer. *)
Definition ReadLine (st : CFileSystem) (maxChars : Z) (file : nat)
  : option (Validated (CFileSystem * option (list Byte.byte))) :=
  match dereference st file with
  | NullHandle => Some warns_null_handle
  | Dangling => None
  | HandleObject pFile =>
      match m_pFile pFile with
      | None => Some warns_null_file_pointer
      | Some fp =>
          match streams st !! fp with
          | None => None
          | Some f =>
              let fgets (maxChars : Z) :=
                let '(line, f1) := c_fgets maxChars f in
                Some (passes (set_streams st (<[fp := f1]> (streams st)), line)) in
              if IsPackEntry pFile then
                if GetLength pFile =? 0 then Some (passes (st, None))
                else
                  let position := c_ftell f in
                  let relativePos := to_u64 (position - GetStartOffset pFile) in
                  if relativePos >=? GetLength pFile then Some (passes (st, None))
                  else if to_u64 (relativePos + maxChars) >=? to_u64 (GetLength pFile + 1) then
                    fgets (to_int (to_u64 (to_u64 (GetLength pFile + 1) - relativePos)))
                  else fgets maxChars
              else fgets maxChars
          end
      end
  end.

(** [PrintOpenedFiles]: the names handed to [Warning] at the level that
    reports unclosed files, one for every handle of the table, and so what
    reaches the sink when that level is set. *)
Definition PrintOpenedFiles (st : CFileSystem) : list string :=
  if FILESYSTEM_WARNING_REPORTUNCLOSED <=? m_WarningLevel st then
    map (fun file =>
           match m_szFileName (snd file) with
           | EmptyString => "???"
           | name => name
           end) (m_OpenedFiles st)
  else [].

(* ===================================================================== *)
(** ** Properties of the tables *)
(* ===================================================================== *)

(** Whether the loop of [Open] tries a search path. *)
Definition Open_tries (pathID : option string) (bIsWrite : bool) (searchPath : CSearchPath)
  : bool :=
  negb (has_flag (flags searchPath) SearchPathFlag.READ_ONLY && bIsWrite)
  && negb (pathID_excludes pathID searchPath).

(** The name [Open] hands to [fopen] for a search path. *)
Definition Open_path (plat : Platform) (searchPath : CSearchPath) (pFileName : string) : string :=
  make_preferred plat (path_append plat (szPath searchPath) pFileName).

(** Whether the loop of [OpenFromCacheForRead] looks into a search path. *)
Definition cache_looks_into (pathID : option string) (searchPath : CSearchPath) : bool :=
  has_flag (flags searchPath) SearchPathFlag.IS_PACK_FILE
  && negb (pathID_excludes pathID searchPath).

(** The addresses the allocator has given out are below the next one it
    gives, no two handle objects share one, and none is null. *)
Definition addresses_fresh (st : CFileSystem) : Prop :=
  NoDup (m_OpenedFiles st).*1 /\
  (forall address, address ∈ (m_OpenedFiles st).*1 ->
     (0 < address < next_address st)%nat) /\
  (forall fp, is_Some (streams st !! fp) -> (fp < next_address st)%nat).

(** Whether a search path is one that [RemoveFile] and
    [CreateDirHierarchy] act on. *)
Definition writable_in_scope (pathID : option string) (searchPath : CSearchPath) : bool :=
  negb (has_flag (flags searchPath) SearchPathFlag.READ_ONLY)
  && negb (pathID_excludes pathID searchPath).

(** The normalized names of the records of a directory. *)
Definition record_names (plat : Platform) (packEntries : list PackEntry_t) : list string :=
  map (fun packEntry => make_preferred plat (szFileName packEntry)) packEntries.

(** Whether a cursor's scope leaves a search path out. *)
Definition out_of_scope (szPathID : string) (path : CSearchPath) : bool :=
  match szPathID with
  | EmptyString => false
  | _ =>
      match pszPathID path with
      | None => true
      | Some tag => negb (strcmp szPathID tag =? 0)
      end
  end.

(* ===================================================================== *)
(** ** Well-formed file systems *)
(* ===================================================================== *)

(** The streams that the plain handles of the table own: a plain handle
    closes its stream, a view does not. *)
Definition owned_stream (h : CFileHandle) : option nat :=
  if IsPackEntry h then None else m_pFile h.

Definition handle_streams (files : list (nat * CFileHandle)) : list nat :=
  omap (fun file => owned_stream (snd file)) files.

(** The streams of the packs of the registry. *)
Definition pack_streams (searchPaths : list CSearchPath) : list nat :=
  omap (fun searchPath => packFile searchPath ≫= m_pFile) searchPaths.

(** What the tables of a file system keep to: addresses are fresh; a
    handle object of the table is open; every stream has one owner, a
    plain handle or a pack, and is there as long as the owner is; a view
    reads a stream that no plain handle owns; and a search path flagged
    as a pack has a pack file. *)
Definition well_formed (st : CFileSystem) : Prop :=
  addresses_fresh st /\
  (forall file, file ∈ m_OpenedFiles st -> IsOpen (snd file) = true) /\
  NoDup (handle_streams (m_OpenedFiles st) ++ pack_streams (m_SearchPaths st)) /\
  (forall fp, fp ∈ handle_streams (m_OpenedFiles st) ++ pack_streams (m_SearchPaths st) ->
     is_Some (streams st !! fp)) /\
  (forall file fp, file ∈ m_OpenedFiles st -> m_pFile (snd file) = Some fp ->
     (fp < next_address st)%nat /\
     (IsPackEntry (snd file) = true -> fp ∉ handle_streams (m_OpenedFiles st))) /\
  (forall searchPath, searchPath ∈ m_SearchPaths st ->
     has_flag (flags searchPath) SearchPathFlag.IS_PACK_FILE = true ->
     is_Some (packFile searchPath ≫= m_pFile)).

(** [SetWarningLevel]. *)
Definition SetWarningLevel (st : CFileSystem) (level : Z) : CFileSystem :=
  mkCFileSystem (m_SearchPaths st) (m_OpenedFiles st) (m_FindFiles st) level
    (reported st) (streams st) (next_address st).

(** The file systems that calls of the interface lead to from a file
    system freshly constructed; a call whose behaviour is undefined leads
    nowhere. The calls that only ask, as [Size], [EndOfFile], [FileExists]
    and [GetLocalPath] do, change none of the tables and have no rule. *)
Inductive reachable (b : Build) (pk : PackFile_h) (os : HostOS) : CFileSystem -> Prop :=
  | reach_new (level : Z) :
      reachable b pk os (new_CFileSystem level)
  | reach_SetWarningLevel (st : CFileSystem) (level : Z) :
      reachable b pk os st -> reachable b pk os (SetWarningLevel st level)
  | reach_AddSearchPath (st : CFileSystem) (pPath pathID : option string) (bReadOnly : bool) :
      reachable b pk os st ->
      reachable b pk os (fst (AddSearchPath b st pPath pathID bReadOnly))
  | reach_RemoveSearchPath (st : CFileSystem) (pPath : option string) :
      reachable b pk os st -> reachable b pk os (fst (RemoveSearchPath st pPath))
  | reach_RemoveAllSearchPaths (st : CFileSystem) :
      reachable b pk os st -> reachable b pk os (RemoveAllSearchPaths st)
  | reach_AddPackFile (st : CFileSystem) (fullpath pathID : option string) :
      reachable b pk os st ->
      reachable b pk os (fst (AddPackFile b pk os st fullpath pathID))
  | reach_Open (st : CFileSystem) (pFileName pOptions pathID : option string) :
      reachable b pk os st ->
      reachable b pk os (fst (Open b os st pFileName pOptions pathID))
  | reach_OpenFromCacheForRead (st st' : CFileSystem) (pFileName pOptions pathID : option string)
      (file : nat) :
      reachable b pk os st ->
      OpenFromCacheForRead b st pFileName pOptions pathID = Some (st', file) ->
      reachable b pk os st'
  | reach_Close (st : CFileSystem) (file : nat) :
      reachable b pk os st -> reachable b pk os (Close st file)
  | reach_Seek (st st' : CFileSystem) (file : nat) (pos : Z) (seekType : FileSystemSeek_t) :
      reachable b pk os st ->
      Seek st file pos seekType = Some st' ->
      reachable b pk os st'
  | reach_Tell (st st' : CFileSystem) (file : nat) (position : Z) :
      reachable b pk os st ->
      Tell st file = Some (st', position) ->
      reachable b pk os st'
  | reach_Read (st st' : CFileSystem) (size : Z) (file : nat) (result : Z)
      (bytes : list Byte.byte) :
      reachable b pk os st ->
      Read st size file = Some (st', result, bytes) ->
      reachable b pk os st'
  | reach_ReadLine (st st' : CFileSystem) (maxChars : Z) (file : nat)
      (line : option (list Byte.byte)) :
      reachable b pk os st ->
      ReadLine st maxChars file = Some (passes (st', line)) ->
      reachable b pk os st'
  | reach_FindFirst (st st' : CFileSystem) (pWildCard : option string) (pHandle : bool)
      (pathID : option string) (rounds : nat) (handle : option Z) (name : option string) :
      reachable b pk os st ->
      FindFirst b os st pWildCard pHandle pathID rounds = Some (st', handle, name) ->
      reachable b pk os st'
  | reach_FindNext (st st' : CFileSystem) (handle : Z) (rounds : nat) (name : option string) :
      reachable b pk os st ->
      FindNext os st handle rounds = Some (st', name) ->
      reachable b pk os st'
  | reach_FindClose (st st' : CFileSystem) (handle : Z) :
      reachable b pk os st ->
      FindClose st handle = Some st' ->
      reachable b pk os st'.

(* ===================================================================== *)
(** ** The directory of a pack file *)
(* ===================================================================== *)

(** The layout [AddPackFile] reads a pack of a kind with. *)
Definition layout_of (pk : PackFile_h) (type : PackType) : PackLayout :=
  match type with
  | PACK_64BIT => Pack64_t pk
  | _ => Pack32_t pk
  end.

(** The kind of a pack file as [AddPackFile] finds it, from the bytes of
    the file. *)
Definition pack_kind (pk : PackFile_h) (bytes : list Byte.byte) : PackType :=
  let '(_, header, _) := c_fread (sizeof_pack_Header_t pk) 1 (mkFILE bytes 0) in
  IdentifyPackType pk header.

(** The records of the directory of a pack file as [ProcessPackFile]
    reads them, from the bytes of the file. *)
Definition directory_records (layout : PackLayout) (bytes : list Byte.byte)
  : list PackEntry_t :=
  let '(_, header, pFile1) := c_fread (sizeof_Header_t layout) 1 (mkFILE bytes 0) in
  let '(dirofs, dirlen) := header_dir layout header in
  let numFiles := dirlen / sizeof_Entry_t layout in
  let '(_, records, _) :=
    c_fread (sizeof_Entry_t layout) numFiles (c_fseek pFile1 dirofs SEEK_SET) in
  map (entry_of_bytes layout)
    (records_of_bytes (Z.to_nat (sizeof_Entry_t layout)) (Z.to_nat numFiles) records).

(* ===================================================================== *)
(** ** The scans of the registry *)
(* ===================================================================== *)

(** The test of [FindSearchPath] on one search path. *)
Definition FindSearchPath_fits (pszPath : string) (bCheckPathID : bool)
    (pathID : option string) (it : CSearchPath) : bool :=
  (stricmp pszPath (szPath it) =? 0)
  && (negb bCheckPathID || same_pathID pathID (pszPathID it)).

(** Where the scan of [FindNext] for a search path starts: at the
    current search path of the cursor, or at the first one. *)
Definition scan_start (data : FindFileData) : nat :=
  match currentPath data with
  | Some i => i
  | None => O
  end.

(** A cursor that has not reached the end of data serves the search path
    at a position: the scan of [FindNext] from where the cursor is ends at
    that search path, and what is left of the walk of the cursor are
    entries of its directory. *)
Definition cursor_serves (os : HostOS) (searchPaths : list CSearchPath)
    (data : FindFileData) (position : nat) (searchPath : CSearchPath) : Prop :=
  next_search_path (drop (scan_start data) searchPaths) (scan_start data) (szPathID data)
  = Some (position, searchPath) /\
  has_flag (data_flags data) FindFileFlag.END_OF_DATA = false /\
  forall entry, entry ∈ iterator data ->
    entry ∈ fs_recursive_directory_iterator os (szPath searchPath).

(** The scope of the cursor that [FindFirst] makes for a tag. *)
Definition cursor_scope (b : Build) (pathID : option string) : string :=
  match pathID with
  | Some id => strncpy_terminated (sizeof_szPathID b) id
  | None => EmptyString
  end.

(* ===================================================================== *)
(** ** More file systems to run the code on *)
(* ===================================================================== *)

(** The example file system with [a.txt] opened for reading, and with
    the entry of the pack opened from the cache. *)
Definition example_opened : CFileSystem :=
  fst (Open posix_build example_os example_mounted (Some "a.txt") (Some "rb") None).

Definition example_viewed : CFileSystem :=
  match OpenFromCacheForRead posix_build example_mounted (Some "sound/a.wav") (Some "rb") None
  with
  | Some (st, _) => st
  | None => example_mounted
  end.

(** The example file system with one find cursor as [FindFirst] makes
    it, for a filter. *)
Definition example_finding (flt : regex) : CFileSystem :=
  set_FindFiles example_mounted
    [mkFindFileData flt EmptyString None [] EmptyString FindFileFlag.VALID].

(* ===================================================================== *)
(** * Properties *)
(* ===================================================================== *)

(** ** Closing a handle *)

Lemma position_of_None (files : list (nat * CFileHandle)) (pFile : nat) :
  pFile ∉ files.*1 -> position_of files pFile = None.
Proof.
  induction files as [|[address h] rest IH]; intros Hnot; simpl; [reflexivity|].
  simpl in Hnot. apply not_elem_of_cons in Hnot as [Hne Hrest].
  destruct (Nat.eqb_spec address pFile) as [->|_]; [congruence|].
  rewrite (IH Hrest). reflexivity.
Qed.

Lemma position_of_Some (files : list (nat * CFileHandle)) (pFile position : nat) :
  position_of files pFile = Some position ->
  exists h, files !! position = Some (pFile, h) /\ pFile ∉ (take position files).*1.
Proof.
  revert position. induction files as [|[address h] rest IH]; intros position; simpl; [discriminate|].
  destruct (Nat.eqb_spec address pFile) as [->|Hne].
  - intros [= <-]. exists h. split; [reflexivity|]. simpl. apply not_elem_of_nil.
  - destruct (position_of rest pFile) as [p|] eqn:Hp; simpl; [|discriminate].
    intros [= <-]. destruct (IH p eq_refl) as (h' & Hlook & Hbefore).
    exists h'. split; [exact Hlook|]. simpl. apply not_elem_of_cons. split; [congruence|exact Hbefore].
Qed.

(** C10: [Close] on a handle that is not null and not in the table of
    open handles gives back the file system as it was: the table, the
    streams and what was reported are the same. *)
Theorem Close_unknown_handle (st : CFileSystem) (file : nat) :
  file <> FILESYSTEM_INVALID_HANDLE ->
  file ∉ (m_OpenedFiles st).*1 ->
  Close st file = st.
Proof.
  intros Hnull Hnot. unfold Close.
  destruct (Nat.eqb_spec file FILESYSTEM_INVALID_HANDLE) as [Heq|_]; [contradiction|].
  rewrite (position_of_None _ _ Hnot). reflexivity.
Qed.

Lemma Close_unknown_handle_witness :
  Close example_mounted 7 = example_mounted.
Proof.
  apply (Close_unknown_handle example_mounted 7).
  - unfold FILESYSTEM_INVALID_HANDLE. lia.
  - vm_compute. apply not_elem_of_nil.
Defined.

Lemma Warning_OpenedFiles (st : CFileSystem) (level : Z) (msg : WarningMessage) :
  m_OpenedFiles (Warning st level msg) = m_OpenedFiles st.
Proof. unfold Warning. destruct (level <=? m_WarningLevel st); reflexivity. Qed.

Lemma CFileHandle_Close_OpenedFiles (st : CFileSystem) (h : CFileHandle) :
  m_OpenedFiles (CFileHandle_Close st h) = m_OpenedFiles st.
Proof.
  unfold CFileHandle_Close. destruct (m_pFile h); [|reflexivity].
  destruct (IsPackEntry h); reflexivity.
Qed.

(** A handle that [Close] has found and erased is unknown afterwards,
    when no two handle objects share an address, so that a second [Close]
    of it changes nothing. *)
Lemma Close_erases_handle (st : CFileSystem) (file : nat) :
  file <> FILESYSTEM_INVALID_HANDLE ->
  NoDup (m_OpenedFiles st).*1 ->
  file ∈ (m_OpenedFiles st).*1 ->
  file ∉ (m_OpenedFiles (Close st file)).*1.
Proof.
  intros Hnull Hnodup Hin. unfold Close.
  destruct (Nat.eqb_spec file FILESYSTEM_INVALID_HANDLE) as [Heq|_]; [contradiction|].
  destruct (position_of (m_OpenedFiles st) file) as [position|] eqn:Hpos.
  - destruct (position_of_Some _ _ _ Hpos) as (h & Hlook & _).
    rewrite Hlook. simpl.
    assert (Htable : forall st1, m_OpenedFiles st1 = m_OpenedFiles st ->
              file ∉ (delete position (m_OpenedFiles st1)).*1).
    { intros st1 ->. intros Habs.
      apply list_elem_of_lookup in Habs as [j Hj].
      rewrite list_lookup_fmap in Hj.
      assert (Hi : (m_OpenedFiles st).*1 !! position = Some file)
        by (rewrite list_lookup_fmap, Hlook; reflexivity).
      destruct (decide (j < position)%nat) as [Hlt|Hge].
      + rewrite list_lookup_delete_lt in Hj by exact Hlt.
        rewrite <- list_lookup_fmap in Hj.
        pose proof (NoDup_lookup _ _ _ _ Hnodup Hi Hj). lia.
      + rewrite list_lookup_delete_ge in Hj by lia.
        rewrite <- list_lookup_fmap in Hj.
        pose proof (NoDup_lookup _ _ _ _ Hnodup Hi Hj). lia. }
    destruct (IsOpen h).
    + apply Htable. rewrite CFileHandle_Close_OpenedFiles. apply Warning_OpenedFiles.
    + apply Htable. apply Warning_OpenedFiles.
  - exfalso. clear Hnodup. revert Hpos Hin.
    induction (m_OpenedFiles st) as [|[address h] rest IH]; simpl.
    + intros _ Hin. apply elem_of_nil in Hin. exact Hin.
    + destruct (Nat.eqb_spec address file) as [->|Hne]; [discriminate|].
      intros Hpos Hin. apply elem_of_cons in Hin as [Heq|Hin]; [congruence|].
      destruct (position_of rest file); [discriminate|]. apply IH; [reflexivity|exact Hin].
Qed.

(** ** Adding a directory *)

(** C3 (counterexample): the empty path is not refused. On a registry
    without search paths [AddSearchPath] of the empty string returns true
    and the registry has one search path afterwards. *)
Lemma AddSearchPath_accepts_empty_path :
  snd (AddSearchPath posix_build (new_CFileSystem 0) (Some EmptyString) None false) = true /\
  length (m_SearchPaths (new_CFileSystem 0)) = 0%nat /\
  length (m_SearchPaths
            (fst (AddSearchPath posix_build (new_CFileSystem 0) (Some EmptyString) None false)))
  = 1%nat.
Proof. repeat split. Qed.

(** C3 (as amended): [AddSearchPath] with a null path returns false, and
    whenever it returns false the file system, and so the number of
    search paths, is what it was; when it returns true the registry has
    one search path more. The empty string is a path like any other: it
    is added unless a search path of that location and tag is there. *)
Theorem AddSearchPath_failure_leaves_registry (b : Build) (st : CFileSystem)
    (pPath pathID : option string) (bReadOnly : bool) :
  (pPath = None -> AddSearchPath b st pPath pathID bReadOnly = (st, false)) /\
  (snd (AddSearchPath b st pPath pathID bReadOnly) = false ->
   fst (AddSearchPath b st pPath pathID bReadOnly) = st) /\
  (snd (AddSearchPath b st pPath pathID bReadOnly) = true ->
   length (m_SearchPaths (fst (AddSearchPath b st pPath pathID bReadOnly)))
   = S (length (m_SearchPaths st))) /\
  (pPath = Some EmptyString ->
   FindSearchPath (m_SearchPaths st) EmptyString true pathID = None ->
   snd (AddSearchPath b st pPath pathID bReadOnly) = true).
Proof.
  unfold AddSearchPath. repeat split.
  - intros ->. reflexivity.
  - destruct pPath as [path|]; [|reflexivity].
    destruct (strstr path ".bsp"); [reflexivity|].
    destruct (FindSearchPath (m_SearchPaths st) path true pathID); [reflexivity|].
    simpl. discriminate.
  - destruct pPath as [path|]; [|discriminate].
    destruct (strstr path ".bsp"); [discriminate|].
    destruct (FindSearchPath (m_SearchPaths st) path true pathID); [discriminate|].
    simpl. intros _. rewrite length_app. simpl. lia.
  - intros -> Hfree. simpl. rewrite Hfree. reflexivity.
Qed.

Lemma AddSearchPath_failure_leaves_registry_witness :
  AddSearchPath posix_build example_mounted None (Some "GAME") false = (example_mounted, false).
Proof.
  apply (AddSearchPath_failure_leaves_registry posix_build example_mounted None
           (Some "GAME") false).
  reflexivity.
Defined.

(** ** The directory of a pack *)

Lemma emplace_lookup (key name : string) (value : CPackFileEntry)
    (entries : gmap string CPackFileEntry) :
  emplace key value entries !! name =
  match entries !! name with
  | Some e => Some e
  | None => if String.eqb key name then Some value else None
  end.
Proof.
  unfold emplace. destruct (entries !! key) as [e|] eqn:Hkey.
  - destruct (entries !! name) as [e'|] eqn:Hname; [reflexivity|].
    destruct (String.eqb_spec key name) as [->|_]; [congruence|reflexivity].
  - destruct (String.eqb_spec key name) as [->|Hne].
    + rewrite lookup_insert_eq, Hkey. reflexivity.
    + rewrite lookup_insert_ne by exact Hne.
      destruct (entries !! name); reflexivity.
Qed.

(** What the loop over the records leaves under a name: what was there
    before, and else the first record of that name. *)
Lemma emplace_pack_entries_lookup (plat : Platform) (packEntries : list PackEntry_t)
    (entries : gmap string CPackFileEntry) (name : string) :
  emplace_pack_entries plat packEntries entries !! name =
  match entries !! name with
  | Some e => Some e
  | None => first_record plat name packEntries
  end.
Proof.
  revert entries. induction packEntries as [|packEntry rest IH]; intros entries; simpl.
  - destruct (entries !! name); reflexivity.
  - rewrite IH, emplace_lookup. simpl.
    destruct (entries !! name); [reflexivity|].
    destruct (make_preferred plat (szFileName packEntry) =? name)%string; reflexivity.
Qed.

(** C4 (counterexample): of two records with the name [sound/a.wav], the
    entries hold the offset and the length of the first one, not of the
    last one. *)
Lemma duplicate_name_keeps_first_record :
  emplace_pack_entries Posix
    [mkPackEntry_t "sound/a.wav" 128 64; mkPackEntry_t "sound/a.wav" 512 32] ∅
    !! "sound/a.wav" = Some (mkCPackFileEntry "sound/a.wav" 128 64) /\
  emplace_pack_entries Posix
    [mkPackEntry_t "sound/a.wav" 128 64; mkPackEntry_t "sound/a.wav" 512 32] ∅
    !! "sound/a.wav" <> Some (mkCPackFileEntry "sound/a.wav" 512 32).
Proof.
  rewrite emplace_pack_entries_lookup, lookup_empty. simpl.
  split; [reflexivity|discriminate].
Qed.

(** C4 (as amended): when the directory of a pack has several records of
    one normalized name, the entries built from it hold, under that name,
    the offset and the length of the first of them in the order of the
    records; a later record of the same name is dropped. *)
Theorem pack_directory_first_record_wins (plat : Platform)
    (packEntries : list PackEntry_t) (name : string) :
  emplace_pack_entries plat packEntries ∅ !! name = first_record plat name packEntries.
Proof. rewrite emplace_pack_entries_lookup, lookup_empty. reflexivity. Qed.

(** The same for the entries [ProcessPackFile] returns, in terms of the
    records it has read. *)
Lemma ProcessPackFile_first_record_wins (plat : Platform) (layout : PackLayout)
    (st st' : CFileSystem) (pszFileName : string) (pFile pFile' : FILE)
    (entries : gmap string CPackFileEntry) :
  ProcessPackFile plat layout st pszFileName pFile ∅ = (st', pFile', Some entries) ->
  exists packEntries : list PackEntry_t,
    forall name, entries !! name = first_record plat name packEntries.
Proof.
  unfold ProcessPackFile.
  destruct (c_fread (sizeof_Header_t layout) 1 pFile) as [[got header] pFile1].
  destruct (negb (got =? 1)); [discriminate|].
  destruct (header_dir layout header) as [dirofs dirlen].
  destruct (negb (dirlen mod sizeof_Entry_t layout =? 0)); [discriminate|].
  destruct (dirlen / sizeof_Entry_t layout >? MAX_FILES layout); [discriminate|].
  destruct (c_fread (sizeof_Entry_t layout) (dirlen / sizeof_Entry_t layout)
              (c_fseek pFile1 dirofs SEEK_SET)) as [[read bytes] pFile3].
  destruct (negb (read =? dirlen / sizeof_Entry_t layout)); [discriminate|].
  intros [= _ _ <-]. eexists. intros name.
  rewrite emplace_pack_entries_lookup, lookup_empty. reflexivity.
Qed.

(** ** Closing a find cursor *)

Lemma set_FindFiles_same (st : CFileSystem) : set_FindFiles st (m_FindFiles st) = st.
Proof. destruct st; reflexivity. Qed.

Lemma cleared_flag_is_clear (f bit : Z) : has_flag (clear_flag f bit) bit = false.
Proof.
  unfold has_flag, clear_flag.
  rewrite <- Z.land_assoc, (Z.land_comm (Z.lnot bit) bit), Z.land_lnot_diag, Z.land_0_r.
  reflexivity.
Qed.

(** The loop of [FindClose] is only run for a valid cursor, and then it
    stops in its first round. *)
Lemma FindClose_reclaim_valid (data : FindFileData) (files : list FindFileData) :
  has_flag (data_flags data) FindFileFlag.VALID = true ->
  FindClose_reclaim data files = Some files.
Proof.
  intros Hvalid. unfold FindClose_reclaim. destruct files; [reflexivity|].
  rewrite Hvalid. reflexivity.
Qed.

(** [FindClose] is defined on every table: the [erase] of its loop is
    never reached. *)
Lemma FindClose_defined (st : CFileSystem) (handle : Z) :
  is_Some (FindClose st handle).
Proof.
  unfold FindClose.
  destruct (to_size_t handle >=? _); [eauto|].
  destruct (m_FindFiles st !! _) as [data|]; [|eauto].
  destruct (has_flag (data_flags data) FindFileFlag.VALID) eqn:Hvalid; simpl; [|eauto].
  destruct (to_size_t handle =? _); [|eauto].
  rewrite (FindClose_reclaim_valid _ _ Hvalid). eauto.
Qed.

(** Closing the last cursor of the table changes nothing at all. *)
Lemma FindClose_last (st : CFileSystem) (handle : Z) :
  to_size_t handle = to_size_t (Z.of_nat (length (m_FindFiles st)) - 1) ->
  FindClose st handle = Some st.
Proof.
  intros Hlast. unfold FindClose.
  destruct (to_size_t handle >=? _); [reflexivity|].
  destruct (m_FindFiles st !! _) as [data|]; [|reflexivity].
  destruct (has_flag (data_flags data) FindFileFlag.VALID) eqn:Hvalid; simpl; [|reflexivity].
  rewrite Hlast, Z.eqb_refl.
  rewrite (FindClose_reclaim_valid _ _ Hvalid), set_FindFiles_same. reflexivity.
Qed.

(** Closing a valid cursor that is not the last one clears its [VALID]
    flag and leaves every cursor in its slot. *)
Lemma FindClose_not_last (st : CFileSystem) (handle : Z) (data : FindFileData) :
  m_FindFiles st !! Z.to_nat (to_size_t handle) = Some data ->
  has_flag (data_flags data) FindFileFlag.VALID = true ->
  to_size_t handle <> to_size_t (Z.of_nat (length (m_FindFiles st)) - 1) ->
  exists st', FindClose st handle = Some st' /\
    length (m_FindFiles st') = length (m_FindFiles st) /\
    m_FindFiles st' !! Z.to_nat (to_size_t handle)
    = Some (set_data_flags data (clear_flag (data_flags data) FindFileFlag.VALID)) /\
    forall other, other <> Z.to_nat (to_size_t handle) ->
      m_FindFiles st' !! other = m_FindFiles st !! other.
Proof.
  intros Hdata Hvalid Hnot. unfold FindClose.
  pose proof (lookup_lt_Some _ _ _ Hdata) as Hlt.
  assert (Hrange : 0 <= to_size_t handle)
    by (unfold to_size_t, wrap_unsigned; apply Z.mod_pos_bound; lia).
  destruct (Z.geb_spec (to_size_t handle) (Z.of_nat (length (m_FindFiles st)))) as [Hge|_];
    [lia|].
  rewrite Hdata, Hvalid. simpl.
  destruct (Z.eqb_spec (to_size_t handle)
              (to_size_t (Z.of_nat (length (m_FindFiles st)) - 1))) as [Heq|_];
    [contradiction|].
  eexists. split; [reflexivity|]. simpl. repeat split.
  - apply length_insert.
  - apply list_lookup_insert_eq. exact Hlt.
  - intros other Hother. apply list_lookup_insert_ne. congruence.
Qed.

(** A second [FindClose] of the same cursor changes nothing. *)
Lemma FindClose_twice (st st' : CFileSystem) (handle : Z) :
  FindClose st handle = Some st' -> FindClose st' handle = Some st'.
Proof.
  unfold FindClose at 1.
  destruct (to_size_t handle >=? Z.of_nat (length (m_FindFiles st))) eqn:Hge.
  { intros [= <-]. unfold FindClose. rewrite Hge. reflexivity. }
  destruct (m_FindFiles st !! Z.to_nat (to_size_t handle)) as [data|] eqn:Hdata.
  2:{ intros [= <-]. unfold FindClose. rewrite Hge, Hdata. reflexivity. }
  destruct (has_flag (data_flags data) FindFileFlag.VALID) eqn:Hvalid; simpl.
  2:{ intros [= <-]. unfold FindClose. rewrite Hge, Hdata, Hvalid. reflexivity. }
  destruct (to_size_t handle =? to_size_t (Z.of_nat (length (m_FindFiles st)) - 1)) eqn:Hlast.
  - rewrite (FindClose_reclaim_valid _ _ Hvalid), set_FindFiles_same.
    intros [= <-]. apply FindClose_last. apply Z.eqb_eq. exact Hlast.
  - intros [= <-]. unfold FindClose. simpl.
    rewrite length_insert, Hge.
    rewrite list_lookup_insert_eq by (eapply lookup_lt_Some; exact Hdata).
    simpl. rewrite cleared_flag_is_clear. reflexivity.
Qed.

(** C5: the code at a table of two valid cursors. Closing cursor 0, which
    is not the last one, clears its [VALID] flag and removes nothing.
    Closing cursor 1, the last one, then leaves the table as it is: the
    cursor is still there and still valid, and the invalid cursor before
    it is not reclaimed. *)
Theorem FindClose_last_cursor_is_kept :
  FindClose example_cursors 0
  = Some (set_FindFiles example_cursors
            [set_data_flags example_cursor FindFileFlag.NONE; example_cursor]) /\
  FindClose (set_FindFiles example_cursors
               [set_data_flags example_cursor FindFileFlag.NONE; example_cursor]) 1
  = Some (set_FindFiles example_cursors
            [set_data_flags example_cursor FindFileFlag.NONE; example_cursor]).
Proof. split; reflexivity. Qed.

(** ** Opening for writing *)

Lemma Warning_SearchPaths (st : CFileSystem) (level : Z) (msg : WarningMessage) :
  m_SearchPaths (Warning st level msg) = m_SearchPaths st.
Proof. unfold Warning. destruct (level <=? m_WarningLevel st); reflexivity. Qed.

(** What a write [Open] does with the search paths it scans: it finds
    nothing and leaves the file system alone, or it registers one plain
    handle whose file lies under a search path that is not read-only and
    that the scope does not exclude. *)
Lemma Open_scan_for_write (plat : Platform) (os : HostOS) (st st' : CFileSystem)
    (searchPaths : list CSearchPath) (pFileName pOptions : string)
    (pathID : option string) (h : nat) :
  Open_scan plat os st searchPaths pFileName pOptions pathID true = (st', h) ->
  (st' = st /\ h = FILESYSTEM_INVALID_HANDLE) \/
  exists (searchPath : CSearchPath) (fp : nat) (len : Z),
    searchPath ∈ searchPaths /\
    has_flag (flags searchPath) SearchPathFlag.READ_ONLY = false /\
    pathID_excludes pathID searchPath = false /\
    m_SearchPaths st' = m_SearchPaths st /\
    m_OpenedFiles st' =
      (m_OpenedFiles st ++
      [(h, mkCFileHandle (make_preferred plat (path_append plat (szPath searchPath) pFileName))
             (Some fp) false 0 len)])%list.
Proof.
  induction searchPaths as [|searchPath rest IH]; simpl.
  - intros [= <- <-]. left. split; reflexivity.
  - assert (Hrest :
      Open_scan plat os st rest pFileName pOptions pathID true = (st', h) ->
      (st' = st /\ h = FILESYSTEM_INVALID_HANDLE) \/
      exists (searchPath0 : CSearchPath) (fp : nat) (len : Z),
        searchPath0 ∈ searchPath :: rest /\
        has_flag (flags searchPath0) SearchPathFlag.READ_ONLY = false /\
        pathID_excludes pathID searchPath0 = false /\
        m_SearchPaths st' = m_SearchPaths st /\
        m_OpenedFiles st' =
          (m_OpenedFiles st ++
          [(h, mkCFileHandle
                 (make_preferred plat (path_append plat (szPath searchPath0) pFileName))
                 (Some fp) false 0 len)])%list).
    { intros Hscan. destruct (IH Hscan) as [Hnone|(sp & fp & len & Hin & Hrest)];
        [left; exact Hnone|].
      right. exists sp, fp, len. split; [apply elem_of_cons; right; exact Hin|exact Hrest]. }
    destruct (has_flag (flags searchPath) SearchPathFlag.READ_ONLY) eqn:Hro; simpl;
      [exact Hrest|].
    destruct (pathID_excludes pathID searchPath) eqn:Hscope; [exact Hrest|].
    destruct (c_fopen os _ pOptions) as [bytes|]; [|exact Hrest].
    unfold register_handle, new_stream. simpl. intros [= <- <-].
    right. eexists searchPath, _, _. split; [apply elem_of_cons; left; reflexivity|].
    repeat split; assumption.
Qed.

(** The mount operations keep every pack read-only. *)
Lemma AddSearchPath_packs_are_read_only (b : Build) (st : CFileSystem)
    (pPath pathID : option string) (bReadOnly : bool) :
  packs_are_read_only (m_SearchPaths st) ->
  packs_are_read_only (m_SearchPaths (fst (AddSearchPath b st pPath pathID bReadOnly))).
Proof.
  intros Hpacks. unfold AddSearchPath.
  destruct pPath as [path|]; [|exact Hpacks].
  destruct (strstr path ".bsp"); [exact Hpacks|].
  destruct (FindSearchPath (m_SearchPaths st) path true pathID); [exact Hpacks|].
  simpl. apply Forall_app. split; [exact Hpacks|].
  apply Forall_cons. split; [|constructor].
  simpl. destruct bReadOnly; intros H; vm_compute in H; discriminate.
Qed.

Lemma ProcessPackFile_SearchPaths (plat : Platform) (layout : PackLayout)
    (st st' : CFileSystem) (pszFileName : string) (pFile pFile' : FILE)
    (entries : gmap string CPackFileEntry) (result : option (gmap string CPackFileEntry)) :
  ProcessPackFile plat layout st pszFileName pFile entries = (st', pFile', result) ->
  m_SearchPaths st' = m_SearchPaths st.
Proof.
  unfold ProcessPackFile.
  destruct (c_fread (sizeof_Header_t layout) 1 pFile) as [[got header] pFile1].
  destruct (negb (got =? 1)); [intros [= <- _ _]; apply Warning_SearchPaths|].
  destruct (header_dir layout header) as [dirofs dirlen].
  destruct (negb (dirlen mod sizeof_Entry_t layout =? 0));
    [intros [= <- _ _]; apply Warning_SearchPaths|].
  destruct (dirlen / sizeof_Entry_t layout >? MAX_FILES layout);
    [intros [= <- _ _]; apply Warning_SearchPaths|].
  destruct (c_fread (sizeof_Entry_t layout) (dirlen / sizeof_Entry_t layout)
              (c_fseek pFile1 dirofs SEEK_SET)) as [[read bytes] pFile3].
  destruct (negb (read =? dirlen / sizeof_Entry_t layout));
    [intros [= <- _ _]; apply Warning_SearchPaths|].
  intros [= <- _ _]. reflexivity.
Qed.

(** What a successful [AddPackFile] does to the registry: one search
    path is appended, whatever the registry holds, with the location made
    of the name, the tag given, and both flags set. *)
Lemma AddPackFile_appends (b : Build) (pk : PackFile_h) (os : HostOS) (st st' : CFileSystem)
    (fullpath pathID : option string) :
  AddPackFile b pk os st fullpath pathID = (st', true) ->
  exists name path,
    fullpath = Some name /\
    m_SearchPaths st' = m_SearchPaths st ++ [path] /\
    szPath path = strncpy_terminated (sizeof_szPath b) (make_preferred (platform b) name) /\
    pszPathID path = pathID /\
    flags path = Z.lor SearchPathFlag.READ_ONLY SearchPathFlag.IS_PACK_FILE.
Proof.
  unfold AddPackFile. destruct fullpath as [name|]; [|discriminate].
  destruct (c_fopen os name "rb") as [bytes|]; [|discriminate].
  destruct (c_fread (sizeof_pack_Header_t pk) 1 (mkFILE bytes 0)) as [[got header] file1].
  destruct (negb (got =? 1)); [discriminate|].
  destruct (IdentifyPackType pk header); [discriminate| |].
  all: destruct (ProcessPackFile _ _ st name (c_rewind file1) ∅)
         as [[st1 file2] [entries|]] eqn:Hprocess; [|discriminate].
  all: apply ProcessPackFile_SearchPaths in Hprocess.
  all: intros [= <-]; eexists name, _; split; [reflexivity|].
  all: simpl; rewrite Hprocess; repeat split.
Qed.

Lemma AddPackFile_SearchPaths_on_failure (b : Build) (pk : PackFile_h) (os : HostOS)
    (st st' : CFileSystem) (fullpath pathID : option string) :
  AddPackFile b pk os st fullpath pathID = (st', false) ->
  m_SearchPaths st' = m_SearchPaths st.
Proof.
  unfold AddPackFile. destruct fullpath as [name|]; [|intros [= <-]; reflexivity].
  destruct (c_fopen os name "rb") as [bytes|]; [|intros [= <-]; reflexivity].
  destruct (c_fread (sizeof_pack_Header_t pk) 1 (mkFILE bytes 0)) as [[got header] file1].
  destruct (negb (got =? 1)); [intros [= <-]; apply Warning_SearchPaths|].
  destruct (IdentifyPackType pk header); [intros [= <-]; apply Warning_SearchPaths| |].
  all: destruct (ProcessPackFile _ _ st name (c_rewind file1) ∅)
         as [[st1 file2] [entries|]] eqn:Hprocess; [discriminate|].
  all: apply ProcessPackFile_SearchPaths in Hprocess.
  all: intros [= <-]; exact Hprocess.
Qed.

Lemma AddPackFile_packs_are_read_only (b : Build) (pk : PackFile_h) (os : HostOS)
    (st : CFileSystem) (fullpath pathID : option string) :
  packs_are_read_only (m_SearchPaths st) ->
  packs_are_read_only (m_SearchPaths (fst (AddPackFile b pk os st fullpath pathID))).
Proof.
  intros Hpacks.
  destruct (AddPackFile b pk os st fullpath pathID) as [st' [|]] eqn:Hadd; simpl.
  - destruct (AddPackFile_appends _ _ _ _ _ _ _ Hadd) as (name & path & _ & -> & _ & _ & Hflags).
    apply Forall_app. split; [exact Hpacks|].
    apply Forall_cons. split; [|constructor].
    intros _. rewrite Hflags. reflexivity.
  - rewrite (AddPackFile_SearchPaths_on_failure _ _ _ _ _ _ _ Hadd). exact Hpacks.
Qed.

Lemma destroy_search_path_SearchPaths (st : CFileSystem) (sp : CSearchPath) :
  m_SearchPaths (destroy_search_path st sp) = m_SearchPaths st.
Proof.
  unfold destroy_search_path. destruct (packFile sp) as [h|]; [|reflexivity].
  destruct (m_pFile h); reflexivity.
Qed.

Lemma RemoveSearchPath_packs_are_read_only (st : CFileSystem) (pPath : option string) :
  packs_are_read_only (m_SearchPaths st) ->
  packs_are_read_only (m_SearchPaths (fst (RemoveSearchPath st pPath))).
Proof.
  intros Hpacks. unfold RemoveSearchPath.
  destruct pPath as [path|]; [|exact Hpacks].
  destruct (FindSearchPath (m_SearchPaths st) path false None) as [i|]; [|exact Hpacks].
  simpl. unfold packs_are_read_only in *.
  rewrite Forall_forall in *. intros sp Hin. apply Hpacks.
  rewrite delete_take_drop in Hin. apply elem_of_app in Hin as [Hin|Hin].
  - exact (subseteq_take _ _ _ Hin).
  - exact (subseteq_drop _ _ _ Hin).
Qed.

Lemma RemoveAllSearchPaths_packs_are_read_only (st : CFileSystem) :
  packs_are_read_only (m_SearchPaths (RemoveAllSearchPaths st)).
Proof. constructor. Qed.

Lemma example_mounted_packs_are_read_only :
  packs_are_read_only (m_SearchPaths example_mounted).
Proof.
  unfold example_mounted.
  apply AddPackFile_packs_are_read_only, AddSearchPath_packs_are_read_only.
  constructor.
Qed.

(** C8: with the write option, [Open] never takes a search path flagged
    read-only, nor one backed by a pack file, which is read-only whenever
    the registry was built by the mount operations: it returns the
    invalid handle with the file system unchanged, or a plain handle on a
    file under a search path without either flag. [OpenFromCacheForRead]
    refuses the write option with the invalid handle after a warning. *)
Theorem write_open_avoids_read_only_paths (b : Build) (os : HostOS) (st : CFileSystem)
    (pFileName pOptions : string) (pathID : option string) :
  strchr pOptions "w"%char = true ->
  packs_are_read_only (m_SearchPaths st) ->
  (forall st' h,
     Open b os st (Some pFileName) (Some pOptions) pathID = (st', h) ->
     (st' = st /\ h = FILESYSTEM_INVALID_HANDLE) \/
     exists (searchPath : CSearchPath) (fp : nat) (len : Z),
       searchPath ∈ m_SearchPaths st /\
       has_flag (flags searchPath) SearchPathFlag.READ_ONLY = false /\
       has_flag (flags searchPath) SearchPathFlag.IS_PACK_FILE = false /\
       pathID_excludes pathID searchPath = false /\
       m_OpenedFiles st' =
         (m_OpenedFiles st ++
         [(h, mkCFileHandle
                (make_preferred (platform b)
                   (path_append (platform b) (szPath searchPath) pFileName))
                (Some fp) false 0 len)])%list) /\
  OpenFromCacheForRead b st (Some pFileName) (Some pOptions) pathID
  = Some (Warning st FILESYSTEM_WARNING_CRITICAL (OpenFromCacheForRead_write_option pFileName),
          FILESYSTEM_INVALID_HANDLE).
Proof.
  intros Hwrite Hpacks. split.
  - intros st' h. unfold Open. rewrite Hwrite. intros Hscan.
    destruct (Open_scan_for_write _ _ _ _ _ _ _ _ _ Hscan)
      as [Hnone|(sp & fp & len & Hin & Hro & Hscope & _ & Hfiles)]; [left; exact Hnone|].
    right. exists sp, fp, len. repeat split; try assumption.
    unfold packs_are_read_only in Hpacks. rewrite Forall_forall in Hpacks.
    specialize (Hpacks sp Hin).
    destruct (has_flag (flags sp) SearchPathFlag.IS_PACK_FILE); [|reflexivity].
    rewrite Hpacks in Hro by reflexivity. discriminate.
  - unfold OpenFromCacheForRead. rewrite Hwrite. reflexivity.
Qed.

(** On the example: [sound/a.wav] asked for with the options [wb]. *)
Lemma write_open_avoids_read_only_paths_witness :
  strchr "wb" "w"%char = true /\
  packs_are_read_only (m_SearchPaths example_mounted) /\
  OpenFromCacheForRead posix_build example_mounted (Some "sound/a.wav") (Some "wb") None
  = Some (Warning example_mounted FILESYSTEM_WARNING_CRITICAL
            (OpenFromCacheForRead_write_option "sound/a.wav"),
          FILESYSTEM_INVALID_HANDLE) /\
  (snd (Open posix_build example_os example_mounted (Some "sound/a.wav") (Some "wb") None)
   = FILESYSTEM_INVALID_HANDLE \/
   exists (searchPath : CSearchPath),
     searchPath ∈ m_SearchPaths example_mounted /\
     has_flag (flags searchPath) SearchPathFlag.READ_ONLY = false /\
     has_flag (flags searchPath) SearchPathFlag.IS_PACK_FILE = false).
Proof.
  split; [reflexivity|].
  split; [exact example_mounted_packs_are_read_only|].
  destruct (write_open_avoids_read_only_paths posix_build example_os example_mounted
              "sound/a.wav" "wb" None eq_refl example_mounted_packs_are_read_only)
    as [Hopen Hcache].
  split; [exact Hcache|].
  destruct (Open posix_build example_os example_mounted (Some "sound/a.wav") (Some "wb") None)
    as [st' h] eqn:Hresult.
  destruct (Hopen st' h eq_refl) as [[_ Hnone]|(sp & fp & len & Hin & Hro & Hpack & _)].
  - left. exact Hnone.
  - right. exists sp. repeat split; assumption.
Defined.

(** ** Seeking and telling through a window *)

Ltac unfold_wraps :=
  unfold to_int, to_uint, to_u64, to_size_t, wrap_signed, wrap_unsigned, INT_MIN, INT_MAX in *;
  change (2 ^ 32) with 4294967296 in *;
  change (2 ^ (32 - 1)) with 2147483648 in *;
  change (2 ^ 31) with 2147483648 in *;
  change (2 ^ 64) with 18446744073709551616 in *.

Lemma to_int_in_range (z : Z) : INT_MIN <= z <= INT_MAX -> to_int z = z.
Proof.
  intros Hrange. unfold_wraps.
  destruct (Z.ltb_spec (z mod 4294967296) 2147483648); Z.div_mod_to_equations; lia.
Qed.

Lemma to_int_congruent (x y : Z) :
  x mod 4294967296 = y mod 4294967296 -> to_int x = to_int y.
Proof. intros Heq. unfold_wraps. rewrite Heq. reflexivity. Qed.

Lemma to_int_mod (x : Z) : to_int x mod 4294967296 = x mod 4294967296.
Proof.
  unfold_wraps.
  destruct (Z.ltb_spec (x mod 4294967296) 2147483648); Z.div_mod_to_equations; lia.
Qed.

Lemma to_u64_mod (x : Z) : to_u64 x mod 4294967296 = x mod 4294967296.
Proof. unfold_wraps. Z.div_mod_to_equations; lia. Qed.

Lemma seek_head_sum (start pos : Z) :
  INT_MIN <= start + pos <= INT_MAX -> to_int (pos + to_int start) = start + pos.
Proof.
  intros Hrange. rewrite <- (to_int_in_range (start + pos)) by exact Hrange.
  apply to_int_congruent.
  rewrite Z.add_mod, to_int_mod, <- Z.add_mod by lia. f_equal. lia.
Qed.

Lemma seek_tail_sum (start len pos : Z) :
  INT_MIN <= start + len + pos <= INT_MAX ->
  to_int (pos + to_int (to_u64 (start + len))) = start + len + pos.
Proof.
  intros Hrange. rewrite <- (to_int_in_range (start + len + pos)) by exact Hrange.
  apply to_int_congruent.
  rewrite Z.add_mod, to_int_mod, to_u64_mod, <- Z.add_mod by lia. f_equal. lia.
Qed.

(** C9 (counterexample): a pack entry whose window starts at 2^31, the
    stream being at position 5. [Seek] to 0 from the start hands [fseek]
    the position [INT_MIN], not 2^31: the stream stays where it is, and
    [Tell] right after it returns 2147483653, not 0. *)
Lemma Seek_from_start_beyond_int :
  Seek_adjust far_entry_handle 0 FILESYSTEM_SEEK_HEAD = (INT_MIN, FILESYSTEM_SEEK_HEAD) /\
  Seek far_entry_open 2 0 FILESYSTEM_SEEK_HEAD = Some far_entry_open /\
  Tell far_entry_open 2 = Some (far_entry_open, 2147483653).
Proof. repeat split. Qed.

(** Such a handle comes out of the interface: the pack [/far.pak] is
    mounted, its entry opened from the cache, the cursor moved on by 5
    and then sought to 0 from the start, and [Tell] returns 5. *)
Lemma far_entry_through_the_interface :
  far_entry_session = Some (mkCFileHandle "far.bin" (Some 1%nat) true 2147483648 16, 5).
Proof. vm_compute. reflexivity. Qed.

(** C9 (as amended): for an open handle on a pack entry, [Seek] from the
    start ends in an [fseek] to [startOffset + pos] from the start of the
    stream, and [Seek] from the end in an [fseek] to
    [startOffset + length + pos] from the start of the stream, whenever
    that sum is an [int]; a plain handle passes position and origin on as
    they are; and [Tell] right after [Seek] to 0 from the start returns 0
    on a pack entry whose start offset is an [int]. *)
Theorem Seek_is_relative_to_the_window (st : CFileSystem) (file : nat) (h : CFileHandle)
    (fp : nat) (f : FILE) (pos : Z) :
  dereference st file = HandleObject h ->
  m_pFile h = Some fp ->
  streams st !! fp = Some f ->
  (IsPackEntry h = true ->
   (INT_MIN <= GetStartOffset h + pos <= INT_MAX ->
    Seek st file pos FILESYSTEM_SEEK_HEAD
    = Some (set_streams st
              (<[fp := c_fseek f (GetStartOffset h + pos) SEEK_SET]> (streams st)))) /\
   (INT_MIN <= GetStartOffset h + GetLength h + pos <= INT_MAX ->
    Seek st file pos FILESYSTEM_SEEK_TAIL
    = Some (set_streams st
              (<[fp := c_fseek f (GetStartOffset h + GetLength h + pos) SEEK_SET]>
                 (streams st)))) /\
   (0 <= GetStartOffset h <= INT_MAX ->
    exists st', Seek st file 0 FILESYSTEM_SEEK_HEAD = Some st' /\
                Tell st' file = Some (st', 0))) /\
  (IsPackEntry h = false ->
   forall seekType origin,
     Seek_origin seekType = Some origin ->
     Seek st file pos seekType
     = Some (set_streams st (<[fp := c_fseek f pos origin]> (streams st)))).
Proof.
  intros Hderef Hopen Hstream. split.
  - intros Hpack. repeat split.
    + intros Hrange. unfold Seek, Seek_adjust.
      rewrite Hderef, Hopen, Hpack. simpl. rewrite Hstream.
      rewrite (seek_head_sum _ _ Hrange). reflexivity.
    + intros Hrange. unfold Seek, Seek_adjust.
      rewrite Hderef, Hopen, Hpack. simpl. rewrite Hstream.
      rewrite (seek_tail_sum _ _ _ Hrange). reflexivity.
    + intros Hrange. eexists. split.
      * unfold Seek, Seek_adjust.
        rewrite Hderef, Hopen, Hpack. simpl. rewrite Hstream.
        rewrite (seek_head_sum (GetStartOffset h) 0) by (unfold INT_MIN, INT_MAX in *; lia).
        reflexivity.
      * unfold Tell. unfold dereference in *. simpl. rewrite Hderef, Hopen. simpl.
        rewrite lookup_insert_eq, Hpack.
        unfold c_fseek, c_ftell. rewrite Z.add_0_r.
        destruct (Z.ltb_spec (GetStartOffset h) 0) as [Hneg|_]; [lia|]. simpl.
        rewrite Z.sub_diag. reflexivity.
  - intros Hplain seekType origin Horigin. unfold Seek, Seek_adjust.
    rewrite Hderef, Hopen, Hplain, Horigin, Hstream. reflexivity.
Qed.

Lemma Seek_is_relative_to_the_window_witness :
  dereference near_entry_open 2 = HandleObject near_entry_handle /\
  INT_MIN <= GetStartOffset near_entry_handle + GetLength near_entry_handle + -4 <= INT_MAX /\
  Seek near_entry_open 2 (-4) FILESYSTEM_SEEK_TAIL
  = Some (set_streams near_entry_open
            (<[1%nat := c_fseek (mkFILE example_pack 140) (128 + 64 + -4) SEEK_SET]>
               (streams near_entry_open))).
Proof.
  split; [reflexivity|].
  split; [simpl; unfold INT_MIN, INT_MAX; lia|].
  destruct (Seek_is_relative_to_the_window near_entry_open 2 near_entry_handle 1
              (mkFILE example_pack 140) (-4) eq_refl eq_refl eq_refl) as [Hpack _].
  destruct (Hpack eq_refl) as (_ & Htail & _).
  apply Htail. simpl. unfold INT_MIN, INT_MAX. lia.
Defined.

(** ** Reading through a window *)

Lemma c_fread_bytes (f : FILE) (count : Z) :
  0 <= count ->
  exists bytes f',
    c_fread 1 count f = (Z.min count (Z.max 0 (f_size f - f_pos f)), bytes, f').
Proof.
  intros Hcount. unfold c_fread. rewrite Z.mul_1_l. simpl.
  destruct (Z.leb_spec (Z.min count (Z.max 0 (f_size f - f_pos f))) 0) as [Hle|Hgt].
  - eexists _, _. f_equal. f_equal. lia.
  - eexists _, _. rewrite Z.div_1_r. reflexivity.
Qed.

(** What [Read] returns on an open handle on a pack entry, for offsets
    and sizes in the range of their types. With the cursor outside the
    window, or an empty window, it returns 0 and reads nothing. With the
    cursor inside the window it returns what [fread] delivers, cut down
    to [length + 1 - relativePos]: one byte more than is left before the
    end of the window. *)
Lemma Read_pack_entry (st : CFileSystem) (file : nat) (h : CFileHandle)
    (fp : nat) (f : FILE) (size : Z) :
  dereference st file = HandleObject h ->
  m_pFile h = Some fp ->
  streams st !! fp = Some f ->
  IsPackEntry h = true ->
  0 <= GetStartOffset h < 2 ^ 62 ->
  0 <= GetLength h < 2 ^ 62 ->
  0 <= f_pos f < 2 ^ 62 ->
  0 <= size <= INT_MAX ->
  (~ (0 <= f_pos f - GetStartOffset h < GetLength h) -> Read st size file = Some (st, 0, [])) /\
  (0 <= f_pos f - GetStartOffset h < GetLength h ->
   exists st' bytes,
     Read st size file
     = Some (st',
             Z.min (Z.min size (Z.max 0 (f_size f - f_pos f)))
               (GetLength h + 1 - (f_pos f - GetStartOffset h)),
             bytes)).
Proof.
  intros Hderef Hopen Hstream Hpack Hstart Hlen Hpos Hsize.
  change (2 ^ 62) with 4611686018427387904 in *.
  unfold Read. rewrite Hderef, Hopen, Hstream, Hpack. unfold c_ftell.
  assert (Hsz : to_size_t size = size)
    by (unfold_wraps; apply Z.mod_small; lia).
  rewrite Hsz.
  destruct (c_fread_bytes f size (proj1 Hsize)) as (bytes & f' & Hread).
  rewrite Hread. split.
  - intros Houtside.
    destruct (Z.eqb_spec (GetLength h) 0) as [_|Hne]; [reflexivity|].
    destruct (Z.geb_spec (to_u64 (f_pos f - GetStartOffset h)) (GetLength h)) as [_|Hlt];
      [reflexivity|].
    exfalso. unfold_wraps.
    destruct (Z.lt_ge_cases (f_pos f - GetStartOffset h) 0) as [Hneg|Hnonneg].
    + assert ((f_pos f - GetStartOffset h) mod 18446744073709551616
              = f_pos f - GetStartOffset h + 18446744073709551616)
        by (symmetry; apply (Z.mod_unique_pos _ _ (-1)); lia).
      lia.
    + rewrite Z.mod_small in Hlt by lia. lia.
  - intros Hinside.
    destruct (Z.eqb_spec (GetLength h) 0) as [Hzero|_]; [lia|].
    assert (Hrel : to_u64 (f_pos f - GetStartOffset h) = f_pos f - GetStartOffset h)
      by (unfold_wraps; apply Z.mod_small; lia).
    rewrite Hrel.
    destruct (Z.geb_spec (f_pos f - GetStartOffset h) (GetLength h)) as [Hge|_]; [lia|].
    assert (Hsum : to_u64 (f_pos f - GetStartOffset h + size)
                   = f_pos f - GetStartOffset h + size)
      by (unfold_wraps; apply Z.mod_small; lia).
    assert (Hend : to_u64 (GetLength h + 1) = GetLength h + 1)
      by (unfold_wraps; apply Z.mod_small; lia).
    assert (Hmax : to_size_t (to_u64 (GetLength h + 1 - (f_pos f - GetStartOffset h)))
                   = GetLength h + 1 - (f_pos f - GetStartOffset h))
      by (unfold_wraps; rewrite Z.mod_mod by lia; apply Z.mod_small; lia).
    rewrite Hsum, Hend, Hmax.
    eexists _, bytes. f_equal. f_equal. f_equal.
    destruct (Z.geb_spec (f_pos f - GetStartOffset h + size) (GetLength h + 1)) as [Hclip|Hfree].
    + apply to_int_in_range. unfold INT_MIN, INT_MAX in *. lia.
    + rewrite to_int_in_range by (unfold INT_MIN, INT_MAX in *; lia). lia.
Qed.

(** With more bytes asked for than are left in the window, and the pack
    going on after the window, [Read] returns one byte more than are
    left. *)
Lemma Read_pack_entry_overrun (st : CFileSystem) (file : nat) (h : CFileHandle)
    (fp : nat) (f : FILE) (size : Z) :
  dereference st file = HandleObject h ->
  m_pFile h = Some fp ->
  streams st !! fp = Some f ->
  IsPackEntry h = true ->
  0 <= GetStartOffset h < 2 ^ 62 ->
  0 <= GetLength h < 2 ^ 62 ->
  0 <= f_pos f < 2 ^ 62 ->
  0 <= size <= INT_MAX ->
  0 <= f_pos f - GetStartOffset h < GetLength h ->
  GetLength h - (f_pos f - GetStartOffset h) < size ->
  GetStartOffset h + GetLength h < f_size f ->
  exists st' bytes,
    Read st size file = Some (st', GetLength h - (f_pos f - GetStartOffset h) + 1, bytes).
Proof.
  intros Hderef Hopen Hstream Hpack Hstart Hlen Hpos Hsize Hinside Hmore Hgoes_on.
  destruct (Read_pack_entry st file h fp f size Hderef Hopen Hstream Hpack Hstart Hlen Hpos Hsize)
    as [_ Hread].
  destruct (Hread Hinside) as (st' & bytes & ->).
  exists st', bytes. f_equal. f_equal. f_equal. lia.
Qed.

(** C1: the code on the pack of the example, whose entry [sound/a.wav]
    is 64 bytes at offset 128 and is followed by the directory. Opened
    from the cache, the handle is a view of that window with the stream
    at its start; [Read] of 100 bytes returns 65, not 64, and has taken
    100 bytes from the stream. *)
Theorem Read_returns_a_byte_past_the_window :
  exists st1 h st2 bytes,
    OpenFromCacheForRead posix_build example_mounted (Some "sound/a.wav") (Some "rb") None
    = Some (st1, h) /\
    dereference st1 h = HandleObject (mkCFileHandle "sound/a.wav" (Some 1%nat) true 128 64) /\
    option_map f_pos (streams st1 !! 1%nat) = Some 128 /\
    Read st1 100 h = Some (st2, 65, bytes) /\
    length bytes = 100%nat /\
    option_map f_pos (streams st2 !! 1%nat) = Some 228.
Proof.
  eexists _, _, _, _. split; [vm_compute; reflexivity|].
  split; [vm_compute; reflexivity|].
  split; [vm_compute; reflexivity|].
  split; [vm_compute; reflexivity|].
  split; vm_compute; reflexivity.
Qed.

(** ** The size of a file by name *)

(** [Size] by name does not look at the file system object at all. *)
Lemma Size_by_name_ignores_registry (os : HostOS) (st st' : CFileSystem)
    (pFileName : option string) :
  Size_by_name os st pFileName = Size_by_name os st' pFileName.
Proof. reflexivity. Qed.

(** C2: the code on the example host, where [/base] is mounted and holds
    [a.txt] of 10 bytes. [FileExists] and [GetFileTime] find the file
    under the search path, and the scan of the specification gives its
    size, 10; [Size] by name asks for the size of [a.txt] as it stands,
    which is no file, and returns the error value cut to 32 bits. *)
Theorem Size_by_name_does_not_scan_search_paths :
  FileExists posix_build example_os example_mounted (Some "a.txt") = true /\
  GetFileTime posix_build example_os example_mounted "a.txt" = 1000 /\
  size_by_scan_spec Posix example_os (m_SearchPaths example_mounted) "a.txt" = Some 10 /\
  Size_by_name example_os example_mounted (Some "a.txt") = 4294967295.
Proof. repeat split; vm_compute; reflexivity. Qed.

(** ** Search paths that take the same place *)

Lemma strcmp_same (s : string) : strcmp s s = 0.
Proof. induction s as [|c s IH]; simpl; [reflexivity|]. rewrite Ascii.eqb_refl. exact IH. Qed.

Lemma same_pathID_same (pathID : option string) : same_pathID pathID pathID = true.
Proof. destruct pathID as [id|]; simpl; [|reflexivity]. rewrite strcmp_same. reflexivity. Qed.

Lemma no_duplicate_mounts_twice (searchPaths : list CSearchPath) (a b : CSearchPath) :
  same_mount a b = true ->
  no_duplicate_mounts (searchPaths ++ [a; b]) = false.
Proof.
  intros Hsame. induction searchPaths as [|sp rest IH]; simpl.
  - rewrite Hsame. reflexivity.
  - rewrite IH. apply andb_false_r.
Qed.

Lemma ProcessPackFile_entries_independent (plat : Platform) (layout : PackLayout)
    (st st2 : CFileSystem) (pszFileName : string) (pFile : FILE)
    (entries : gmap string CPackFileEntry) :
  snd (ProcessPackFile plat layout st pszFileName pFile entries)
  = snd (ProcessPackFile plat layout st2 pszFileName pFile entries) /\
  snd (fst (ProcessPackFile plat layout st pszFileName pFile entries))
  = snd (fst (ProcessPackFile plat layout st2 pszFileName pFile entries)).
Proof.
  unfold ProcessPackFile.
  destruct (c_fread (sizeof_Header_t layout) 1 pFile) as [[got header] pFile1].
  destruct (negb (got =? 1)); [split; reflexivity|].
  destruct (header_dir layout header) as [dirofs dirlen].
  destruct (negb (dirlen mod sizeof_Entry_t layout =? 0)); [split; reflexivity|].
  destruct (dirlen / sizeof_Entry_t layout >? MAX_FILES layout); [split; reflexivity|].
  destruct (c_fread (sizeof_Entry_t layout) (dirlen / sizeof_Entry_t layout)
              (c_fseek pFile1 dirofs SEEK_SET)) as [[read bytes] pFile3].
  destruct (negb (read =? dirlen / sizeof_Entry_t layout)); split; reflexivity.
Qed.

(** Whether [AddPackFile] succeeds does not depend on the file system
    object, and so not on what is mounted. *)
Lemma AddPackFile_success_independent (b : Build) (pk : PackFile_h) (os : HostOS)
    (st st2 : CFileSystem) (fullpath pathID : option string) :
  snd (AddPackFile b pk os st fullpath pathID) = snd (AddPackFile b pk os st2 fullpath pathID).
Proof.
  unfold AddPackFile. destruct fullpath as [name|]; [|reflexivity].
  destruct (c_fopen os name "rb") as [bytes|]; [|reflexivity].
  destruct (c_fread (sizeof_pack_Header_t pk) 1 (mkFILE bytes 0)) as [[got header] file1].
  destruct (negb (got =? 1)); [reflexivity|].
  destruct (IdentifyPackType pk header); [reflexivity| |].
  - pose proof (ProcessPackFile_entries_independent (platform b) (Pack32_t pk) st st2 name
                  (c_rewind file1) ∅) as [Hentries _].
    destruct (ProcessPackFile _ _ st name (c_rewind file1) ∅) as [[st1 file2] result].
    destruct (ProcessPackFile _ _ st2 name (c_rewind file1) ∅) as [[st1' file2'] result'].
    simpl in Hentries. subst result'. destruct result; reflexivity.
  - pose proof (ProcessPackFile_entries_independent (platform b) (Pack64_t pk) st st2 name
                  (c_rewind file1) ∅) as [Hentries _].
    destruct (ProcessPackFile _ _ st name (c_rewind file1) ∅) as [[st1 file2] result].
    destruct (ProcessPackFile _ _ st2 name (c_rewind file1) ∅) as [[st1' file2'] result'].
    simpl in Hentries. subst result'. destruct result; reflexivity.
Qed.

(** A pack that can be mounted can be mounted again, and then two search
    paths take the same place in the registry. *)
Lemma AddPackFile_twice (b : Build) (pk : PackFile_h) (os : HostOS) (st st1 : CFileSystem)
    (fullpath pathID : option string) :
  AddPackFile b pk os st fullpath pathID = (st1, true) ->
  exists st2,
    AddPackFile b pk os st1 fullpath pathID = (st2, true) /\
    no_duplicate_mounts (m_SearchPaths st2) = false.
Proof.
  intros Hfirst.
  pose proof (AddPackFile_success_independent b pk os st st1 fullpath pathID) as Hsame.
  rewrite Hfirst in Hsame. simpl in Hsame.
  destruct (AddPackFile b pk os st1 fullpath pathID) as [st2 ok] eqn:Hsecond.
  simpl in Hsame. subst ok. exists st2. split; [reflexivity|].
  destruct (AddPackFile_appends _ _ _ _ _ _ _ Hfirst)
    as (name & path & -> & Hpaths & Hloc & Htag & _).
  destruct (AddPackFile_appends _ _ _ _ _ _ _ Hsecond)
    as (name' & path' & [= <-] & Hpaths' & Hloc' & Htag' & _).
  rewrite Hpaths', Hpaths, <- app_assoc. simpl.
  apply no_duplicate_mounts_twice. unfold same_mount.
  rewrite Hloc, Hloc', Htag, Htag'. unfold stricmp.
  rewrite strcmp_same, same_pathID_same. reflexivity.
Qed.

(** C6: the code on two sequences of mount operations. Built for
    Windows, [AddSearchPath] of [a/b] twice succeeds twice, since the
    second call compares the path as given with the location as stored,
    [a\b]; and [AddPackFile] of the pack of the example on a registry
    that has it returns true again, since it does not look for the search
    path. Each time the registry holds two search paths of the same
    location and tag. *)
Theorem mounting_twice_leaves_duplicates :
  snd (AddSearchPath windows_build
         (fst (AddSearchPath windows_build (new_CFileSystem 0) (Some "a/b") None false))
         (Some "a/b") None false) = true /\
  no_duplicate_mounts
    (m_SearchPaths
       (fst (AddSearchPath windows_build
               (fst (AddSearchPath windows_build (new_CFileSystem 0) (Some "a/b") None false))
               (Some "a/b") None false))) = false /\
  no_duplicate_mounts (m_SearchPaths example_mounted) = true /\
  snd (AddPackFile posix_build example_PackFile_h example_os example_mounted
         (Some "/base.pak") None) = true /\
  no_duplicate_mounts
    (m_SearchPaths
       (fst (AddPackFile posix_build example_PackFile_h example_os example_mounted
               (Some "/base.pak") None))) = false.
Proof. repeat split; vm_compute; reflexivity. Qed.

(** ** Wild cards *)

Lemma string_app_nil_l (s : string) : EmptyString +:+ s = s.
Proof. reflexivity. Qed.

Lemma string_app_cons (c : ascii) (s t : string) : String c s +:+ t = String c (s +:+ t).
Proof. reflexivity. Qed.

Lemma string_app_nil_inv (a b : string) :
  a +:+ b = EmptyString -> a = EmptyString /\ b = EmptyString.
Proof.
  destruct a; [rewrite string_app_nil_l; intros ->; split; reflexivity|].
  rewrite string_app_cons. discriminate.
Qed.

Lemma matches_nullable (r : regex) (s : string) :
  matches r s -> s = EmptyString -> nullable r = true.
Proof.
  induction 1 as [|c|c Hc|r1 r2 s1 s2 _ IH1 _ IH2|r1 r2 s _ IH|r1 r2 s _ IH| |r s1 s2 _ _ _ _];
    intros Hempty; simpl; try reflexivity; try discriminate.
  - apply string_app_nil_inv in Hempty as [-> ->]. rewrite IH1, IH2; reflexivity.
  - rewrite IH by exact Hempty. reflexivity.
  - rewrite IH by exact Hempty. apply orb_true_r.
Qed.

Lemma nullable_matches (r : regex) : nullable r = true -> matches r EmptyString.
Proof.
  induction r as [| | | |r1 IH1 r2 IH2|r1 IH1 r2 IH2|r IH]; simpl; intros Hnull;
    try discriminate.
  - constructor.
  - apply andb_true_iff in Hnull as [H1 H2].
    apply (matches_Seq r1 r2 EmptyString EmptyString); auto.
  - apply orb_true_iff in Hnull as [H1|H2].
    + apply matches_Alt_l; auto.
    + apply matches_Alt_r; auto.
  - constructor.
Qed.

Lemma deriv_matches (a : ascii) (r : regex) (s : string) :
  matches (deriv a r) s -> matches r (String a s).
Proof.
  revert s. induction r as [| |c| |r1 IH1 r2 IH2|r1 IH1 r2 IH2|r IH]; simpl; intros s Hm.
  - inversion Hm.
  - inversion Hm.
  - destruct (Ascii.eqb_spec a c) as [->|_]; inversion Hm; subst. constructor.
  - destruct (is_line_terminator a) eqn:Hterm; inversion Hm; subst.
    constructor. exact Hterm.
  - assert (Hleft : forall s, matches (Seq (deriv a r1) r2) s -> matches (Seq r1 r2) (String a s)).
    { intros s0 H0. inversion H0 as [| | |? ? s1 s2 Hs1 Hs2| | | |]; subst.
      apply (matches_Seq r1 r2 (String a s1) s2); auto. }
    destruct (nullable r1) eqn:Hnull.
    + inversion Hm as [| | | |? ? ? Hl|? ? ? Hr| |]; subst.
      * apply Hleft. exact Hl.
      * apply (matches_Seq r1 r2 EmptyString (String a s)); auto.
        apply nullable_matches. exact Hnull.
    + apply Hleft. exact Hm.
  - inversion Hm; subst; [apply matches_Alt_l|apply matches_Alt_r]; auto.
  - inversion Hm as [| | |? ? s1 s2 Hs1 Hs2| | | |]; subst.
    apply (matches_Star_app r (String a s1) s2); auto.
Qed.

Lemma matches_deriv (a : ascii) (r : regex) (s' : string) :
  matches r s' -> forall s, s' = String a s -> matches (deriv a r) s.
Proof.
  induction 1 as [|c|c Hc|r1 r2 s1 s2 H1 IH1 H2 IH2|r1 r2 s0 _ IH|r1 r2 s0 _ IH|
                  |r s1 s2 H1 IH1 H2 IH2];
    intros s Heq; simpl.
  - discriminate.
  - injection Heq as -> <-. rewrite Ascii.eqb_refl. constructor.
  - injection Heq as -> <-. rewrite Hc. constructor.
  - destruct s1 as [|a1 s1]; rewrite ?string_app_nil_l, ?string_app_cons in Heq.
    + rewrite (matches_nullable _ _ H1 eq_refl). apply matches_Alt_r. apply IH2. exact Heq.
    + injection Heq as -> <-.
      assert (Hseq : matches (Seq (deriv a r1) r2) (s1 +:+ s2))
        by (constructor; [apply IH1; reflexivity|exact H2]).
      destruct (nullable r1); [apply matches_Alt_l|]; exact Hseq.
  - apply matches_Alt_l. apply IH. exact Heq.
  - apply matches_Alt_r. apply IH. exact Heq.
  - discriminate.
  - destruct s1 as [|a1 s1]; rewrite ?string_app_nil_l, ?string_app_cons in Heq.
    + apply IH2. exact Heq.
    + injection Heq as -> <-. constructor; [apply IH1; reflexivity|exact H2].
Qed.

(** Matching by derivatives decides the strings of an expression. *)
Lemma regex_match_matches (s : string) (r : regex) :
  regex_match s r = true <-> matches r s.
Proof.
  revert r. induction s as [|a s IH]; intros r; simpl.
  - split; [apply nullable_matches|intros H; exact (matches_nullable _ _ H eq_refl)].
  - rewrite IH. split; [apply deriv_matches|intros H; exact (matches_deriv _ _ _ H _ eq_refl)].
Qed.

Lemma no_line_terminator_app (s1 s2 : string) :
  no_line_terminator (s1 +:+ s2) = no_line_terminator s1 && no_line_terminator s2.
Proof.
  induction s1 as [|c s1 IH]; [reflexivity|].
  rewrite string_app_cons. simpl. rewrite IH. apply andb_assoc.
Qed.

Lemma matches_Star_AnyChar (s : string) :
  no_line_terminator s = true -> matches (Star AnyChar) s.
Proof.
  induction s as [|c s IH]; simpl; intros Hs; [constructor|].
  apply andb_true_iff in Hs as [Hc Hs]. apply negb_true_iff in Hc.
  apply (matches_Star_app AnyChar (String c EmptyString) s); [constructor; exact Hc|auto].
Qed.

(** The two equations of the reading of the specification. *)
Lemma wildcard_spec_match_star (pattern s : string) :
  wildcard_spec_match (String "*"%char pattern) s =
  wildcard_spec_match pattern s ||
  match s with
  | EmptyString => false
  | String _ s' => wildcard_spec_match (String "*"%char pattern) s'
  end.
Proof. destruct s; reflexivity. Qed.

Lemma wildcard_spec_match_char (c : ascii) (pattern s : string) :
  Ascii.eqb c "*"%char = false ->
  wildcard_spec_match (String c pattern) s =
  match s with
  | EmptyString => false
  | String c' s' => Ascii.eqb c c' && wildcard_spec_match pattern s'
  end.
Proof. intros Hc. simpl. rewrite Hc. reflexivity. Qed.

Lemma wildcard_spec_match_suffix (pattern s1 s2 : string) :
  wildcard_spec_match pattern s2 = true ->
  wildcard_spec_match (String "*"%char pattern) (s1 +:+ s2) = true.
Proof.
  intros Hs2. induction s1 as [|c s1 IH].
  - rewrite string_app_nil_l, wildcard_spec_match_star, Hs2. reflexivity.
  - rewrite string_app_cons, wildcard_spec_match_star, IH. apply orb_true_r.
Qed.

Lemma wildcard_spec_match_star_inv (pattern s : string) :
  wildcard_spec_match (String "*"%char pattern) s = true ->
  exists s1 s2, s = s1 +:+ s2 /\ wildcard_spec_match pattern s2 = true.
Proof.
  induction s as [|c s IH]; rewrite wildcard_spec_match_star; intros Hm.
  - exists EmptyString, EmptyString. rewrite orb_false_r in Hm. split; [reflexivity|exact Hm].
  - apply orb_true_iff in Hm as [Hhere|Hlater].
    + exists EmptyString, (String c s). split; [reflexivity|exact Hhere].
    + destruct (IH Hlater) as (s1 & s2 & -> & Hs2).
      exists (String c s1), s2. split; [reflexivity|exact Hs2].
Qed.

(** On names without line terminators the expression of a wild card
    stands for the names the reading of the specification accepts. *)
Lemma wildcard_regex_matches (pattern s : string) :
  no_line_terminator s = true ->
  matches (wildcard_regex pattern) s <-> wildcard_spec_match pattern s = true.
Proof.
  revert s. induction pattern as [|c pattern IH]; intros s Hs.
  - simpl. split.
    + intros Hm. inversion Hm. reflexivity.
    + destruct s; [constructor|discriminate].
  - simpl wildcard_regex. destruct (Ascii.eqb_spec c "*"%char) as [->|Hne].
    + split.
      * intros Hm. inversion Hm as [| | |? ? s1 s2 _ Hs2| | | |]; subst.
        rewrite no_line_terminator_app in Hs. apply andb_true_iff in Hs as [_ Hs2'].
        apply wildcard_spec_match_suffix. apply IH; assumption.
      * intros Hm. destruct (wildcard_spec_match_star_inv _ _ Hm) as (s1 & s2 & -> & Hs2).
        rewrite no_line_terminator_app in Hs. apply andb_true_iff in Hs as [Hs1 Hs2'].
        constructor; [apply matches_Star_AnyChar; exact Hs1|apply IH; assumption].
    + assert (Hc : Ascii.eqb c "*"%char = false) by (apply Ascii.eqb_neq; exact Hne).
      rewrite (wildcard_spec_match_char _ _ _ Hc). split.
      * intros Hm. inversion Hm as [| | |? ? s1 s2 Hs1 Hs2| | | |]; subst.
        inversion Hs1; subst. rewrite string_app_cons, string_app_nil_l in *.
        rewrite Ascii.eqb_refl. simpl in Hs. apply andb_true_iff in Hs as [_ Hs].
        simpl. apply IH; assumption.
      * destruct s as [|c' s]; [discriminate|].
        intros Hm. apply andb_true_iff in Hm as [Hcc Hm].
        apply Ascii.eqb_eq in Hcc as <-.
        simpl in Hs. apply andb_true_iff in Hs as [_ Hs].
        apply (matches_Seq (Chr c) _ (String c EmptyString) s); [constructor|].
        apply IH; assumption.
Qed.

Lemma regex_match_wildcard_regex (pattern s : string) :
  no_line_terminator s = true ->
  regex_match s (wildcard_regex pattern) = wildcard_spec_match pattern s.
Proof.
  intros Hs.
  pose proof (regex_match_matches s (wildcard_regex pattern)) as Hdecide.
  pose proof (wildcard_regex_matches pattern s Hs) as Hspec.
  destruct (regex_match s (wildcard_regex pattern));
    destruct (wildcard_spec_match pattern s); try reflexivity.
  - symmetry. apply Hspec, Hdecide. reflexivity.
  - apply Hdecide, Hspec. reflexivity.
Qed.

Lemma plain_character_facts (plat : Platform) (c : ascii) :
  plain_character plat c = true ->
  preferred_char plat c = c /\ ordinary_token c = token_char c /\
  Ascii.eqb c "\"%char = false /\ Ascii.eqb c "*"%char = false.
Proof.
  destruct plat; destruct c as [[] [] [] [] [] [] [] []]; vm_compute; intros H;
    first [discriminate H | repeat split].
Qed.

Lemma regex_parse_char (c : ascii) (tokens : list regex_token) :
  starts_with_quantifier tokens = false ->
  regex_parse (token_char c :: tokens) = seq_result (Chr c) (regex_parse tokens).
Proof. destruct tokens as [|[] tokens]; simpl; intros H; first [discriminate H|reflexivity]. Qed.

Lemma regex_parse_dot_star (tokens : list regex_token) :
  starts_with_quantifier tokens = false ->
  regex_parse (token_dot :: token_quantifier "*"%char :: tokens)
  = seq_result (Star AnyChar) (regex_parse tokens).
Proof. destruct tokens as [|[] tokens]; simpl; intros H; first [discriminate H|reflexivity]. Qed.

Lemma regex_scan_expand (plat : Platform) (c : ascii) (pattern : string) :
  (Ascii.eqb c "*"%char || plain_character plat c) = true ->
  regex_scan (expand_wildcards (String c pattern)) =
  if Ascii.eqb c "*"%char
  then token_dot :: token_quantifier "*"%char :: regex_scan (expand_wildcards pattern)
  else token_char c :: regex_scan (expand_wildcards pattern).
Proof.
  intros Hc. simpl expand_wildcards.
  destruct (Ascii.eqb c "*"%char) eqn:Hstar; [reflexivity|].
  simpl in Hc. destruct (plain_character_facts plat c Hc) as (_ & Htoken & Hback & _).
  simpl regex_scan. rewrite Hback, Htoken. reflexivity.
Qed.

Lemma regex_scan_expand_start (plat : Platform) (pattern : string) :
  plain_wildcard plat pattern = true ->
  starts_with_quantifier (regex_scan (expand_wildcards pattern)) = false.
Proof.
  destruct pattern as [|c pattern]; [reflexivity|].
  simpl plain_wildcard. intros Hp. apply andb_true_iff in Hp as [Hc _].
  rewrite (regex_scan_expand plat c pattern Hc).
  destruct (Ascii.eqb c "*"%char); reflexivity.
Qed.

Lemma make_preferred_expand (plat : Platform) (pattern : string) :
  plain_wildcard plat pattern = true ->
  make_preferred plat (expand_wildcards pattern) = expand_wildcards pattern.
Proof.
  induction pattern as [|c pattern IH]; [reflexivity|].
  simpl plain_wildcard. intros Hp. apply andb_true_iff in Hp as [Hc Hp].
  unfold make_preferred in *. simpl.
  destruct (Ascii.eqb_spec c "*"%char) as [->|Hne].
  - simpl. rewrite IH by exact Hp. destruct plat; reflexivity.
  - simpl in Hc. destruct (plain_character_facts plat c Hc) as (Hpref & _).
    simpl. rewrite Hpref, IH by exact Hp. reflexivity.
Qed.

(** A wild card of stars and plain characters compiles, and to the
    expression in which a star is any sequence and a character itself. *)
Lemma regex_compile_expand (plat : Platform) (pattern : string) :
  plain_wildcard plat pattern = true ->
  regex_compile (expand_wildcards pattern) = Compiled (wildcard_regex pattern).
Proof.
  unfold regex_compile. induction pattern as [|c pattern IH]; [reflexivity|].
  intros Hp. pose proof Hp as Hp'. simpl plain_wildcard in Hp'.
  apply andb_true_iff in Hp' as [Hc Hrest].
  rewrite (regex_scan_expand plat c pattern Hc). simpl wildcard_regex.
  pose proof (regex_scan_expand_start plat pattern Hrest) as Hstart.
  destruct (Ascii.eqb c "*"%char).
  - rewrite (regex_parse_dot_star _ Hstart), IH by exact Hrest. reflexivity.
  - rewrite (regex_parse_char _ _ Hstart), IH by exact Hrest. reflexivity.
Qed.

(** The loop of [FindFirst]. *)

Lemma string_find_app (pre suf : list ascii) (c : ascii) :
  string_find (pre ++ suf) c (length pre)
  = option_map (fun i => (length pre + i)%nat) (string_find suf c 0).
Proof.
  induction pre as [|d pre IH]; simpl.
  - destruct (string_find suf c 0); reflexivity.
  - rewrite IH. destruct (string_find suf c 0); reflexivity.
Qed.

Lemma string_find_None (suf : list ascii) :
  string_find suf "*"%char 0 = None -> expand_list suf = suf.
Proof.
  induction suf as [|d suf IH]; simpl; [reflexivity|].
  destruct (Ascii.eqb d "*"%char); [discriminate|].
  destruct (string_find suf "*"%char 0); [discriminate|].
  intros _. unfold expand_list in *. simpl. rewrite IH; reflexivity.
Qed.

Lemma string_find_Some (suf : list ascii) (j : nat) :
  string_find suf "*"%char 0 = Some j ->
  exists mid rest, suf = mid ++ "*"%char :: rest /\ j = length mid /\ expand_list mid = mid.
Proof.
  revert j. induction suf as [|d suf IH]; simpl; intros j; [discriminate|].
  destruct (Ascii.eqb_spec d "*"%char) as [->|Hne].
  - intros [= <-]. exists [], suf. repeat split.
  - destruct (string_find suf "*"%char 0) as [i|]; [|discriminate].
    simpl. intros [= <-]. destruct (IH i eq_refl) as (mid & rest & -> & -> & Hmid).
    exists (d :: mid), rest. repeat split. unfold expand_list in *. simpl.
    apply Ascii.eqb_neq in Hne. rewrite Hne, Hmid. reflexivity.
Qed.

Lemma expand_list_app (a b : list ascii) : expand_list (a ++ b) = expand_list a ++ expand_list b.
Proof. unfold expand_list. apply flat_map_app. Qed.

Lemma replace_wildcards_loop_expand (fuel : nat) (pre suf : list ascii) :
  (length suf < fuel)%nat ->
  replace_wildcards_loop fuel (pre ++ suf) (length pre) = pre ++ expand_list suf.
Proof.
  revert pre suf. induction fuel as [|fuel IH]; intros pre suf Hfuel; [lia|].
  simpl. rewrite string_find_app.
  destruct (string_find suf "*"%char 0) as [j|] eqn:Hfind; simpl.
  - destruct (string_find_Some _ _ Hfind) as (mid & rest & -> & -> & Hmid).
    unfold string_replace.
    replace (take (length pre + length mid) (pre ++ mid ++ "*"%char :: rest))
      with (pre ++ mid)
      by (rewrite app_assoc, <- length_app, take_app_length; reflexivity).
    replace (drop (length pre + length mid + 1) (pre ++ mid ++ "*"%char :: rest))
      with rest.
    2:{ rewrite app_assoc.
        replace (length pre + length mid + 1)%nat with (length (pre ++ mid) + 1)%nat
          by (rewrite length_app; reflexivity).
        rewrite drop_app_add'; [reflexivity|reflexivity]. }
    replace (length pre + length mid + 2)%nat
      with (length ((pre ++ mid) ++ ["."%char; "*"%char]))
      by (rewrite !length_app; simpl; lia).
    replace ((pre ++ mid) ++ ["."%char; "*"%char] ++ rest)
      with (((pre ++ mid) ++ ["."%char; "*"%char]) ++ rest)
      by (rewrite <- !app_assoc; reflexivity).
    rewrite IH by (rewrite length_app in Hfuel; simpl in Hfuel; lia).
    rewrite !expand_list_app, Hmid. simpl. rewrite <- !app_assoc. reflexivity.
  - rewrite (string_find_None _ Hfind). reflexivity.
Qed.

Lemma string_of_expand_list (pattern : string) :
  string_of_list_ascii (expand_list (list_ascii_of_string pattern)) = expand_wildcards pattern.
Proof.
  induction pattern as [|c pattern IH]; [reflexivity|].
  unfold expand_list in *. simpl.
  destruct (Ascii.eqb c "*"%char); simpl; rewrite IH; reflexivity.
Qed.

(** The loop puts a dot before every star and changes nothing else. *)
Lemma replace_wildcards_expand (pWildCard : string) :
  replace_wildcards pWildCard = expand_wildcards pWildCard.
Proof.
  unfold replace_wildcards.
  rewrite (replace_wildcards_loop_expand _ [] (list_ascii_of_string pWildCard)) by lia.
  apply string_of_expand_list.
Qed.

(** C7 (counterexample): the dot of the wild card [a.txt] is not taken
    for itself: the filter made of it matches [abtxt], which the reading
    of the specification does not. *)
Lemma wildcard_dot_matches_any_character :
  wildcard_matches Posix "a.txt" "abtxt" = Some true /\
  wildcard_spec_match "a.txt" "abtxt" = false.
Proof. split; reflexivity. Qed.

(** C7 (as amended): the wild card compiler puts a dot before every star
    and hands every other character to [std::regex] as it is. So for a
    wild card of stars and of characters that are not syntax characters of
    the grammar, and a name without line terminators, a star matches any
    sequence of characters, the empty one too, and every other character
    only itself. The wild card [*.txt] matches [a.txt] and [dir/b.txt]
    and not [a.txt.bak]. A wild card that [std::regex] refuses makes
    [FindFirst] report it through [Warning] at the critical level and
    return nothing, with the invalid find handle. *)
Theorem wildcard_filter_of_stars_and_plain_characters (b : Build) (os : HostOS)
    (st : CFileSystem) (pathID : option string) (rounds : nat) (pWildCard name : string) :
  replace_wildcards pWildCard = expand_wildcards pWildCard /\
  (plain_wildcard (platform b) pWildCard = true ->
   no_line_terminator name = true ->
   wildcard_matches (platform b) pWildCard name
   = Some (wildcard_spec_match pWildCard name)) /\
  wildcard_matches (platform b) "*.txt" "a.txt" = Some true /\
  wildcard_matches (platform b) "*.txt" "dir/b.txt" = Some true /\
  wildcard_matches (platform b) "*.txt" "a.txt.bak" = Some false /\
  (forall e,
     wildcard_filter (platform b) pWildCard = Throws e ->
     FindFirst b os st (Some pWildCard) true pathID rounds
     = Some (Warning st FILESYSTEM_WARNING_CRITICAL (FindFirst_invalid_wildcard e),
             Some FILESYSTEM_INVALID_FIND_HANDLE, None)).
Proof.
  split; [apply replace_wildcards_expand|].
  split.
  { intros Hplain Hname. unfold wildcard_matches, wildcard_filter.
    rewrite replace_wildcards_expand, (make_preferred_expand _ _ Hplain).
    rewrite (regex_compile_expand _ _ Hplain).
    rewrite (regex_match_wildcard_regex _ _ Hname). reflexivity. }
  split; [destruct (platform b); reflexivity|].
  split; [destruct (platform b); reflexivity|].
  split; [destruct (platform b); reflexivity|].
  intros e Hthrows. unfold FindFirst. rewrite Hthrows. reflexivity.
Qed.

Lemma wildcard_filter_of_stars_and_plain_characters_witness :
  plain_wildcard Posix "maps/*" = true /\
  no_line_terminator "maps/start.bsp" = true /\
  wildcard_matches Posix "maps/*" "maps/start.bsp" = Some true.
Proof.
  split; [reflexivity|]. split; [reflexivity|].
  destruct (wildcard_filter_of_stars_and_plain_characters posix_build example_os
              example_mounted None 1 "maps/*" "maps/start.bsp") as (_ & Hplain & _).
  exact (Hplain eq_refl eq_refl).
Defined.

(** ** Opening a file by name *)

(** What the loop of [Open] comes to: the first search path it tries
    for which [fopen] succeeds, with one stream and one handle object
    made for it; or nothing at all. *)
Lemma Open_scan_result (plat : Platform) (os : HostOS) (st st' : CFileSystem)
    (searchPaths : list CSearchPath) (pFileName pOptions : string)
    (pathID : option string) (bIsWrite : bool) (h : nat) :
  Open_scan plat os st searchPaths pFileName pOptions pathID bIsWrite = (st', h) ->
  (st' = st /\ h = FILESYSTEM_INVALID_HANDLE /\
   forall searchPath, searchPath ∈ searchPaths ->
     Open_tries pathID bIsWrite searchPath = true ->
     c_fopen os (Open_path plat searchPath pFileName) pOptions = None) \/
  exists (before : list CSearchPath) (searchPath : CSearchPath) (after : list CSearchPath)
         (bytes : list Byte.byte),
    searchPaths = before ++ searchPath :: after /\
    (forall earlier, earlier ∈ before ->
       Open_tries pathID bIsWrite earlier = true ->
       c_fopen os (Open_path plat earlier pFileName) pOptions = None) /\
    Open_tries pathID bIsWrite searchPath = true /\
    c_fopen os (Open_path plat searchPath pFileName) pOptions = Some bytes /\
    h = S (next_address st) /\
    st' = mkCFileSystem (m_SearchPaths st)
            (m_OpenedFiles st ++
             [(S (next_address st),
               mkCFileHandle (Open_path plat searchPath pFileName) (Some (next_address st))
                 false 0 (Z.of_nat (length bytes)))])
            (m_FindFiles st) (m_WarningLevel st) (reported st)
            (<[next_address st := mkFILE bytes 0]> (streams st))
            (S (S (next_address st))).
Proof.
  induction searchPaths as [|searchPath rest IH]; simpl.
  - intros [= <- <-]. left. repeat split. intros sp Hin. apply elem_of_nil in Hin. destruct Hin.
  - assert (Hskip :
      (Open_tries pathID bIsWrite searchPath = true ->
       c_fopen os (Open_path plat searchPath pFileName) pOptions = None) ->
      Open_scan plat os st rest pFileName pOptions pathID bIsWrite = (st', h) ->
      (st' = st /\ h = FILESYSTEM_INVALID_HANDLE /\
       forall sp, sp ∈ searchPath :: rest ->
         Open_tries pathID bIsWrite sp = true ->
         c_fopen os (Open_path plat sp pFileName) pOptions = None) \/
      exists (before : list CSearchPath) (sp : CSearchPath) (after : list CSearchPath)
             (bytes : list Byte.byte),
        searchPath :: rest = before ++ sp :: after /\
        (forall earlier, earlier ∈ before ->
           Open_tries pathID bIsWrite earlier = true ->
           c_fopen os (Open_path plat earlier pFileName) pOptions = None) /\
        Open_tries pathID bIsWrite sp = true /\
        c_fopen os (Open_path plat sp pFileName) pOptions = Some bytes /\
        h = S (next_address st) /\
        st' = mkCFileSystem (m_SearchPaths st)
                (m_OpenedFiles st ++
                 [(S (next_address st),
                   mkCFileHandle (Open_path plat sp pFileName) (Some (next_address st))
                     false 0 (Z.of_nat (length bytes)))])
                (m_FindFiles st) (m_WarningLevel st) (reported st)
                (<[next_address st := mkFILE bytes 0]> (streams st))
                (S (S (next_address st)))).
    { intros Hhere Hscan.
      destruct (IH Hscan) as [(-> & -> & Hnone)|(before & sp & after & bytes & -> & Hrest)].
      - left. repeat split. intros sp Hin. apply elem_of_cons in Hin as [->|Hin]; auto.
      - right. exists (searchPath :: before), sp, after, bytes. split; [reflexivity|].
        destruct Hrest as (Hbefore & Hrest). split; [|exact Hrest].
        intros earlier Hin. apply elem_of_cons in Hin as [->|Hin]; auto. }
    unfold Open_tries at 1 2 in Hskip. unfold Open_path in *.
    destruct (has_flag (flags searchPath) SearchPathFlag.READ_ONLY && bIsWrite) eqn:Hro;
      [apply Hskip; discriminate|].
    destruct (pathID_excludes pathID searchPath) eqn:Hscope; [apply Hskip; discriminate|].
    destruct (c_fopen os _ pOptions) as [bytes|] eqn:Hopen; [|apply Hskip; reflexivity].
    unfold register_handle, new_stream. simpl. intros [= <- <-].
    right. exists [], searchPath, rest, bytes. split; [reflexivity|].
    split; [intros earlier Hin; apply elem_of_nil in Hin; destruct Hin|].
    unfold Open_tries. rewrite Hro, Hscope. repeat split. exact Hopen.
Qed.




(** X2: [Open] returns the invalid handle exactly when [fopen] fails
    under every search path it tries, and then the file system is as it
    was. *)
Theorem Open_fails_when_no_search_path_opens (b : Build) (os : HostOS) (st : CFileSystem)
    (pFileName pOptions : string) (pathID : option string) :
  (snd (Open b os st (Some pFileName) (Some pOptions) pathID) = FILESYSTEM_INVALID_HANDLE <->
   forall searchPath, searchPath ∈ m_SearchPaths st ->
     Open_tries pathID (strchr pOptions "w"%char) searchPath = true ->
     c_fopen os (Open_path (platform b) searchPath pFileName) pOptions = None) /\
  (snd (Open b os st (Some pFileName) (Some pOptions) pathID) = FILESYSTEM_INVALID_HANDLE ->
   fst (Open b os st (Some pFileName) (Some pOptions) pathID) = st).
Proof.
  unfold Open.
  destruct (Open_scan (platform b) os st (m_SearchPaths st) pFileName pOptions pathID
              (strchr pOptions "w"%char)) as [st' h] eqn:Hscan.
  destruct (Open_scan_result _ _ _ _ _ _ _ _ _ _ Hscan)
    as [(-> & -> & Hnone)|(before & sp & after & bytes & Hpaths & _ & Htries & Hopen & -> & _)];
    simpl.
  - split; [|reflexivity]. split; [intros _; exact Hnone|reflexivity].
  - split; [|discriminate]. split; [discriminate|].
    intros Hnone. exfalso.
    rewrite (Hnone sp) in Hopen; [discriminate| |exact Htries].
    rewrite Hpaths. apply elem_of_app. right. apply elem_of_cons. left. reflexivity.
Qed.

Lemma Open_fails_when_no_search_path_opens_witness :
  fst (Open posix_build example_os example_mounted (Some "missing.txt") (Some "rb") None)
  = example_mounted.
Proof.
  apply (Open_fails_when_no_search_path_opens posix_build example_os example_mounted
           "missing.txt" "rb" None).
  vm_compute. reflexivity.
Defined.

(** ** Opening a pack entry *)

(** What the loop of [OpenFromCacheForRead] comes to when it is defined:
    nothing, or one view appended to the table of open handles, on the
    stream of the first pack in scope that has the name, with the window
    of its entry. *)
Lemma OpenFromCacheForRead_scan_result (plat : Platform) (st st' : CFileSystem)
    (searchPaths : list CSearchPath) (pFileName : string) (pathID : option string) (h : nat) :
  OpenFromCacheForRead_scan plat st searchPaths pFileName pathID = Some (st', h) ->
  (st' = st /\ h = FILESYSTEM_INVALID_HANDLE /\
   forall searchPath, searchPath ∈ searchPaths ->
     cache_looks_into pathID searchPath = true ->
     packEntries searchPath !! make_preferred plat pFileName = None) \/
  exists (before : list CSearchPath) (searchPath : CSearchPath) (after : list CSearchPath)
         (it : CPackFileEntry) (pack : CFileHandle) (fp : nat) (f : FILE),
    searchPaths = before ++ searchPath :: after /\
    (forall earlier, earlier ∈ before ->
       cache_looks_into pathID earlier = true ->
       packEntries earlier !! make_preferred plat pFileName = None) /\
    cache_looks_into pathID searchPath = true /\
    packEntries searchPath !! make_preferred plat pFileName = Some it /\
    packFile searchPath = Some pack /\ m_pFile pack = Some fp /\
    streams st !! fp = Some f /\
    h = next_address st /\
    st' = mkCFileSystem (m_SearchPaths st)
            (m_OpenedFiles st ++
             [(next_address st,
               mkCFileHandle (make_preferred plat pFileName) (Some fp) true
                 (pe_StartOffset it) (pe_Length it))])
            (m_FindFiles st) (m_WarningLevel st) (reported st)
            (<[fp := c_fseek f (pe_StartOffset it) SEEK_SET]> (streams st))
            (S (next_address st)).
Proof.
  induction searchPaths as [|searchPath rest IH]; simpl.
  - intros [= <- <-]. left. repeat split. intros sp Hin. apply elem_of_nil in Hin. destruct Hin.
  - assert (Hskip :
      (cache_looks_into pathID searchPath = true ->
       packEntries searchPath !! make_preferred plat pFileName = None) ->
      OpenFromCacheForRead_scan plat st rest pFileName pathID = Some (st', h) ->
      (st' = st /\ h = FILESYSTEM_INVALID_HANDLE /\
       forall sp, sp ∈ searchPath :: rest ->
         cache_looks_into pathID sp = true ->
         packEntries sp !! make_preferred plat pFileName = None) \/
      exists (before : list CSearchPath) (sp : CSearchPath) (after : list CSearchPath)
             (it : CPackFileEntry) (pack : CFileHandle) (fp : nat) (f : FILE),
        searchPath :: rest = before ++ sp :: after /\
        (forall earlier, earlier ∈ before ->
           cache_looks_into pathID earlier = true ->
           packEntries earlier !! make_preferred plat pFileName = None) /\
        cache_looks_into pathID sp = true /\
        packEntries sp !! make_preferred plat pFileName = Some it /\
        packFile sp = Some pack /\ m_pFile pack = Some fp /\
        streams st !! fp = Some f /\
        h = next_address st /\
        st' = mkCFileSystem (m_SearchPaths st)
                (m_OpenedFiles st ++
                 [(next_address st,
                   mkCFileHandle (make_preferred plat pFileName) (Some fp) true
                     (pe_StartOffset it) (pe_Length it))])
                (m_FindFiles st) (m_WarningLevel st) (reported st)
                (<[fp := c_fseek f (pe_StartOffset it) SEEK_SET]> (streams st))
                (S (next_address st))).
    { intros Hhere Hscan.
      destruct (IH Hscan)
        as [(-> & -> & Hnone)|(before & sp & after & it & pack & fp & f & -> & Hrest)].
      - left. repeat split. intros sp Hin. apply elem_of_cons in Hin as [->|Hin]; auto.
      - right. exists (searchPath :: before), sp, after, it, pack, fp, f.
        split; [reflexivity|].
        destruct Hrest as (Hbefore & Hrest). split; [|exact Hrest].
        intros earlier Hin. apply elem_of_cons in Hin as [->|Hin]; auto. }
    unfold cache_looks_into at 1 2 in Hskip.
    destruct (has_flag (flags searchPath) SearchPathFlag.IS_PACK_FILE) eqn:Hpack; simpl;
      [|apply Hskip; discriminate].
    destruct (pathID_excludes pathID searchPath) eqn:Hscope; [apply Hskip; discriminate|].
    destruct (packEntries searchPath !! make_preferred plat pFileName) as [it|] eqn:Hentry;
      [|apply Hskip; reflexivity].
    destruct (packFile searchPath) as [pack|] eqn:Hfile; [|discriminate].
    destruct (m_pFile pack) as [fp|] eqn:Hfp; [|discriminate].
    destruct (streams st !! fp) as [f|] eqn:Hstream; [|discriminate].
    unfold register_handle. simpl. intros [= <- <-].
    right. exists [], searchPath, rest, it, pack, fp, f. split; [reflexivity|].
    split; [intros earlier Hin; apply elem_of_nil in Hin; destruct Hin|].
    unfold cache_looks_into. rewrite Hpack, Hscope. repeat split; assumption.
Qed.

(** X3: a handle that [OpenFromCacheForRead] returns is never a handle on
    a file of a directory: it is the invalid handle with the file system
    as it was, or a view appended to the table of open handles whose
    window is the offset and length of the entry of that name in a search
    path flagged as a pack and in scope, the first one that has the name.
    The view reads the stream of that pack, and no stream is opened for
    it. *)
Theorem OpenFromCacheForRead_gives_a_view_of_a_pack (b : Build) (st st' : CFileSystem)
    (pFileName pOptions : string) (pathID : option string) (h : nat) :
  OpenFromCacheForRead b st (Some pFileName) (Some pOptions) pathID = Some (st', h) ->
  strchr pOptions "w"%char = false ->
  (st' = st /\ h = FILESYSTEM_INVALID_HANDLE) \/
  exists (before : list CSearchPath) (searchPath : CSearchPath) (after : list CSearchPath)
         (it : CPackFileEntry) (pack : CFileHandle) (fp : nat),
    m_SearchPaths st = before ++ searchPath :: after /\
    (forall earlier, earlier ∈ before ->
       cache_looks_into pathID earlier = true ->
       packEntries earlier !! make_preferred (platform b) pFileName = None) /\
    has_flag (flags searchPath) SearchPathFlag.IS_PACK_FILE = true /\
    pathID_excludes pathID searchPath = false /\
    packEntries searchPath !! make_preferred (platform b) pFileName = Some it /\
    packFile searchPath = Some pack /\ m_pFile pack = Some fp /\
    m_OpenedFiles st' =
      m_OpenedFiles st ++
      [(h, mkCFileHandle (make_preferred (platform b) pFileName) (Some fp) true
             (pe_StartOffset it) (pe_Length it))] /\
    dom (streams st') = dom (streams st) /\
    m_SearchPaths st' = m_SearchPaths st.
Proof.
  intros Hopen Hread. unfold OpenFromCacheForRead in Hopen. rewrite Hread in Hopen.
  destruct (OpenFromCacheForRead_scan_result _ _ _ _ _ _ _ Hopen)
    as [(-> & -> & _)|(before & sp & after & it & pack & fp & f & Hpaths & Hbefore & Hlooks
                       & Hentry & Hfile & Hfp & Hstream & -> & ->)].
  - left. split; reflexivity.
  - right. exists before, sp, after, it, pack, fp.
    unfold cache_looks_into in Hlooks. apply andb_true_iff in Hlooks as [Hpack Hscope].
    apply negb_true_iff in Hscope. simpl.
    repeat split; try assumption.
    rewrite dom_insert_L. apply elem_of_dom_2 in Hstream.
    apply set_eq. intros k. rewrite elem_of_union, elem_of_singleton.
    split; [intros [->|Hk]; assumption|intros Hk; right; exact Hk].
Qed.

Lemma OpenFromCacheForRead_gives_a_view_of_a_pack_witness :
  match OpenFromCacheForRead posix_build example_mounted (Some "sound/a.wav") (Some "rb") None
  with
  | Some (st', h) =>
      (st' = example_mounted /\ h = FILESYSTEM_INVALID_HANDLE) \/
      exists (it : CPackFileEntry) (fp : nat),
        m_OpenedFiles st' =
          m_OpenedFiles example_mounted ++
          [(h, mkCFileHandle "sound/a.wav" (Some fp) true (pe_StartOffset it) (pe_Length it))]
  | None => False
  end.
Proof.
  destruct (OpenFromCacheForRead posix_build example_mounted (Some "sound/a.wav")
              (Some "rb") None) as [[st' h]|] eqn:Hopen;
    [|vm_compute in Hopen; discriminate Hopen].
  destruct (OpenFromCacheForRead_gives_a_view_of_a_pack posix_build example_mounted st'
              "sound/a.wav" "rb" None h Hopen eq_refl)
    as [Hnone|(before & sp & after & it & pack & fp & _ & _ & _ & _ & _ & _ & _ & Hfiles & _)].
  - left. exact Hnone.
  - right. exists it, fp. exact Hfiles.
Defined.

(** ** The addresses of handles and streams *)

Lemma addresses_fresh_new (level : Z) : addresses_fresh (new_CFileSystem level).
Proof.
  unfold addresses_fresh. simpl. split; [constructor|]. split.
  - intros address Hin. apply elem_of_nil in Hin. destruct Hin.
  - intros fp [f Hf]. rewrite lookup_empty in Hf. discriminate.
Qed.

Lemma addresses_fresh_Open_scan (plat : Platform) (os : HostOS) (st st' : CFileSystem)
    (searchPaths : list CSearchPath) (pFileName pOptions : string)
    (pathID : option string) (bIsWrite : bool) (h : nat) :
  addresses_fresh st ->
  Open_scan plat os st searchPaths pFileName pOptions pathID bIsWrite = (st', h) ->
  addresses_fresh st' /\ (h <> FILESYSTEM_INVALID_HANDLE -> h ∉ (m_OpenedFiles st).*1).
Proof.
  intros (Hnodup & Hhandles & Hstreams) Hscan.
  destruct (Open_scan_result _ _ _ _ _ _ _ _ _ _ Hscan)
    as [(-> & -> & _)|(before & sp & after & bytes & _ & _ & _ & _ & -> & ->)].
  - split; [split; [|split]; assumption|]. intros Hne. contradiction.
  - split.
    + unfold addresses_fresh. simpl. rewrite fmap_app. simpl. split; [|split].
      * apply NoDup_app. split; [exact Hnodup|].
        split; [|apply NoDup_singleton].
        intros a Ha Habs. apply list_elem_of_singleton in Habs. subst a.
        specialize (Hhandles _ Ha). lia.
      * intros a Ha. apply elem_of_app in Ha as [Ha|Ha];
          [specialize (Hhandles _ Ha); lia|].
        apply list_elem_of_singleton in Ha. lia.
      * intros fp Hfp. apply lookup_insert_is_Some in Hfp as [<-|[_ Hfp]]; [lia|].
        specialize (Hstreams _ Hfp). lia.
    + intros _ Habs. specialize (Hhandles _ Habs). lia.
Qed.

Lemma list_fmap_delete_fst (files : list (nat * CFileHandle)) (i : nat) :
  (delete i files).*1 = delete i (files.*1).
Proof.
  revert i. induction files as [|x files IH]; intros [|i]; simpl; try reflexivity.
  rewrite IH. reflexivity.
Qed.

Lemma addresses_fresh_Close (st : CFileSystem) (file : nat) :
  addresses_fresh st -> addresses_fresh (Close st file).
Proof.
  intros (Hnodup & Hhandles & Hstreams). unfold Close.
  destruct (Nat.eqb file FILESYSTEM_INVALID_HANDLE); [split; [|split]; assumption|].
  destruct (position_of (m_OpenedFiles st) file) as [position|];
    [|split; [|split]; assumption].
  destruct (m_OpenedFiles st !! position) as [[address pFile]|];
    [|split; [|split]; assumption].
  assert (Hstep : forall st1,
            m_OpenedFiles st1 = m_OpenedFiles st ->
            next_address st1 = next_address st ->
            (forall fp, is_Some (streams st1 !! fp) -> is_Some (streams st !! fp)) ->
            addresses_fresh (set_OpenedFiles st1 (delete position (m_OpenedFiles st1)))).
  { intros st1 Hfiles Hnext Hsub. unfold addresses_fresh. simpl. rewrite Hfiles, Hnext.
    rewrite list_fmap_delete_fst. split; [|split].
    - exact (sublist_NoDup _ _ Hnodup (sublist_delete _ _)).
    - intros a Ha. apply Hhandles. eapply list_elem_of_delete_inv. exact Ha.
    - intros fp Hfp. apply Hstreams, Hsub, Hfp. }
  destruct (IsOpen pFile).
  - apply Hstep.
    + rewrite CFileHandle_Close_OpenedFiles. apply Warning_OpenedFiles.
    + unfold CFileHandle_Close, Warning, close_stream.
      destruct (m_pFile pFile); destruct (IsPackEntry pFile);
        destruct (_ <=? m_WarningLevel st); reflexivity.
    + intros fp. unfold CFileHandle_Close, Warning, close_stream.
      destruct (m_pFile pFile); destruct (IsPackEntry pFile);
        destruct (_ <=? m_WarningLevel st); simpl; try (intros H; exact H).
      all: intros H; apply lookup_delete_is_Some in H as [_ H]; exact H.
  - apply Hstep.
    + apply Warning_OpenedFiles.
    + unfold Warning. destruct (_ <=? m_WarningLevel st); reflexivity.
    + intros fp. unfold Warning. destruct (_ <=? m_WarningLevel st); simpl; auto.
Qed.

(** ** What [Close] comes to *)

Lemma position_of_is_Some (files : list (nat * CFileHandle)) (pFile : nat) :
  pFile ∈ files.*1 -> is_Some (position_of files pFile).
Proof.
  induction files as [|[address h] rest IH]; simpl; intros Hin.
  - apply elem_of_nil in Hin. destruct Hin.
  - destruct (Nat.eqb_spec address pFile) as [->|Hne]; [eexists; reflexivity|].
    apply elem_of_cons in Hin as [Heq|Hin]; [congruence|].
    destruct (IH Hin) as [p ->]. eexists; reflexivity.
Qed.

(** [Close] either leaves the file system as it is, for the null handle
    and for a handle that is not in the table, or erases the first handle
    object at that address; one call of [Warning] is made on the way, and
    a plain handle takes its stream with it. *)
Lemma Close_result (st : CFileSystem) (file : nat) :
  (Close st file = st /\
   (file = FILESYSTEM_INVALID_HANDLE \/ file ∉ (m_OpenedFiles st).*1)) \/
  exists (before : list (nat * CFileHandle)) (h : CFileHandle) (after : list (nat * CFileHandle)),
    file <> FILESYSTEM_INVALID_HANDLE /\
    m_OpenedFiles st = before ++ (file, h) :: after /\
    (file ∉ before.*1) /\
    Close st file
    = mkCFileSystem (m_SearchPaths st) (before ++ after) (m_FindFiles st) (m_WarningLevel st)
        (reported
           (if IsOpen h
            then Warning st FILESYSTEM_WARNING_REPORTALLACCESSES
                   (Close_closing_file (m_szFileName h))
            else Warning st FILESYSTEM_WARNING_CRITICAL Close_already_closed))
        (match owned_stream h with
         | Some fp => delete fp (streams st)
         | None => streams st
         end)
        (next_address st).
Proof.
  unfold Close.
  destruct (Nat.eqb_spec file FILESYSTEM_INVALID_HANDLE) as [Heq|Hne];
    [left; split; [reflexivity|left; exact Heq]|].
  destruct (position_of (m_OpenedFiles st) file) as [position|] eqn:Hpos.
  - destruct (position_of_Some _ _ _ Hpos) as (h & Hlook & Hbefore).
    rewrite Hlook. right.
    exists (take position (m_OpenedFiles st)), h, (drop (S position) (m_OpenedFiles st)).
    split; [exact Hne|]. split; [symmetry; apply take_drop_middle; exact Hlook|].
    split; [exact Hbefore|].
    unfold owned_stream, IsOpen, CFileHandle_Close, Warning, close_stream, set_OpenedFiles,
      set_reported, set_streams.
    destruct (m_pFile h) as [fp|]; destruct (IsPackEntry h);
      destruct (_ <=? m_WarningLevel st); simpl; rewrite delete_take_drop; reflexivity.
  - left. split; [reflexivity|]. right. intros Hin.
    destruct (position_of_is_Some _ _ Hin) as [p Hp]. congruence.
Qed.

(** ** The tables stay well formed *)

Lemma well_formed_new (level : Z) : well_formed (new_CFileSystem level).
Proof.
  split; [apply addresses_fresh_new|]. simpl.
  split; [intros file Hin; apply elem_of_nil in Hin; destruct Hin|].
  split; [constructor|].
  split; [intros fp Hin; apply elem_of_nil in Hin; destruct Hin|].
  split; [intros file fp Hin; apply elem_of_nil in Hin; destruct Hin|].
  intros sp Hin. apply elem_of_nil in Hin. destruct Hin.
Qed.

(** Only the registry, the table of open handles, the next address and
    the addresses of the streams matter. *)
Lemma well_formed_same_tables (st st' : CFileSystem) :
  m_SearchPaths st' = m_SearchPaths st ->
  m_OpenedFiles st' = m_OpenedFiles st ->
  next_address st' = next_address st ->
  (forall fp, is_Some (streams st' !! fp) <-> is_Some (streams st !! fp)) ->
  well_formed st -> well_formed st'.
Proof.
  intros Hpaths Hfiles Hnext Hstreams (Hfresh & Hopen & Hnodup & Halive & Hviews & Hpacks).
  unfold well_formed, addresses_fresh. rewrite Hpaths, Hfiles, Hnext.
  destruct Hfresh as (Ha & Hb & Hc).
  repeat split; try assumption.
  - apply Hb; assumption.
  - apply Hb; assumption.
  - intros fp Hfp. apply Hc, Hstreams, Hfp.
  - intros fp Hfp. apply Hstreams, Halive, Hfp.
  - apply (Hviews file fp); assumption.
  - apply (Hviews file fp); assumption.
Qed.

Lemma well_formed_Warning (st : CFileSystem) (level : Z) (msg : WarningMessage) :
  well_formed st -> well_formed (Warning st level msg).
Proof.
  apply well_formed_same_tables; unfold Warning;
    destruct (level <=? m_WarningLevel st); try reflexivity.
Qed.


Lemma handle_streams_app (l1 l2 : list (nat * CFileHandle)) :
  handle_streams (l1 ++ l2) = handle_streams l1 ++ handle_streams l2.
Proof. apply omap_app. Qed.

Lemma pack_streams_app (l1 l2 : list CSearchPath) :
  pack_streams (l1 ++ l2) = pack_streams l1 ++ pack_streams l2.
Proof. apply omap_app. Qed.

Lemma handle_streams_owner (files : list (nat * CFileHandle)) (fp : nat) :
  fp ∈ handle_streams files <->
  exists file, file ∈ files /\ IsPackEntry (snd file) = false /\ m_pFile (snd file) = Some fp.
Proof.
  unfold handle_streams. rewrite list_elem_of_omap. unfold owned_stream.
  split; intros (file & Hin & Hfp); exists file.
  - destruct (IsPackEntry (snd file)); [discriminate|]. repeat split; assumption.
  - destruct Hfp as [-> Hfp]. split; assumption.
Qed.

Lemma well_formed_Open (b : Build) (os : HostOS) (st : CFileSystem)
    (pFileName pOptions pathID : option string) :
  well_formed st -> well_formed (fst (Open b os st pFileName pOptions pathID)).
Proof.
  intros Hwf. unfold Open.
  destruct pFileName as [name|]; [|exact Hwf].
  destruct pOptions as [options|]; [|exact Hwf].
  destruct (Open_scan (platform b) os st (m_SearchPaths st) name options pathID
              (strchr options "w"%char)) as [st' h] eqn:Hscan.
  pose proof Hwf as (Hfresh & Hopen & Hnodup & Halive & Hviews & Hpacks).
  pose proof (addresses_fresh_Open_scan _ _ _ _ _ _ _ _ _ _ Hfresh Hscan) as [Hfresh' _].
  destruct (Open_scan_result _ _ _ _ _ _ _ _ _ _ Hscan)
    as [(-> & -> & _)|(before & sp & after & bytes & _ & _ & _ & _ & -> & ->)];
    [exact Hwf|].
  simpl in *. split; [exact Hfresh'|]. simpl.
  destruct Hfresh as (_ & _ & Hbelow).
  assert (Hnew : next_address st ∉ handle_streams (m_OpenedFiles st)
                                   ++ pack_streams (m_SearchPaths st)).
  { intros Habs. specialize (Hbelow _ (Halive _ Habs)). lia. }
  rewrite handle_streams_app. simpl.
  split; [|split; [|split; [|split]]].
  - intros file Hin. apply elem_of_app in Hin as [Hin|Hin]; [apply Hopen; exact Hin|].
    apply list_elem_of_singleton in Hin. subst file. reflexivity.
  - rewrite <- app_assoc. apply NoDup_app in Hnodup as (Hh & Hdisj & Hp).
    apply NoDup_app. split; [exact Hh|]. split.
    + intros fp Hfp Habs. apply elem_of_cons in Habs as [->|Habs].
      * apply Hnew. apply elem_of_app. left. exact Hfp.
      * exact (Hdisj fp Hfp Habs).
    + apply NoDup_cons. split; [|exact Hp].
      intros Habs. apply Hnew. apply elem_of_app. right. exact Habs.
  - intros fp Hfp. apply lookup_insert_is_Some.
    destruct (decide (next_address st = fp)) as [Heq|Hne]; [left; exact Heq|].
    right. split; [exact Hne|]. apply Halive.
    rewrite <- app_assoc in Hfp. apply elem_of_app in Hfp as [Hfp|Hfp];
      [apply elem_of_app; left; exact Hfp|].
    apply elem_of_cons in Hfp as [->|Hfp]; [congruence|].
    apply elem_of_app. right. exact Hfp.
  - intros file fp Hin Hfp. apply elem_of_app in Hin as [Hin|Hin].
    + destruct (Hviews file fp Hin Hfp) as [Hlt Hview]. split; [lia|].
      intros Hpack Habs. apply elem_of_app in Habs as [Habs|Habs];
        [exact (Hview Hpack Habs)|].
      apply list_elem_of_singleton in Habs. lia.
    + apply list_elem_of_singleton in Hin. subst file. simpl in *.
      injection Hfp as <-. split; [lia|discriminate].
  - exact Hpacks.
Qed.

Lemma well_formed_OpenFromCacheForRead (b : Build) (st st' : CFileSystem)
    (pFileName pOptions pathID : option string) (h : nat) :
  well_formed st ->
  OpenFromCacheForRead b st pFileName pOptions pathID = Some (st', h) ->
  well_formed st'.
Proof.
  intros Hwf. unfold OpenFromCacheForRead.
  destruct pFileName as [name|]; [|intros [= <- <-]; exact Hwf].
  destruct pOptions as [options|]; [|intros [= <- <-]; exact Hwf].
  destruct (strchr options "w"%char); [intros [= <- <-]; apply well_formed_Warning, Hwf|].
  intros Hscan.
  destruct (OpenFromCacheForRead_scan_result _ _ _ _ _ _ _ Hscan)
    as [(-> & -> & _)|(before & sp & after & it & pack & fp & f & Hpaths & _ & _
                       & _ & Hfile & Hfp & Hstream & -> & ->)];
    [exact Hwf|].
  destruct Hwf as ((Ha & Hb & Hc) & Hopen & Hnodup & Halive & Hviews & Hpacks).
  assert (Hpack : fp ∈ pack_streams (m_SearchPaths st)).
  { unfold pack_streams. apply list_elem_of_omap. exists sp. split.
    - rewrite Hpaths. apply elem_of_app. right. apply elem_of_cons. left. reflexivity.
    - rewrite Hfile. simpl. exact Hfp. }
  assert (Hbelow : (fp < next_address st)%nat)
    by (apply Hc; exists f; exact Hstream).
  assert (Hsame : forall fp', is_Some (<[fp := c_fseek f (pe_StartOffset it) SEEK_SET]>
                                         (streams st) !! fp')
                              <-> is_Some (streams st !! fp')).
  { intros fp'. rewrite lookup_insert_is_Some. split.
    - intros [<-|[_ H]]; [exists f; exact Hstream|exact H].
    - intros H. destruct (decide (fp = fp')) as [->|Hne]; [left; reflexivity|right; split; assumption]. }
  unfold well_formed, addresses_fresh. simpl. rewrite fmap_app, handle_streams_app. simpl.
  unfold owned_stream. simpl. rewrite app_nil_r.
  split; [split; [|split]|split; [|split; [|split; [|split]]]].
  - apply NoDup_app. split; [exact Ha|]. split; [|apply NoDup_singleton].
    intros a Ha' Habs. apply list_elem_of_singleton in Habs. subst a.
    specialize (Hb _ Ha'). lia.
  - intros a Ha'. apply elem_of_app in Ha' as [Ha'|Ha'];
      [specialize (Hb _ Ha'); lia|].
    apply list_elem_of_singleton in Ha'. subst a. split; [|lia].
    destruct (next_address st) eqn:Hnext; [|lia]. lia.
  - intros fp' Hfp'. apply Hsame in Hfp'. specialize (Hc _ Hfp'). lia.
  - intros file Hin. apply elem_of_app in Hin as [Hin|Hin]; [apply Hopen; exact Hin|].
    apply list_elem_of_singleton in Hin. subst file. reflexivity.
  - exact Hnodup.
  - intros fp' Hfp'. apply Hsame, Halive, Hfp'.
  - intros file fp' Hin Hfp'. apply elem_of_app in Hin as [Hin|Hin].
    + destruct (Hviews file fp' Hin Hfp') as [Hlt Hview]. split; [lia|exact Hview].
    + apply list_elem_of_singleton in Hin. subst file. simpl in *.
      injection Hfp' as <-. split; [lia|]. intros _ Habs.
      apply NoDup_app in Hnodup as (_ & Hdisj & _). exact (Hdisj fp Habs Hpack).
  - exact Hpacks.
Qed.

Lemma handle_streams_cons (address : nat) (h : CFileHandle) (files : list (nat * CFileHandle)) :
  handle_streams ((address, h) :: files)
  = match owned_stream h with
    | Some fp => fp :: handle_streams files
    | None => handle_streams files
    end.
Proof. reflexivity. Qed.

Lemma well_formed_Close (st : CFileSystem) (file : nat) :
  well_formed st -> well_formed (Close st file).
Proof.
  intros Hwf.
  destruct (Close_result st file) as [[-> _]|(before & h & after & _ & Hfiles & _ & Hclose)];
    [exact Hwf|].
  pose proof Hwf as (Hfresh & Hopen & Hnodup & Halive & Hviews & Hpacks).
  split; [apply addresses_fresh_Close; exact Hfresh|].
  rewrite Hclose. cbn [m_OpenedFiles m_SearchPaths streams next_address]. clear Hclose.
  rewrite Hfiles in *. clear Hfiles.
  rewrite handle_streams_app in *. rewrite handle_streams_cons in *.
  assert (Hkept : forall x, x ∈ before ++ after -> x ∈ before ++ (file, h) :: after).
  { intros x Hin. apply elem_of_app in Hin as [Hin|Hin];
      apply elem_of_app; [left; exact Hin|right; apply elem_of_cons; right; exact Hin]. }
  split; [intros x Hin; apply Hopen, Hkept, Hin|].
  destruct (owned_stream h) as [fp0|] eqn:Howned.
  - rewrite <- app_assoc in Hnodup. simpl in Hnodup.
    apply NoDup_app in Hnodup as (H1 & H2 & H3). apply NoDup_cons in H3 as [H3 H4].
    assert (Hsub : forall fp, fp ∈ (handle_streams before ++ handle_streams after)
                                    ++ pack_streams (m_SearchPaths st) ->
                   fp <> fp0 /\
                   fp ∈ (handle_streams before ++ fp0 :: handle_streams after)
                        ++ pack_streams (m_SearchPaths st)).
    { intros fp. rewrite !elem_of_app, elem_of_cons. intros [[H|H]|H].
      - split; [|tauto]. intros ->. apply (H2 fp0 H). apply elem_of_cons. left. reflexivity.
      - split; [|tauto]. intros ->. apply H3. apply elem_of_app. left. exact H.
      - split; [|tauto]. intros ->. apply H3. apply elem_of_app. right. exact H. }
    split; [|split; [|split]].
    + rewrite <- app_assoc. apply NoDup_app. split; [exact H1|]. split; [|exact H4].
      intros x Hx Habs. apply (H2 x Hx). apply elem_of_cons. right. exact Habs.
    + intros fp Hfp. destruct (Hsub fp Hfp) as [Hne Hold].
      apply lookup_delete_is_Some. split; [congruence|]. apply Halive, Hold.
    + intros x fp Hin Hfp. destruct (Hviews x fp (Hkept x Hin) Hfp) as [Hlt Hview].
      split; [exact Hlt|]. intros Hpack Habs. apply (Hview Hpack).
      apply elem_of_app in Habs. apply elem_of_app.
      destruct Habs as [Habs|Habs]; [left; exact Habs|right; apply elem_of_cons; right; exact Habs].
    + exact Hpacks.
  - split; [exact Hnodup|]. split; [exact Halive|]. split; [|exact Hpacks].
    intros x fp Hin Hfp. exact (Hviews x fp (Hkept x Hin) Hfp).
Qed.

Lemma well_formed_AddSearchPath (b : Build) (st : CFileSystem) (pPath pathID : option string)
    (bReadOnly : bool) :
  well_formed st -> well_formed (fst (AddSearchPath b st pPath pathID bReadOnly)).
Proof.
  intros Hwf. unfold AddSearchPath.
  destruct pPath as [path|]; [|exact Hwf].
  destruct (strstr path ".bsp"); [exact Hwf|].
  destruct (FindSearchPath (m_SearchPaths st) path true pathID); [exact Hwf|].
  destruct Hwf as (Hfresh & Hopen & Hnodup & Halive & Hviews & Hpacks).
  unfold well_formed, addresses_fresh. simpl. rewrite pack_streams_app. simpl.
  rewrite app_nil_r.
  split; [exact Hfresh|]. split; [exact Hopen|]. split; [exact Hnodup|].
  split; [exact Halive|]. split; [exact Hviews|].
  intros sp Hin. apply elem_of_app in Hin as [Hin|Hin]; [apply Hpacks; exact Hin|].
  apply list_elem_of_singleton in Hin. subst sp. simpl.
  destruct bReadOnly; discriminate.
Qed.

(** ** What mounting a pack comes to *)

(** [ProcessPackFile] reports once, at the critical level, when it
    fails, and nothing when it succeeds; it succeeds exactly when the
    header can be read, the length of the directory is a multiple of the
    size of a record, the number of records is within the ceiling, and
    all records can be read. *)
Lemma ProcessPackFile_result (plat : Platform) (layout : PackLayout)
    (st st' : CFileSystem) (pszFileName : string) (pFile pFile' : FILE)
    (entries : gmap string CPackFileEntry) (result : option (gmap string CPackFileEntry)) :
  ProcessPackFile plat layout st pszFileName pFile entries = (st', pFile', result) ->
  match result with
  | None => exists msg, st' = Warning st FILESYSTEM_WARNING_CRITICAL msg
  | Some entries' =>
      st' = st /\
      exists header pFile1 bytes,
        c_fread (sizeof_Header_t layout) 1 pFile = (1, header, pFile1) /\
        snd (header_dir layout header) mod sizeof_Entry_t layout = 0 /\
        snd (header_dir layout header) / sizeof_Entry_t layout <= MAX_FILES layout /\
        c_fread (sizeof_Entry_t layout)
          (snd (header_dir layout header) / sizeof_Entry_t layout)
          (c_fseek pFile1 (fst (header_dir layout header)) SEEK_SET)
        = (snd (header_dir layout header) / sizeof_Entry_t layout, bytes, pFile') /\
        entries' =
          emplace_pack_entries plat
            (map (entry_of_bytes layout)
               (records_of_bytes (Z.to_nat (sizeof_Entry_t layout))
                  (Z.to_nat (snd (header_dir layout header) / sizeof_Entry_t layout)) bytes))
            entries
  end.
Proof.
  unfold ProcessPackFile.
  destruct (c_fread (sizeof_Header_t layout) 1 pFile) as [[got header] pFile1] eqn:Hhead.
  destruct (Z.eqb_spec got 1) as [->|_]; simpl;
    [|intros [= <- _ <-]; eexists; reflexivity].
  destruct (header_dir layout header) as [dirofs dirlen] eqn:Hdir. simpl.
  destruct (Z.eqb_spec (dirlen mod sizeof_Entry_t layout) 0) as [Hmod|_]; simpl;
    [|intros [= <- _ <-]; eexists; reflexivity].
  destruct (Z.gtb_spec (dirlen / sizeof_Entry_t layout) (MAX_FILES layout)) as [_|Hmax];
    [intros [= <- _ <-]; eexists; reflexivity|].
  destruct (c_fread (sizeof_Entry_t layout) (dirlen / sizeof_Entry_t layout)
              (c_fseek pFile1 dirofs SEEK_SET)) as [[read bytes] pFile3] eqn:Hrecords.
  destruct (Z.eqb_spec read (dirlen / sizeof_Entry_t layout)) as [->|_]; simpl;
    [|intros [= <- _ <-]; eexists; reflexivity].
  intros [= <- <- <-]. split; [reflexivity|].
  exists header, pFile1, bytes. rewrite Hdir. simpl.
  split; [reflexivity|]. split; [exact Hmod|].
  split; [lia|]. split; [exact Hrecords|reflexivity].
Qed.

(** [AddPackFile] either fails, and then nothing but what was reported
    has changed, by one message at the critical level at most: the stream
    it opened is closed again; or it succeeds, and then one stream is
    open more, owned by the one search path appended to the registry. *)
Lemma AddPackFile_result (b : Build) (pk : PackFile_h) (os : HostOS) (st st' : CFileSystem)
    (fullpath pathID : option string) (ok : bool) :
  AddPackFile b pk os st fullpath pathID = (st', ok) ->
  if ok then
    exists name bytes header file1 file2 entries,
      fullpath = Some name /\
      c_fopen os name "rb" = Some bytes /\
      c_fread (sizeof_pack_Header_t pk) 1 (mkFILE bytes 0) = (1, header, file1) /\
      IdentifyPackType pk header <> NOT_A_PACK /\
      ProcessPackFile (platform b) (layout_of pk (IdentifyPackType pk header)) st name
        (c_rewind file1) ∅ = (st, file2, Some entries) /\
      st' = mkCFileSystem
              (m_SearchPaths st ++
               [mkCSearchPath
                  (strncpy_terminated (sizeof_szPath b) (make_preferred (platform b) name))
                  pathID
                  (Z.lor SearchPathFlag.READ_ONLY SearchPathFlag.IS_PACK_FILE)
                  (Some (mkCFileHandle name (Some (next_address st)) false 0 (f_size file2)))
                  entries])
              (m_OpenedFiles st) (m_FindFiles st) (m_WarningLevel st) (reported st)
              (<[next_address st := file2]> (streams st))
              (S (next_address st))
  else
    st' = st \/ exists msg, st' = Warning st FILESYSTEM_WARNING_CRITICAL msg.
Proof.
  unfold AddPackFile. destruct fullpath as [name|]; [|intros [= <- <-]; left; reflexivity].
  destruct (c_fopen os name "rb") as [bytes|] eqn:Hopen; [|intros [= <- <-]; left; reflexivity].
  destruct (c_fread (sizeof_pack_Header_t pk) 1 (mkFILE bytes 0)) as [[got header] file1]
    eqn:Hread.
  destruct (Z.eqb_spec got 1) as [->|_]; simpl;
    [|intros [= <- <-]; right; eexists; reflexivity].
  destruct (IdentifyPackType pk header) eqn:Htype;
    [intros [= <- <-]; right; eexists; reflexivity| |].
  all: destruct (ProcessPackFile _ _ st name (c_rewind file1) ∅)
         as [[st1 file2] [entries|]] eqn:Hprocess.
  all: pose proof (ProcessPackFile_result _ _ _ _ _ _ _ _ _ Hprocess) as Hresult.
  all: simpl in Hresult.
  all: try (intros [= <- <-]; right; exact Hresult).
  all: destruct Hresult as [-> _]; intros [= <- <-].
  all: exists name, bytes, header, file1, file2, entries.
  all: rewrite Htype; simpl.
  all: repeat split; try assumption; try discriminate.
Qed.

Lemma well_formed_AddPackFile (b : Build) (pk : PackFile_h) (os : HostOS) (st : CFileSystem)
    (fullpath pathID : option string) :
  well_formed st -> well_formed (fst (AddPackFile b pk os st fullpath pathID)).
Proof.
  intros Hwf.
  destruct (AddPackFile b pk os st fullpath pathID) as [st' ok] eqn:Hadd.
  apply AddPackFile_result in Hadd. simpl. destruct ok.
  - destruct Hadd as (name & bytes & header & file1 & file2 & entries & _ & _ & _ & _ & _ & ->).
    destruct Hwf as ((Ha & Hb & Hc) & Hopen & Hnodup & Halive & Hviews & Hpacks).
    assert (Hnew : next_address st ∉ handle_streams (m_OpenedFiles st)
                                     ++ pack_streams (m_SearchPaths st)).
    { intros Habs. specialize (Hc _ (Halive _ Habs)). lia. }
    unfold well_formed, addresses_fresh. simpl. rewrite pack_streams_app. simpl.
    split; [split; [|split]|split; [|split; [|split; [|split]]]].
    + exact Ha.
    + intros a Hin. specialize (Hb a Hin). lia.
    + intros fp Hfp. apply lookup_insert_is_Some in Hfp as [<-|[_ Hfp]]; [lia|].
      specialize (Hc _ Hfp). lia.
    + exact Hopen.
    + rewrite app_assoc. apply NoDup_app. split; [exact Hnodup|].
      split; [|apply NoDup_singleton].
      intros fp Hfp Habs. apply list_elem_of_singleton in Habs. subst fp. exact (Hnew Hfp).
    + intros fp Hfp. apply lookup_insert_is_Some.
      destruct (decide (next_address st = fp)) as [Heq|Hne]; [left; exact Heq|].
      right. split; [exact Hne|]. apply Halive.
      rewrite app_assoc in Hfp. apply elem_of_app in Hfp as [Hfp|Hfp]; [exact Hfp|].
      apply list_elem_of_singleton in Hfp. congruence.
    + intros file fp Hin Hfp. destruct (Hviews file fp Hin Hfp) as [Hlt Hview].
      split; [lia|exact Hview].
    + intros sp Hin. apply elem_of_app in Hin as [Hin|Hin]; [apply Hpacks; exact Hin|].
      apply list_elem_of_singleton in Hin. subst sp. simpl. intros _. eexists; reflexivity.
  - destruct Hadd as [->|[msg ->]]; [exact Hwf|apply well_formed_Warning, Hwf].
Qed.

(** ** What unmounting comes to *)

Lemma FindSearchPath_Some (paths : list CSearchPath) (pszPath : string)
    (bCheckPathID : bool) (pathID : option string) (i : nat) :
  FindSearchPath paths pszPath bCheckPathID pathID = Some i ->
  exists before it after,
    paths = before ++ it :: after /\ length before = i /\
    FindSearchPath_fits pszPath bCheckPathID pathID it = true /\
    forall earlier, earlier ∈ before ->
      FindSearchPath_fits pszPath bCheckPathID pathID earlier = false.
Proof.
  revert i. induction paths as [|it rest IH]; intros i; simpl; [discriminate|].
  fold (FindSearchPath_fits pszPath bCheckPathID pathID it).
  destruct (FindSearchPath_fits pszPath bCheckPathID pathID it) eqn:Hfits.
  - intros [= <-]. exists [], it, rest. repeat split; [exact Hfits|].
    intros earlier Hin. apply elem_of_nil in Hin. destruct Hin.
  - destruct (FindSearchPath rest pszPath bCheckPathID pathID) as [j|]; [|discriminate].
    simpl. intros [= <-]. destruct (IH j eq_refl) as (before & it' & after & -> & <- & Hit & Hbefore).
    exists (it :: before), it', after. repeat split; [exact Hit|].
    intros earlier Hin. apply elem_of_cons in Hin as [->|Hin]; [exact Hfits|auto].
Qed.

Lemma FindSearchPath_None (paths : list CSearchPath) (pszPath : string)
    (bCheckPathID : bool) (pathID : option string) :
  FindSearchPath paths pszPath bCheckPathID pathID = None <->
  forall it, it ∈ paths -> FindSearchPath_fits pszPath bCheckPathID pathID it = false.
Proof.
  induction paths as [|it rest IH]; simpl.
  - split; [|reflexivity]. intros _ it Hin. apply elem_of_nil in Hin. destruct Hin.
  - fold (FindSearchPath_fits pszPath bCheckPathID pathID it).
    destruct (FindSearchPath_fits pszPath bCheckPathID pathID it) eqn:Hfits.
    + split; [discriminate|]. intros Hall.
      rewrite (Hall it) in Hfits; [discriminate|apply elem_of_cons; left; reflexivity].
    + destruct (FindSearchPath rest pszPath bCheckPathID pathID) as [j|]; simpl.
      * split; [discriminate|]. intros Hall. exfalso.
        assert (Hnone : Some j = None); [|discriminate].
        apply IH. intros x Hx. apply Hall. apply elem_of_cons. right. exact Hx.
      * split; [|reflexivity]. intros _ x Hx.
        apply elem_of_cons in Hx as [->|Hx]; [exact Hfits|]. apply IH; [reflexivity|exact Hx].
Qed.

(** The first element of a list that fits is one element. *)
Lemma first_fit_unique {A : Type} (fits : A -> Prop) (before before' : list A) (it it' : A)
    (after after' : list A) :
  before ++ it :: after = before' ++ it' :: after' ->
  (forall earlier, earlier ∈ before -> ~ fits earlier) -> fits it ->
  (forall earlier, earlier ∈ before' -> ~ fits earlier) -> fits it' ->
  before = before' /\ it = it' /\ after = after'.
Proof.
  revert before'. induction before as [|x before IH]; intros [|y before'] Heq Hbefore Hit
    Hbefore' Hit'; simpl in Heq.
  - injection Heq as -> ->. repeat split.
  - injection Heq as -> _. exfalso. apply (Hbefore' y); [|exact Hit].
    apply elem_of_cons. left. reflexivity.
  - injection Heq as -> _. exfalso. apply (Hbefore it'); [|exact Hit'].
    apply elem_of_cons. left. reflexivity.
  - injection Heq as -> Heq.
    destruct (IH before' Heq
                (fun e He => Hbefore e (proj2 (elem_of_cons _ _ _) (or_intror He))) Hit
                (fun e He => Hbefore' e (proj2 (elem_of_cons _ _ _) (or_intror He))) Hit')
      as (-> & -> & ->).
    repeat split.
Qed.

(** [RemoveSearchPath] erases the first search path whose location is
    the path without regard to case, whatever its tag, and with it the
    stream of its pack; or it changes nothing. *)
Lemma RemoveSearchPath_result (st st' : CFileSystem) (pPath : option string) (ok : bool) :
  RemoveSearchPath st pPath = (st', ok) ->
  if ok then
    exists path before it after,
      pPath = Some path /\
      m_SearchPaths st = before ++ it :: after /\
      stricmp path (szPath it) = 0 /\
      (forall earlier, earlier ∈ before -> stricmp path (szPath earlier) <> 0) /\
      st' = mkCFileSystem (before ++ after) (m_OpenedFiles st) (m_FindFiles st)
              (m_WarningLevel st) (reported st)
              (match packFile it ≫= m_pFile with
               | Some fp => delete fp (streams st)
               | None => streams st
               end)
              (next_address st)
  else
    st' = st /\
    match pPath with
    | Some path => forall it, it ∈ m_SearchPaths st -> stricmp path (szPath it) <> 0
    | None => True
    end.
Proof.
  unfold RemoveSearchPath. destruct pPath as [path|]; [|intros [= <- <-]; split; exact I || reflexivity].
  destruct (FindSearchPath (m_SearchPaths st) path false None) as [i|] eqn:Hfind.
  - intros [= <- <-].
    destruct (FindSearchPath_Some _ _ _ _ _ Hfind) as (before & it & after & Hpaths & <- & Hit & Hbefore).
    exists path, before, it, after. split; [reflexivity|]. split; [exact Hpaths|].
    unfold FindSearchPath_fits in *. simpl in *. rewrite andb_true_r in Hit.
    split; [apply Z.eqb_eq; exact Hit|]. split.
    + intros earlier Hin. specialize (Hbefore earlier Hin). rewrite andb_true_r in Hbefore.
      apply Z.eqb_neq. exact Hbefore.
    + rewrite Hpaths. rewrite list_lookup_middle by reflexivity.
      rewrite delete_middle.
      unfold destroy_search_path, close_stream, set_SearchPaths, set_streams.
      destruct (packFile it) as [h|]; simpl; [|reflexivity].
      destruct (m_pFile h); reflexivity.
  - intros [= <- <-]. split; [reflexivity|].
    intros it Hin. apply FindSearchPath_None with (it := it) in Hfind; [|exact Hin].
    unfold FindSearchPath_fits in Hfind. simpl in Hfind. rewrite andb_true_r in Hfind.
    apply Z.eqb_neq. exact Hfind.
Qed.

Lemma well_formed_RemoveSearchPath (st : CFileSystem) (pPath : option string) :
  well_formed st -> well_formed (fst (RemoveSearchPath st pPath)).
Proof.
  intros Hwf.
  destruct (RemoveSearchPath st pPath) as [st' ok] eqn:Hremove.
  apply RemoveSearchPath_result in Hremove. simpl. destruct ok.
  - destruct Hremove as (path & before & it & after & _ & Hpaths & _ & _ & ->).
    destruct Hwf as ((Ha & Hb & Hc) & Hopen & Hnodup & Halive & Hviews & Hpacks).
    rewrite Hpaths in *. rewrite pack_streams_app in *.
    assert (Hkept : forall fp, fp ∈ handle_streams (m_OpenedFiles st)
                                    ++ pack_streams before ++ pack_streams after ->
                    fp ∈ handle_streams (m_OpenedFiles st)
                         ++ pack_streams before ++ pack_streams (it :: after)).
    { intros fp. rewrite !elem_of_app. unfold pack_streams at 4. simpl.
      fold (pack_streams after).
      destruct (packFile it ≫= m_pFile); [rewrite elem_of_cons|]; tauto. }
    unfold well_formed, addresses_fresh. simpl. rewrite pack_streams_app.
    split; [split; [exact Ha|split; [exact Hb|]]|split; [exact Hopen|split; [|split; [|split]]]].
    + intros fp Hfp. apply Hc.
      destruct (packFile it ≫= m_pFile); [|exact Hfp].
      apply lookup_delete_is_Some in Hfp as [_ Hfp]. exact Hfp.
    + unfold pack_streams at 2 in Hnodup. simpl in Hnodup. fold (pack_streams after) in Hnodup.
      destruct (packFile it ≫= m_pFile) as [fp0|]; [|exact Hnodup].
      rewrite app_assoc in Hnodup |- *.
      apply NoDup_app in Hnodup as (H1 & H2 & H3). apply NoDup_cons in H3 as [_ H3].
      apply NoDup_app. split; [exact H1|]. split; [|exact H3].
      intros x Hx Habs. apply (H2 x Hx). apply elem_of_cons. right. exact Habs.
    + intros fp Hfp. pose proof (Halive fp (Hkept fp Hfp)) as Hthere.
      unfold pack_streams at 2 in Hnodup. simpl in Hnodup. fold (pack_streams after) in Hnodup.
      destruct (packFile it ≫= m_pFile) as [fp0|]; [|exact Hthere].
      apply lookup_delete_is_Some. split; [|exact Hthere]. intros ->.
      rewrite app_assoc in Hnodup, Hfp.
      apply NoDup_app in Hnodup as (H1 & H2 & H3). apply NoDup_cons in H3 as [H3 _].
      apply elem_of_app in Hfp as [Hfp|Hfp]; [|exact (H3 Hfp)].
      apply (H2 fp Hfp). apply elem_of_cons. left. reflexivity.
    + exact Hviews.
    + intros sp Hin. apply Hpacks. apply elem_of_app in Hin as [Hin|Hin];
        apply elem_of_app; [left; exact Hin|right; apply elem_of_cons; right; exact Hin].
  - destruct Hremove as [-> _]. exact Hwf.
Qed.

(** [RemoveAllSearchPaths] closes the stream of every pack of the
    registry and no other stream. *)
Lemma destroy_search_paths_result (paths : list CSearchPath) (st : CFileSystem) :
  exists closed,
    fold_left destroy_search_path paths st = set_streams st closed /\
    forall fp, is_Some (closed !! fp) <->
               is_Some (streams st !! fp) /\ fp ∉ pack_streams paths.
Proof.
  revert st. induction paths as [|sp rest IH]; intros st; simpl.
  - exists (streams st). split; [destruct st; reflexivity|].
    intros fp. split; [intros H; split; [exact H|apply not_elem_of_nil]|intros [H _]; exact H].
  - destruct (IH (destroy_search_path st sp)) as (closed & -> & Hclosed).
    exists closed. split.
    + unfold destroy_search_path, close_stream.
      destruct (packFile sp) as [h|]; [|reflexivity]. destruct (m_pFile h); reflexivity.
    + intros fp. rewrite Hclosed. unfold pack_streams. simpl. fold (pack_streams rest).
      unfold destroy_search_path, close_stream.
      destruct (packFile sp) as [h|]; simpl; [|tauto].
      destruct (m_pFile h) as [fp0|]; simpl; [|tauto].
      rewrite lookup_delete_is_Some, not_elem_of_cons. split; [intros [[? ?] ?]|intros [? [? ?]]];
        repeat split; try assumption; congruence.
Qed.

Lemma well_formed_RemoveAllSearchPaths (st : CFileSystem) :
  well_formed st -> well_formed (RemoveAllSearchPaths st).
Proof.
  intros ((Ha & Hb & Hc) & Hopen & Hnodup & Halive & Hviews & Hpacks).
  unfold RemoveAllSearchPaths.
  destruct (destroy_search_paths_result (m_SearchPaths st) st) as (closed & -> & Hclosed).
  unfold well_formed, addresses_fresh. simpl. rewrite app_nil_r.
  split; [split; [exact Ha|split; [exact Hb|]]|split; [exact Hopen|split; [|split; [|split]]]].
  - intros fp Hfp. apply Hc. apply Hclosed in Hfp as [Hfp _]. exact Hfp.
  - apply NoDup_app in Hnodup as (H1 & _ & _). exact H1.
  - intros fp Hfp. apply Hclosed. split.
    + apply Halive. apply elem_of_app. left. exact Hfp.
    + apply NoDup_app in Hnodup as (_ & H2 & _). exact (H2 fp Hfp).
  - exact Hviews.
  - intros sp Hin. apply elem_of_nil in Hin. destruct Hin.
Qed.

(** ** Operations on the tables of cursors and on streams *)









(** ** Using the handles of the table *)

Lemma dereference_table (st : CFileSystem) (file : nat) (h : CFileHandle) :
  addresses_fresh st ->
  (file, h) ∈ m_OpenedFiles st ->
  file <> FILESYSTEM_INVALID_HANDLE /\ dereference st file = HandleObject h.
Proof.
  intros (Hnodup & Hhandles & _) Hin.
  assert (Hfst : file ∈ (m_OpenedFiles st).*1).
  { apply list_elem_of_fmap. exists (file, h). split; [reflexivity|exact Hin]. }
  pose proof (Hhandles _ Hfst) as Hpos.
  split; [unfold FILESYSTEM_INVALID_HANDLE; lia|].
  unfold dereference. destruct (Nat.eqb_spec file 0) as [->|_]; [lia|].
  destruct (position_of_is_Some _ _ Hfst) as [p Hp]. rewrite Hp.
  destruct (position_of_Some _ _ _ Hp) as (h' & Hlook & _). rewrite Hlook.
  apply list_elem_of_lookup in Hin as [j Hj].
  assert (H1 : (m_OpenedFiles st).*1 !! p = Some file)
    by (rewrite list_lookup_fmap, Hlook; reflexivity).
  assert (H2 : (m_OpenedFiles st).*1 !! j = Some file)
    by (rewrite list_lookup_fmap, Hj; reflexivity).
  pose proof (NoDup_lookup _ _ _ _ Hnodup H1 H2) as ->. congruence.
Qed.

(** The stream of a handle of the table that is plain, or a view of a
    pack that is still in the registry, is there. *)
Lemma open_handle_stream (st : CFileSystem) (file : nat) (h : CFileHandle) :
  well_formed st ->
  (file, h) ∈ m_OpenedFiles st ->
  (IsPackEntry h = true ->
   exists fp, m_pFile h = Some fp /\ fp ∈ pack_streams (m_SearchPaths st)) ->
  exists fp f, m_pFile h = Some fp /\ streams st !! fp = Some f.
Proof.
  intros (_ & Hopen & _ & Halive & _) Hin Hview.
  pose proof (Hopen _ Hin) as Hisopen. unfold IsOpen in Hisopen. simpl in Hisopen.
  destruct (m_pFile h) as [fp|] eqn:Hfp; [|discriminate].
  assert (Hthere : is_Some (streams st !! fp)).
  { apply Halive. apply elem_of_app. destruct (IsPackEntry h) eqn:Hpack.
    - right. destruct (Hview eq_refl) as (fp' & [= <-] & Hin'). exact Hin'.
    - left. apply handle_streams_owner. exists (file, h). repeat split; assumption. }
  destruct Hthere as [f Hf]. exists fp, f. split; [reflexivity|exact Hf].
Qed.

(** X5: in a well-formed file system every handle of the table can be
    used, as long as it is a plain handle or a view of a pack that is still
    mounted: the handle is not null, the object behind it is open and its
    stream is there, so that [Seek], [Tell], [Read], [ReadLine],
    [EndOfFile] and [Size] are all defined on it, none of them takes it
    for a null handle or for a handle that is not open, and nothing is
    reported. *)
Theorem open_handles_can_be_used (c_feof : FILE -> bool) (st : CFileSystem) (file : nat)
    (h : CFileHandle) :
  well_formed st ->
  (file, h) ∈ m_OpenedFiles st ->
  (IsPackEntry h = true ->
   exists fp, m_pFile h = Some fp /\ fp ∈ pack_streams (m_SearchPaths st)) ->
  file <> FILESYSTEM_INVALID_HANDLE /\
  dereference st file = HandleObject h /\
  (forall pos seekType origin,
     Seek_origin seekType = Some origin ->
     exists st', Seek st file pos seekType = Some st' /\ reported st' = reported st) /\
  (exists position, Tell st file = Some (st, position)) /\
  (forall size, exists st' result bytes,
     Read st size file = Some (st', result, bytes) /\ reported st' = reported st) /\
  (forall maxChars, exists st' line,
     ReadLine st maxChars file = Some (passes (st', line)) /\ reported st' = reported st) /\
  (exists eof, EndOfFile c_feof st file = Some (passes eof)) /\
  Size_by_handle st file = Some (passes (to_uint (GetLength h))).
Proof.
  intros Hwf Hin Hview.
  destruct (dereference_table st file h (proj1 Hwf) Hin) as [Hne Hderef].
  destruct (open_handle_stream st file h Hwf Hin Hview) as (fp & f & Hfp & Hstream).
  split; [exact Hne|]. split; [exact Hderef|].
  split; [|split; [|split; [|split; [|split]]]].
  - intros pos seekType origin Horigin. unfold Seek. rewrite Hderef, Hfp.
    assert (Hadj : exists pos1 seekType1 origin1,
              Seek_adjust h pos seekType = (pos1, seekType1) /\
              Seek_origin seekType1 = Some origin1).
    { unfold Seek_adjust. destruct (IsPackEntry h); [|eexists _, _, _; split; [reflexivity|exact Horigin]].
      destruct seekType; try discriminate; eexists _, _, _; split; reflexivity. }
    destruct Hadj as (pos1 & seekType1 & origin1 & -> & ->). rewrite Hstream.
    eexists. split; reflexivity.
  - unfold Tell. rewrite Hderef, Hfp, Hstream.
    destruct (IsPackEntry h); eexists; reflexivity.
  - intros size. unfold Read. rewrite Hderef, Hfp, Hstream.
    destruct (c_fread 1 (to_size_t size) f) as [[got data] f1].
    destruct (IsPackEntry h); [|eexists _, _, _; split; reflexivity].
    destruct (GetLength h =? 0); [eexists _, _, _; split; reflexivity|].
    destruct (_ >=? GetLength h); eexists _, _, _; split; reflexivity.
  - intros maxChars. unfold ReadLine. rewrite Hderef, Hfp, Hstream.
    assert (Hfgets : forall n, exists st' line,
              (let '(line, f1) := c_fgets n f in
               Some (passes (set_streams st (<[fp := f1]> (streams st)), line)))
              = Some (passes (st', line)) /\ reported st' = reported st).
    { intros n. destruct (c_fgets n f) as [l f1]. eexists _, _. split; reflexivity. }
    destruct (IsPackEntry h); [|apply Hfgets].
    destruct (GetLength h =? 0); [eexists _, _; split; reflexivity|].
    destruct (_ >=? GetLength h); [eexists _, _; split; reflexivity|].
    destruct (_ >=? _); apply Hfgets.
  - unfold EndOfFile. rewrite Hderef, Hfp, Hstream.
    destruct (IsPackEntry h); eexists; reflexivity.
  - unfold Size_by_handle. rewrite Hderef, Hfp. reflexivity.
Qed.

(** ** Closing an open handle *)

Lemma table_entry_unique (files : list (nat * CFileHandle)) (file : nat) (h h' : CFileHandle) :
  NoDup files.*1 -> (file, h) ∈ files -> (file, h') ∈ files -> h = h'.
Proof.
  intros Hnodup Hin Hin'.
  apply list_elem_of_lookup in Hin as [i Hi]. apply list_elem_of_lookup in Hin' as [j Hj].
  assert (H1 : files.*1 !! i = Some file) by (rewrite list_lookup_fmap, Hi; reflexivity).
  assert (H2 : files.*1 !! j = Some file) by (rewrite list_lookup_fmap, Hj; reflexivity).
  pose proof (NoDup_lookup _ _ _ _ Hnodup H1 H2) as ->. congruence.
Qed.

(** X6: [Close] on a handle of the table of a well-formed file system
    erases that handle object and no other; it reports the closing of the
    file and never a handle that is already closed; a plain handle takes
    its stream with it and a view leaves the stream of the pack open; the
    file system stays well formed, and a second [Close] of the handle
    changes nothing. *)
Theorem Close_of_an_open_handle (st : CFileSystem) (file : nat) (h : CFileHandle) :
  well_formed st ->
  (file, h) ∈ m_OpenedFiles st ->
  (forall x, x ∈ m_OpenedFiles (Close st file) <-> x ∈ m_OpenedFiles st /\ x <> (file, h)) /\
  reported (Close st file)
  = reported (Warning st FILESYSTEM_WARNING_REPORTALLACCESSES
                (Close_closing_file (m_szFileName h))) /\
  streams (Close st file)
  = match owned_stream h with
    | Some fp => delete fp (streams st)
    | None => streams st
    end /\
  m_SearchPaths (Close st file) = m_SearchPaths st /\
  well_formed (Close st file) /\
  Close (Close st file) file = Close st file.
Proof.
  intros Hwf Hin.
  pose proof (well_formed_Close st file Hwf) as Hwf'.
  pose proof Hwf as ((Hnodup & Hhandles & _) & Hopen & _).
  destruct (dereference_table st file h (proj1 Hwf) Hin) as [Hne _].
  destruct (Close_result st file)
    as [[_ [Hnull|Hnot]]|(before & h' & after & _ & Hfiles & Hbefore & Hclose)].
  - contradiction.
  - exfalso. apply Hnot. apply list_elem_of_fmap. exists (file, h). split; [reflexivity|exact Hin].
  - assert (h' = h) as ->.
    { apply (table_entry_unique (m_OpenedFiles st) file); [exact Hnodup| |exact Hin].
      rewrite Hfiles. apply elem_of_app. right. apply elem_of_cons. left. reflexivity. }
    pose proof (Hopen _ Hin) as Hisopen. simpl in Hisopen. rewrite Hisopen in Hclose.
    rewrite Hfiles in Hnodup. rewrite fmap_app in Hnodup.
    simpl in Hnodup. apply NoDup_app in Hnodup as (_ & Hdisj & Hrest).
    apply NoDup_cons in Hrest as [Hafter _].
    assert (Hgone : file ∉ (before ++ after).*1).
    { rewrite fmap_app. intros Habs. apply elem_of_app in Habs as [Habs|Habs];
        [exact (Hbefore Habs)|exact (Hafter Habs)]. }
    split; [|split; [|split; [|split; [|split]]]].
    + intros x. rewrite Hclose, Hfiles. simpl. rewrite !elem_of_app, elem_of_cons. split.
      * intros Hx. split; [tauto|]. intros ->. apply Hgone.
        apply list_elem_of_fmap. exists (file, h). split; [reflexivity|].
        apply elem_of_app. exact Hx.
      * intros [[Hx|[Hx|Hx]] Hneq]; [left; exact Hx|contradiction|right; exact Hx].
    + rewrite Hclose. reflexivity.
    + rewrite Hclose. reflexivity.
    + rewrite Hclose. reflexivity.
    + exact Hwf'.
    + destruct (Close_result (Close st file) file)
        as [[Hsame _]|(before' & h'' & after' & _ & Hfiles' & _)]; [exact Hsame|].
      exfalso. apply Hgone. rewrite Hclose in Hfiles'. simpl in Hfiles'. rewrite Hfiles'.
      rewrite fmap_app. apply elem_of_app. right. simpl. apply elem_of_cons. left. reflexivity.
Qed.

(** ** Opening and closing again *)

Lemma append_decomposition (files before after : list (nat * CFileHandle)) (file : nat)
    (h h' : CFileHandle) :
  files ++ [(file, h)] = before ++ (file, h') :: after ->
  file ∉ files.*1 ->
  before = files /\ h' = h /\ after = [].
Proof.
  revert before. induction files as [|x files IH]; intros before Heq Hnot.
  - destruct before as [|y before]; simpl in Heq.
    + injection Heq as <- <-. repeat split.
    + injection Heq as _ Heq. destruct before; discriminate.
  - destruct before as [|y before]; simpl in Heq.
    + injection Heq as -> _. exfalso. apply Hnot. simpl. apply elem_of_cons. left. reflexivity.
    + injection Heq as <- Heq. simpl in Hnot. apply not_elem_of_cons in Hnot as [_ Hnot].
      destruct (IH before Heq Hnot) as (-> & -> & ->). repeat split.
Qed.

(** X7: a file opened by [Open] and closed again leaves the file system
    as it was before: the table of open handles, the streams, the registry
    and the cursors are the same, [PrintOpenedFiles] reports what it
    reported before, and only the allocator has moved on and the closing
    may have been reported. *)
Theorem Open_then_Close (b : Build) (os : HostOS) (st st' : CFileSystem)
    (pFileName pOptions pathID : option string) (h : nat) :
  addresses_fresh st ->
  Open b os st pFileName pOptions pathID = (st', h) ->
  h <> FILESYSTEM_INVALID_HANDLE ->
  m_OpenedFiles (Close st' h) = m_OpenedFiles st /\
  streams (Close st' h) = streams st /\
  m_SearchPaths (Close st' h) = m_SearchPaths st /\
  m_FindFiles (Close st' h) = m_FindFiles st /\
  PrintOpenedFiles (Close st' h) = PrintOpenedFiles st /\
  exists name,
    reported (Close st' h)
    = reported (Warning st FILESYSTEM_WARNING_REPORTALLACCESSES (Close_closing_file name)).
Proof.
  intros (Hnodup & Hhandles & Hstreams) Hopen Hne. unfold Open in Hopen.
  destruct pFileName as [name|]; [|injection Hopen as _ <-; contradiction].
  destruct pOptions as [options|]; [|injection Hopen as _ <-; contradiction].
  destruct (Open_scan_result _ _ _ _ _ _ _ _ _ _ Hopen)
    as [(_ & -> & _)|(before & sp & after & bytes & _ & _ & _ & _ & -> & ->)];
    [contradiction|].
  assert (Hfresh : S (next_address st) ∉ (m_OpenedFiles st).*1).
  { intros Habs. specialize (Hhandles _ Habs). lia. }
  assert (Hnone : streams st !! next_address st = None).
  { destruct (streams st !! next_address st) eqn:Hlook; [|reflexivity].
    assert (Hsome : is_Some (streams st !! next_address st)) by (eexists; exact Hlook).
    specialize (Hstreams _ Hsome). lia. }
  match goal with
  | |- context [Close ?s ?a] =>
      destruct (Close_result s a)
        as [[_ [Hnull|Hnot]]|(before' & h' & after' & _ & Hfiles & Hbefore & ->)]
  end.
  - contradiction.
  - exfalso. apply Hnot. simpl. rewrite fmap_app. apply elem_of_app. right.
    simpl. apply elem_of_cons. left. reflexivity.
  - simpl in Hfiles. destruct (append_decomposition _ _ _ _ _ _ Hfiles Hfresh) as (-> & -> & ->).
    simpl. rewrite app_nil_r. split; [reflexivity|].
    split; [apply delete_insert_id; exact Hnone|].
    split; [reflexivity|]. split; [reflexivity|].
    split; [reflexivity|].
    eexists. unfold Warning. simpl. destruct (_ <=? m_WarningLevel st); reflexivity.
Qed.

(** ** Views and the stream of their pack *)

(** A handle whose stream is gone cannot be used. *)
Lemma dangling_stream (c_feof : FILE -> bool) (st : CFileSystem) (file : nat)
    (h : CFileHandle) (fp : nat) :
  dereference st file = HandleObject h ->
  m_pFile h = Some fp ->
  streams st !! fp = None ->
  (forall pos seekType origin,
     Seek_origin seekType = Some origin -> Seek st file pos seekType = None) /\
  Tell st file = None /\
  (forall size, Read st size file = None) /\
  (forall maxChars, ReadLine st maxChars file = None) /\
  EndOfFile c_feof st file = None.
Proof.
  intros Hderef Hfp Hstream. repeat split.
  - intros pos seekType origin Horigin. unfold Seek. rewrite Hderef, Hfp.
    assert (Hadj : exists pos1 seekType1 origin1,
              Seek_adjust h pos seekType = (pos1, seekType1) /\
              Seek_origin seekType1 = Some origin1).
    { unfold Seek_adjust.
      destruct (IsPackEntry h); [|eexists _, _, _; split; [reflexivity|exact Horigin]].
      destruct seekType; try discriminate; eexists _, _, _; split; reflexivity. }
    destruct Hadj as (pos1 & seekType1 & origin1 & -> & ->). rewrite Hstream. reflexivity.
  - unfold Tell. rewrite Hderef, Hfp, Hstream. reflexivity.
  - intros size. unfold Read. rewrite Hderef, Hfp, Hstream. reflexivity.
  - intros maxChars. unfold ReadLine. rewrite Hderef, Hfp, Hstream. reflexivity.
  - unfold EndOfFile. rewrite Hderef, Hfp, Hstream. reflexivity.
Qed.

(** X8: a view does not keep its pack open. When the search path of a
    pack is removed while a view of one of its entries is in the table
    of open handles, the handle stays in the table and the handle object
    stays open, but the stream it reads is closed: [Seek], [Tell], [Read],
    [ReadLine] and [EndOfFile] on the handle are undefined from then on.
    The same holds after [RemoveAllSearchPaths]. *)
Theorem view_does_not_keep_its_pack_open (c_feof : FILE -> bool) (st st' : CFileSystem)
    (path : string) (file : nat) (h : CFileHandle) (fp : nat)
    (before : list CSearchPath) (pack : CSearchPath) (after : list CSearchPath) :
  well_formed st ->
  (file, h) ∈ m_OpenedFiles st ->
  m_pFile h = Some fp ->
  m_SearchPaths st = before ++ pack :: after ->
  packFile pack ≫= m_pFile = Some fp ->
  (st' = RemoveAllSearchPaths st \/
   (st' = fst (RemoveSearchPath st (Some path)) /\
    stricmp path (szPath pack) = 0 /\
    forall earlier, earlier ∈ before -> stricmp path (szPath earlier) <> 0)) ->
  (file, h) ∈ m_OpenedFiles st' /\
  dereference st' file = HandleObject h /\
  (forall pos seekType origin,
     Seek_origin seekType = Some origin -> Seek st' file pos seekType = None) /\
  Tell st' file = None /\
  (forall size, Read st' size file = None) /\
  (forall maxChars, ReadLine st' maxChars file = None) /\
  EndOfFile c_feof st' file = None.
Proof.
  intros Hwf Hin Hfp Hpaths Hpack Hremoved.
  assert (Hstate : well_formed st' /\ m_OpenedFiles st' = m_OpenedFiles st
                   /\ streams st' !! fp = None).
  { destruct Hremoved as [->|(-> & Hfits & Hbefore)].
    - split; [apply well_formed_RemoveAllSearchPaths, Hwf|].
      unfold RemoveAllSearchPaths.
      destruct (destroy_search_paths_result (m_SearchPaths st) st) as (closed & -> & Hclosed).
      simpl. split; [reflexivity|].
      destruct (closed !! fp) eqn:Hlook; [|reflexivity]. exfalso.
      assert (Hsome : is_Some (closed !! fp)) by (eexists; exact Hlook).
      apply Hclosed in Hsome as [_ Hnot]. apply Hnot.
      unfold pack_streams. apply list_elem_of_omap. exists pack. split; [|exact Hpack].
      rewrite Hpaths. apply elem_of_app. right. apply elem_of_cons. left. reflexivity.
    - split; [apply well_formed_RemoveSearchPath, Hwf|].
      destruct (RemoveSearchPath st (Some path)) as [st1 ok] eqn:Hremove.
      apply RemoveSearchPath_result in Hremove. simpl. destruct ok.
      + destruct Hremove as (path' & before' & it & after' & [= <-] & Hpaths' & Hit & Hbefore' & ->).
        simpl. split; [reflexivity|].
        rewrite Hpaths in Hpaths'.
        destruct (first_fit_unique (fun e => stricmp path (szPath e) = 0) _ _ _ _ _ _
                    Hpaths' Hbefore Hfits Hbefore' Hit) as (<- & <- & _).
        rewrite Hpack. apply lookup_delete_eq.
      + destruct Hremove as [_ Hnone]. exfalso. apply (Hnone pack); [|exact Hfits].
        rewrite Hpaths. apply elem_of_app. right. apply elem_of_cons. left. reflexivity. }
  destruct Hstate as (Hwf' & Hfiles & Hgone).
  assert (Hin' : (file, h) ∈ m_OpenedFiles st') by (rewrite Hfiles; exact Hin).
  destruct (dereference_table st' file h (proj1 Hwf') Hin') as [_ Hderef].
  split; [exact Hin'|]. split; [exact Hderef|].
  exact (dangling_stream c_feof st' file h fp Hderef Hfp Hgone).
Qed.


(** ** File systems that can be reached *)


Lemma example_mounted_reachable :
  reachable posix_build example_PackFile_h example_os example_mounted.
Proof.
  unfold example_mounted. apply reach_AddPackFile, reach_AddSearchPath, reach_new.
Qed.


Lemma example_mounted_well_formed : well_formed example_mounted.
Proof.
  unfold example_mounted.
  apply well_formed_AddPackFile, well_formed_AddSearchPath, well_formed_new.
Qed.

Lemma example_opened_well_formed : well_formed example_opened.
Proof. apply well_formed_Open, example_mounted_well_formed. Qed.

Lemma example_viewed_well_formed : well_formed example_viewed.
Proof.
  unfold example_viewed.
  destruct (OpenFromCacheForRead posix_build example_mounted (Some "sound/a.wav")
              (Some "rb") None) as [[st h]|] eqn:Hopen;
    [|apply example_mounted_well_formed].
  exact (well_formed_OpenFromCacheForRead _ _ _ _ _ _ _ example_mounted_well_formed Hopen).
Qed.

Lemma example_opened_table :
  m_OpenedFiles example_opened
  = [(3%nat, mkCFileHandle "/base/a.txt" (Some 2%nat) false 0 10)].
Proof. vm_compute. reflexivity. Qed.

Lemma example_viewed_table :
  m_OpenedFiles example_viewed
  = [(2%nat, mkCFileHandle "sound/a.wav" (Some 1%nat) true 128 64)].
Proof. vm_compute. reflexivity. Qed.

Lemma open_handles_can_be_used_witness :
  Size_by_handle example_opened 3 = Some (passes 10).
Proof.
  destruct (open_handles_can_be_used (fun _ => false) example_opened 3
              (mkCFileHandle "/base/a.txt" (Some 2%nat) false 0 10))
    as (_ & _ & _ & _ & _ & _ & _ & Hsize).
  - exact example_opened_well_formed.
  - rewrite example_opened_table. apply list_elem_of_singleton. reflexivity.
  - discriminate.
  - exact Hsize.
Defined.

Lemma Close_of_an_open_handle_witness :
  streams (Close example_opened 3) = delete 2%nat (streams example_opened) /\
  Close (Close example_opened 3) 3 = Close example_opened 3.
Proof.
  destruct (Close_of_an_open_handle example_opened 3
              (mkCFileHandle "/base/a.txt" (Some 2%nat) false 0 10))
    as (_ & _ & Hstreams & _ & _ & Htwice).
  - exact example_opened_well_formed.
  - rewrite example_opened_table. apply list_elem_of_singleton. reflexivity.
  - split; [exact Hstreams|exact Htwice].
Defined.

Lemma Open_then_Close_witness :
  m_OpenedFiles (Close example_opened 3) = m_OpenedFiles example_mounted /\
  streams (Close example_opened 3) = streams example_mounted.
Proof.
  destruct (Open_then_Close posix_build example_os example_mounted example_opened
              (Some "a.txt") (Some "rb") None 3)
    as (Hfiles & Hstreams & _).
  - exact (proj1 example_mounted_well_formed).
  - vm_compute. reflexivity.
  - discriminate.
  - split; [exact Hfiles|exact Hstreams].
Defined.

Lemma example_viewed_registry :
  exists pack,
    m_SearchPaths example_viewed = [mkCSearchPath "/base" None 0 None ∅] ++ pack :: [] /\
    szPath pack = "/base.pak" /\
    packFile pack ≫= m_pFile = Some 1%nat.
Proof.
  destruct (m_SearchPaths example_viewed) as [|dir [|pack [|]]] eqn:Hpaths;
    try (vm_compute in Hpaths; discriminate Hpaths).
  exists pack.
  assert (Hdir : head (m_SearchPaths example_viewed) = Some (mkCSearchPath "/base" None 0 None ∅))
    by (vm_compute; reflexivity).
  assert (Hpath : option_map szPath (m_SearchPaths example_viewed !! 1%nat) = Some "/base.pak")
    by (vm_compute; reflexivity).
  assert (Hfile : match m_SearchPaths example_viewed !! 1%nat with
                  | Some sp => match packFile sp with
                               | Some h => m_pFile h
                               | None => None
                               end
                  | None => None
                  end = Some 1%nat)
    by (vm_compute; reflexivity).
  rewrite Hpaths in Hdir, Hpath, Hfile. simpl in *.
  injection Hdir as ->. injection Hpath as Hpath. split; [reflexivity|].
  split; [exact Hpath|]. destruct (packFile pack); [exact Hfile|discriminate].
Qed.

Lemma view_does_not_keep_its_pack_open_witness :
  Read (fst (RemoveSearchPath example_viewed (Some "/base.pak"))) 16 2 = None.
Proof.
  destruct example_viewed_registry as (pack & Hpaths & Hname & Hfile).
  destruct (view_does_not_keep_its_pack_open (fun _ => false) example_viewed
              (fst (RemoveSearchPath example_viewed (Some "/base.pak")))
              "/base.pak" 2 (mkCFileHandle "sound/a.wav" (Some 1%nat) true 128 64) 1
              [mkCSearchPath "/base" None 0 None ∅] pack [])
    as (_ & _ & _ & _ & Hread & _).
  - exact example_viewed_well_formed.
  - rewrite example_viewed_table. apply list_elem_of_singleton. reflexivity.
  - reflexivity.
  - exact Hpaths.
  - exact Hfile.
  - right. split; [reflexivity|]. split; [rewrite Hname; reflexivity|].
    intros earlier Hin. apply list_elem_of_singleton in Hin. subst earlier. discriminate.
  - apply Hread.
Defined.


(** ** The cursor of a view *)

Lemma to_u64_small (z : Z) : 0 <= z < 2 ^ 64 -> to_u64 z = z.
Proof. intros Hz. unfold_wraps. apply Z.mod_small. lia. Qed.

Lemma to_uint_small (z : Z) : 0 <= z < 2 ^ 32 -> to_uint z = z.
Proof. intros Hz. unfold_wraps. apply Z.mod_small. lia. Qed.

Lemma dereference_set_streams (st : CFileSystem) (v : gmap nat FILE) (file : nat) :
  dereference (set_streams st v) file = dereference st file.
Proof. reflexivity. Qed.

(** X10: on a view, [Seek] from the start and [Tell] agree, and neither
    confines the cursor to the window. For a window that lies within the
    range of [int], [Seek] to [pos] from the start is accepted for every
    [pos] that does not lead before the start of the pack, also when it
    leads before the window or past its end, and [Tell] right after it
    returns [pos] as an unsigned value, which is [pos] itself when it is
    not negative; [Seek] to [pos] from the end is followed by
    [length + pos] in the same way. *)
Theorem Tell_after_Seek_on_a_view (st : CFileSystem) (file : nat) (h : CFileHandle)
    (fp : nat) (f : FILE) (pos : Z) :
  dereference st file = HandleObject h ->
  m_pFile h = Some fp ->
  streams st !! fp = Some f ->
  IsPackEntry h = true ->
  0 <= GetStartOffset h ->
  0 <= GetLength h ->
  GetStartOffset h + GetLength h <= INT_MAX ->
  (- GetStartOffset h <= pos <= INT_MAX - GetStartOffset h ->
   exists st',
     Seek st file pos FILESYSTEM_SEEK_HEAD = Some st' /\
     option_map f_pos (streams st' !! fp) = Some (GetStartOffset h + pos) /\
     Tell st' file = Some (st', to_uint (to_u64 pos)) /\
     (0 <= pos -> Tell st' file = Some (st', pos))) /\
  (- (GetStartOffset h + GetLength h) <= pos <= INT_MAX - (GetStartOffset h + GetLength h) ->
   exists st',
     Seek st file pos FILESYSTEM_SEEK_TAIL = Some st' /\
     option_map f_pos (streams st' !! fp) = Some (GetStartOffset h + GetLength h + pos) /\
     Tell st' file = Some (st', to_uint (to_u64 (GetLength h + pos))) /\
     (0 <= GetLength h + pos -> Tell st' file = Some (st', GetLength h + pos))).
Proof.
  intros Hderef Hfp Hstream Hpack Hstart Hlen Hend.
  assert (Hseek : forall target,
            0 <= target ->
            let st' := set_streams st (<[fp := c_fseek f target SEEK_SET]> (streams st)) in
            option_map f_pos (streams st' !! fp) = Some target /\
            Tell st' file = Some (st', to_uint (to_u64 (target - GetStartOffset h)))).
  { intros target Htarget st'. unfold st'. simpl. rewrite lookup_insert_eq. simpl.
    unfold c_fseek. destruct (Z.ltb_spec target 0) as [Hneg|_]; [lia|]. simpl.
    split; [reflexivity|].
    unfold Tell. rewrite dereference_set_streams, Hderef, Hfp. simpl.
    rewrite lookup_insert_eq, Hpack. reflexivity. }
  unfold INT_MAX in *. change (2 ^ 31 - 1) with 2147483647 in *.
  split.
  - intros Hpos. eexists. split.
    + unfold Seek, Seek_adjust. rewrite Hderef, Hfp, Hpack. simpl. rewrite Hstream.
      rewrite (seek_head_sum (GetStartOffset h) pos) by (unfold INT_MIN, INT_MAX; lia).
      reflexivity.
    + destruct (Hseek (GetStartOffset h + pos) ltac:(lia)) as [Hat Htell].
      replace (GetStartOffset h + pos - GetStartOffset h) with pos in Htell by lia.
      split; [exact Hat|]. split; [exact Htell|].
      intros Hnonneg. rewrite Htell.
      rewrite to_u64_small by (change (2 ^ 64) with 18446744073709551616; lia).
      rewrite to_uint_small by (change (2 ^ 32) with 4294967296; lia). reflexivity.
  - intros Hpos. eexists. split.
    + unfold Seek, Seek_adjust. rewrite Hderef, Hfp, Hpack. simpl. rewrite Hstream.
      rewrite (seek_tail_sum (GetStartOffset h) (GetLength h) pos)
        by (unfold INT_MIN, INT_MAX; lia).
      reflexivity.
    + destruct (Hseek (GetStartOffset h + GetLength h + pos) ltac:(lia)) as [Hat Htell].
      replace (GetStartOffset h + GetLength h + pos - GetStartOffset h)
        with (GetLength h + pos) in Htell by lia.
      split; [exact Hat|]. split; [exact Htell|].
      intros Hnonneg. rewrite Htell.
      rewrite to_u64_small by (change (2 ^ 64) with 18446744073709551616; lia).
      rewrite to_uint_small by (change (2 ^ 32) with 4294967296; lia). reflexivity.
Qed.

Lemma Tell_after_Seek_on_a_view_witness :
  exists st',
    Seek near_entry_open 2 70 FILESYSTEM_SEEK_HEAD = Some st' /\
    Tell st' 2 = Some (st', 70).
Proof.
  destruct (Tell_after_Seek_on_a_view near_entry_open 2 near_entry_handle 1
              (mkFILE example_pack 140) 70 eq_refl eq_refl eq_refl eq_refl)
    as [Hhead _].
  - simpl. lia.
  - simpl. lia.
  - simpl. unfold INT_MAX. lia.
  - destruct Hhead as (st' & Hseek & _ & _ & Htell).
    + simpl. unfold INT_MAX. lia.
    + exists st'. split; [exact Hseek|]. apply Htell. lia.
Defined.

(** ** Reading through a view *)

Lemma c_fread_available (f : FILE) (count : Z) :
  0 < count -> 0 <= f_pos f -> f_pos f + count <= f_size f ->
  c_fread 1 count f
  = (count, take (Z.to_nat count) (drop (Z.to_nat (f_pos f)) (f_data f)),
     mkFILE (f_data f) (f_pos f + count)).
Proof.
  intros Hcount Hpos Havail. unfold c_fread. rewrite Z.mul_1_l. simpl.
  rewrite Z.max_r by lia. rewrite Z.min_l by lia.
  destruct (Z.leb_spec count 0) as [Hle|_]; [lia|]. rewrite Z.div_1_r. reflexivity.
Qed.

(** A [Read] within the window of a view: the bytes asked for are all
    left before the end of the window, and they are what is read. *)
Lemma Read_pack_entry_exact (st : CFileSystem) (file : nat) (h : CFileHandle)
    (fp : nat) (f : FILE) (size : Z) :
  dereference st file = HandleObject h ->
  m_pFile h = Some fp ->
  streams st !! fp = Some f ->
  IsPackEntry h = true ->
  0 <= GetStartOffset h ->
  GetStartOffset h + GetLength h <= f_size f ->
  f_size f < 2 ^ 62 ->
  GetStartOffset h <= f_pos f ->
  0 < size <= INT_MAX ->
  f_pos f - GetStartOffset h + size <= GetLength h ->
  Read st size file
  = Some (set_streams st (<[fp := mkFILE (f_data f) (f_pos f + size)]> (streams st)),
          size,
          take (Z.to_nat size) (drop (Z.to_nat (f_pos f)) (f_data f))) /\
  Z.of_nat (length (take (Z.to_nat size) (drop (Z.to_nat (f_pos f)) (f_data f)))) = size.
Proof.
  intros Hderef Hfp Hstream Hpack Hstart Hinside Hfile Hpos Hsize Hleft.
  change (2 ^ 62) with 4611686018427387904 in *.
  unfold INT_MAX in *. change (2 ^ 31 - 1) with 2147483647 in *.
  split.
  - unfold Read. rewrite Hderef, Hfp, Hstream, Hpack. unfold c_ftell.
    destruct (Z.eqb_spec (GetLength h) 0) as [Hzero|_]; [lia|].
    rewrite (to_u64_small (f_pos f - GetStartOffset h))
      by (change (2 ^ 64) with 18446744073709551616; lia).
    destruct (Z.geb_spec (f_pos f - GetStartOffset h) (GetLength h)) as [Hge|_]; [lia|].
    assert (Hsz : to_size_t size = size)
      by (unfold_wraps; apply Z.mod_small; lia).
    rewrite Hsz, c_fread_available by lia.
    rewrite (to_u64_small (f_pos f - GetStartOffset h + size))
      by (change (2 ^ 64) with 18446744073709551616; lia).
    rewrite (to_u64_small (GetLength h + 1))
      by (change (2 ^ 64) with 18446744073709551616; lia).
    destruct (Z.geb_spec (f_pos f - GetStartOffset h + size) (GetLength h + 1)) as [Hclip|_];
      [lia|].
    rewrite to_int_in_range by (unfold INT_MIN, INT_MAX; lia). reflexivity.
  - unfold f_size in *. rewrite length_take, length_drop. lia.
Qed.

(** X11: within the window [Read] is exact. With the cursor in the
    window of a view that lies within its pack, a [Read] of [size] bytes
    that are all left before the end of the window returns [size], puts
    exactly the next [size] bytes of the pack into the buffer, and moves
    the cursor on by [size]: [Tell] right after it returns the position
    within the window that [Tell] returned before, plus [size]. *)
Theorem Read_within_the_window (st : CFileSystem) (file : nat) (h : CFileHandle)
    (fp : nat) (f : FILE) (size : Z) :
  dereference st file = HandleObject h ->
  m_pFile h = Some fp ->
  streams st !! fp = Some f ->
  IsPackEntry h = true ->
  0 <= GetStartOffset h ->
  GetStartOffset h + GetLength h <= f_size f ->
  f_size f < 2 ^ 62 ->
  GetStartOffset h <= f_pos f ->
  0 < size <= INT_MAX ->
  f_pos f - GetStartOffset h + size <= GetLength h ->
  Read st size file
  = Some (set_streams st (<[fp := mkFILE (f_data f) (f_pos f + size)]> (streams st)),
          size,
          take (Z.to_nat size) (drop (Z.to_nat (f_pos f)) (f_data f))) /\
  Z.of_nat (length (take (Z.to_nat size) (drop (Z.to_nat (f_pos f)) (f_data f)))) = size /\
  Tell st file = Some (st, to_uint (f_pos f - GetStartOffset h)) /\
  Tell (set_streams st (<[fp := mkFILE (f_data f) (f_pos f + size)]> (streams st))) file
  = Some (set_streams st (<[fp := mkFILE (f_data f) (f_pos f + size)]> (streams st)),
          to_uint (f_pos f - GetStartOffset h + size)).
Proof.
  intros Hderef Hfp Hstream Hpack Hstart Hinside Hfile Hpos Hsize Hleft.
  destruct (Read_pack_entry_exact st file h fp f size Hderef Hfp Hstream Hpack Hstart Hinside
              Hfile Hpos Hsize Hleft) as [Hread Hlength].
  split; [exact Hread|]. split; [exact Hlength|].
  change (2 ^ 62) with 4611686018427387904 in Hfile.
  split.
  - unfold Tell. rewrite Hderef, Hfp, Hstream, Hpack. unfold c_ftell.
    rewrite to_u64_small by (change (2 ^ 64) with 18446744073709551616; lia).
    reflexivity.
  - unfold Tell. rewrite dereference_set_streams, Hderef, Hfp. simpl.
    rewrite lookup_insert_eq, Hpack. unfold c_ftell. simpl.
    rewrite to_u64_small by (change (2 ^ 64) with 18446744073709551616; lia).
    do 3 f_equal. lia.
Qed.

Lemma Read_within_the_window_witness :
  exists st',
    Read near_entry_open 20 2 = Some (st', 20, repeat Byte.x61 20).
Proof.
  destruct (Read_within_the_window near_entry_open 2 near_entry_handle 1
              (mkFILE example_pack 140) 20 eq_refl eq_refl eq_refl eq_refl) as [Hread _].
  - simpl. lia.
  - vm_compute. discriminate.
  - vm_compute. reflexivity.
  - simpl. lia.
  - unfold INT_MAX. lia.
  - simpl. lia.
  - eexists. rewrite Hread. f_equal.
Defined.

(** X12: a window read in two pieces is the window read in one piece:
    two [Read]s in a row within the window return the bytes that one
    [Read] of the sum of the sizes returns, and leave the file system in
    the same state. *)
Theorem Read_in_two_pieces (st : CFileSystem) (file : nat) (h : CFileHandle)
    (fp : nat) (f : FILE) (size1 size2 : Z) :
  dereference st file = HandleObject h ->
  m_pFile h = Some fp ->
  streams st !! fp = Some f ->
  IsPackEntry h = true ->
  0 <= GetStartOffset h ->
  GetStartOffset h + GetLength h <= f_size f ->
  f_size f < 2 ^ 62 ->
  GetStartOffset h <= f_pos f ->
  0 < size1 -> 0 < size2 -> size1 + size2 <= INT_MAX ->
  f_pos f - GetStartOffset h + size1 + size2 <= GetLength h ->
  exists st1 st2 bytes1 bytes2,
    Read st size1 file = Some (st1, size1, bytes1) /\
    Read st1 size2 file = Some (st2, size2, bytes2) /\
    Read st (size1 + size2) file = Some (st2, size1 + size2, bytes1 ++ bytes2).
Proof.
  intros Hderef Hfp Hstream Hpack Hstart Hinside Hfile Hpos Hsize1 Hsize2 Hsum Hleft.
  destruct (Read_pack_entry_exact st file h fp f size1 Hderef Hfp Hstream Hpack Hstart
              Hinside Hfile Hpos ltac:(lia) ltac:(lia)) as [Hread1 _].
  destruct (Read_pack_entry_exact st file h fp f (size1 + size2) Hderef Hfp Hstream Hpack
              Hstart Hinside Hfile Hpos ltac:(lia) ltac:(lia)) as [Hread _].
  pose (f1 := mkFILE (f_data f) (f_pos f + size1)).
  pose (st1 := set_streams st (<[fp := f1]> (streams st))).
  destruct (Read_pack_entry_exact st1 file h fp f1 size2) as [Hread2 _];
    try assumption; try (simpl; lia).
  { unfold st1. simpl. apply lookup_insert_eq. }
  eexists _, _, _, _. split; [exact Hread1|]. split; [exact Hread2|].
  rewrite Hread. unfold st1, f1. simpl. rewrite insert_insert_eq.
  replace (f_pos f + size1 + size2) with (f_pos f + (size1 + size2)) by lia.
  f_equal. f_equal.
  rewrite Z2Nat.inj_add by lia. rewrite Z2Nat.inj_add by lia.
  rewrite <- drop_drop. symmetry. apply take_take_drop.
Qed.

Lemma Read_in_two_pieces_witness :
  exists st1 st2 bytes1 bytes2,
    Read near_entry_open 10 2 = Some (st1, 10, bytes1) /\
    Read st1 10 2 = Some (st2, 10, bytes2) /\
    Read near_entry_open (10 + 10) 2 = Some (st2, 10 + 10, bytes1 ++ bytes2).
Proof.
  apply (Read_in_two_pieces near_entry_open 2 near_entry_handle 1
           (mkFILE example_pack 140) 10 10 eq_refl eq_refl eq_refl eq_refl).
  - simpl. lia.
  - vm_compute. discriminate.
  - vm_compute. reflexivity.
  - simpl. lia.
  - lia.
  - lia.
  - unfold INT_MAX. lia.
  - simpl. lia.
Defined.

(** ** Reading a line through a view *)






(** ** The end of a view *)

(** X14: for a view whose cursor is not before its window, [EndOfFile]
    is true exactly when no byte of the window is left; and whenever
    [EndOfFile] is true, [Read] returns 0 and [ReadLine] the null pointer,
    and neither touches the stream. *)
Theorem EndOfFile_of_a_view (c_feof : FILE -> bool) (st : CFileSystem) (file : nat)
    (h : CFileHandle) (fp : nat) (f : FILE) :
  dereference st file = HandleObject h ->
  m_pFile h = Some fp ->
  streams st !! fp = Some f ->
  IsPackEntry h = true ->
  0 <= GetStartOffset h < 2 ^ 62 ->
  0 <= GetLength h < 2 ^ 62 ->
  0 <= f_pos f < 2 ^ 62 ->
  exists eof,
    EndOfFile c_feof st file = Some (passes eof) /\
    (GetStartOffset h <= f_pos f ->
     (eof = true <-> GetLength h <= f_pos f - GetStartOffset h)) /\
    (eof = true ->
     (forall size, Read st size file = Some (st, 0, [])) /\
     (forall maxChars, ReadLine st maxChars file = Some (passes (st, None)))).
Proof.
  intros Hderef Hfp Hstream Hpack Hstart Hlen Hpos.
  change (2 ^ 62) with 4611686018427387904 in *.
  unfold EndOfFile. rewrite Hderef, Hfp, Hstream, Hpack. unfold c_ftell.
  rewrite (to_u64_small (f_pos f)) by (change (2 ^ 64) with 18446744073709551616; lia).
  rewrite (to_u64_small (GetStartOffset h + GetLength h))
    by (change (2 ^ 64) with 18446744073709551616; lia).
  eexists. split; [reflexivity|]. split.
  - intros _. destruct (Z.geb_spec (f_pos f) (GetStartOffset h + GetLength h)); split;
      intros; try reflexivity; try discriminate; lia.
  - intros Heof.
    destruct (Z.geb_spec (f_pos f) (GetStartOffset h + GetLength h)) as [Hge|_];
      [|discriminate].
    assert (Hrel : (to_u64 (f_pos f - GetStartOffset h) >=? GetLength h) = true).
    { rewrite to_u64_small by (change (2 ^ 64) with 18446744073709551616; lia).
      destruct (Z.geb_spec (f_pos f - GetStartOffset h) (GetLength h)); [reflexivity|lia]. }
    split.
    + intros size. unfold Read. rewrite Hderef, Hfp, Hstream, Hpack. unfold c_ftell.
      rewrite Hrel. destruct (GetLength h =? 0); reflexivity.
    + intros maxChars. unfold ReadLine. rewrite Hderef, Hfp, Hstream, Hpack. unfold c_ftell.
      rewrite Hrel. destruct (GetLength h =? 0); reflexivity.
Qed.

Lemma EndOfFile_of_a_view_witness :
  exists eof,
    EndOfFile (fun _ => false) near_entry_open 2 = Some (passes eof) /\
    (eof = true <-> 64 <= 140 - 128).
Proof.
  destruct (EndOfFile_of_a_view (fun _ => false) near_entry_open 2 near_entry_handle 1
              (mkFILE example_pack 140) eq_refl eq_refl eq_refl eq_refl)
    as (eof & Heof & Hiff & _).
  - simpl. lia.
  - simpl. lia.
  - simpl. lia.
  - exists eof. split; [exact Heof|]. apply Hiff. simpl. lia.
Defined.

(** ** A handle just opened *)

Lemma position_of_appended (files : list (nat * CFileHandle)) (file : nat) (h : CFileHandle) :
  file ∉ files.*1 -> position_of (files ++ [(file, h)]) file = Some (length files).
Proof.
  induction files as [|[address h'] rest IH]; simpl; intros Hnot.
  - rewrite Nat.eqb_refl. reflexivity.
  - apply not_elem_of_cons in Hnot as [Hne Hrest].
    destruct (Nat.eqb_spec address file) as [->|_]; [congruence|].
    rewrite (IH Hrest). reflexivity.
Qed.

Lemma dereference_appended (st' : CFileSystem) (files : list (nat * CFileHandle))
    (file : nat) (h : CFileHandle) :
  file <> FILESYSTEM_INVALID_HANDLE ->
  file ∉ files.*1 ->
  m_OpenedFiles st' = files ++ [(file, h)] ->
  dereference st' file = HandleObject h.
Proof.
  intros Hne Hnot Hfiles. unfold dereference. rewrite Hfiles.
  destruct (Nat.eqb_spec file 0) as [Heq|_]; [contradiction|].
  rewrite (position_of_appended _ _ _ Hnot).
  rewrite list_lookup_middle by reflexivity. reflexivity.
Qed.



(** ** The entries of a pack *)

Lemma first_record_Some (plat : Platform) (name : string) (packEntries : list PackEntry_t)
    (entry : CPackFileEntry) :
  first_record plat name packEntries = Some entry ->
  exists packEntry,
    packEntry ∈ packEntries /\
    make_preferred plat (szFileName packEntry) = name /\
    entry = make_entry plat packEntry.
Proof.
  induction packEntries as [|packEntry rest IH]; simpl; [discriminate|].
  destruct (String.eqb_spec (make_preferred plat (szFileName packEntry)) name) as [Heq|_].
  - intros [= <-]. exists packEntry. split; [apply elem_of_cons; left; reflexivity|].
    split; [exact Heq|reflexivity].
  - intros Hrest. destruct (IH Hrest) as (r & Hin & Hr).
    exists r. split; [apply elem_of_cons; right; exact Hin|exact Hr].
Qed.

Lemma first_record_unique (plat : Platform) (packEntries : list PackEntry_t)
    (packEntry : PackEntry_t) :
  NoDup (record_names plat packEntries) ->
  packEntry ∈ packEntries ->
  first_record plat (make_preferred plat (szFileName packEntry)) packEntries
  = Some (make_entry plat packEntry).
Proof.
  induction packEntries as [|first rest IH]; simpl; intros Hnodup Hin.
  - apply elem_of_nil in Hin. destruct Hin.
  - apply NoDup_cons in Hnodup as [Hfirst Hrest].
    apply elem_of_cons in Hin as [->|Hin]; [rewrite String.eqb_refl; reflexivity|].
    destruct (String.eqb_spec (make_preferred plat (szFileName first))
                (make_preferred plat (szFileName packEntry))) as [Heq|_].
    + exfalso. apply Hfirst. rewrite Heq. unfold record_names.
      apply list_elem_of_fmap. exists packEntry. split; [reflexivity|exact Hin].
    + apply IH; assumption.
Qed.

Lemma size_emplace (key : string) (value : CPackFileEntry)
    (entries : gmap string CPackFileEntry) :
  size (emplace key value entries)
  = match entries !! key with
    | Some _ => size entries
    | None => S (size entries)
    end.
Proof.
  unfold emplace. destruct (entries !! key) eqn:Hkey; [reflexivity|].
  apply map_size_insert_None. exact Hkey.
Qed.

Lemma size_emplace_pack_entries (plat : Platform) (packEntries : list PackEntry_t)
    (entries : gmap string CPackFileEntry) :
  (size (emplace_pack_entries plat packEntries entries)
   <= size entries + length packEntries)%nat /\
  (NoDup (record_names plat packEntries) ->
   (forall name, name ∈ record_names plat packEntries -> entries !! name = None) ->
   size (emplace_pack_entries plat packEntries entries)
   = (size entries + length packEntries)%nat).
Proof.
  revert entries. induction packEntries as [|packEntry rest IH]; intros entries; simpl.
  - split; [lia|intros _ _; lia].
  - destruct (IH (emplace (make_preferred plat (szFileName packEntry))
                    (make_entry plat packEntry) entries)) as [Hle Heq].
    rewrite size_emplace in Hle, Heq. split.
    + destruct (entries !! make_preferred plat (szFileName packEntry)); lia.
    + intros Hnodup Hnew. apply NoDup_cons in Hnodup as [Hfirst Hrest].
      rewrite (Hnew _ (proj2 (elem_of_cons _ _ _) (or_introl eq_refl))) in Heq.
      rewrite Heq; [lia|exact Hrest|].
      intros name Hname. rewrite emplace_lookup.
      rewrite (Hnew name) by (apply elem_of_cons; right; exact Hname).
      simpl. destruct (String.eqb_spec (make_preferred plat (szFileName packEntry)) name)
        as [Heq'|_]; [|reflexivity].
      exfalso. apply Hfirst. rewrite Heq'. exact Hname.
Qed.

(** X16: the entries that [ProcessPackFile] builds from the records of a
    directory hold nothing but records of the directory, each under its
    normalized name, and never more entries than there are records; when
    no two records have the same normalized name, no record is lost: there
    are as many entries as records, and every record is found under its
    name with its own offset and length. *)
Theorem pack_entries_are_the_records (plat : Platform) (packEntries : list PackEntry_t) :
  (forall name entry,
     emplace_pack_entries plat packEntries ∅ !! name = Some entry ->
     exists packEntry,
       packEntry ∈ packEntries /\
       make_preferred plat (szFileName packEntry) = name /\
       entry = mkCPackFileEntry name (filepos packEntry) (filelen packEntry)) /\
  (size (emplace_pack_entries plat packEntries ∅) <= length packEntries)%nat /\
  (NoDup (record_names plat packEntries) ->
   size (emplace_pack_entries plat packEntries ∅) = length packEntries /\
   forall packEntry,
     packEntry ∈ packEntries ->
     emplace_pack_entries plat packEntries ∅ !! make_preferred plat (szFileName packEntry)
     = Some (mkCPackFileEntry (make_preferred plat (szFileName packEntry))
               (filepos packEntry) (filelen packEntry))).
Proof.
  destruct (size_emplace_pack_entries plat packEntries ∅) as [Hle Heq].
  rewrite map_size_empty in Hle, Heq. simpl in Hle, Heq.
  split; [|split; [exact Hle|]].
  - intros name entry. rewrite emplace_pack_entries_lookup, lookup_empty.
    intros Hfirst. destruct (first_record_Some _ _ _ _ Hfirst) as (r & Hin & <- & ->).
    exists r. repeat split. exact Hin.
  - intros Hnodup. split.
    + apply Heq; [exact Hnodup|]. intros name _. apply lookup_empty.
    + intros packEntry Hin. rewrite emplace_pack_entries_lookup, lookup_empty.
      rewrite (first_record_unique _ _ _ Hnodup Hin). reflexivity.
Qed.

Lemma pack_entries_are_the_records_witness :
  size (emplace_pack_entries Posix
          [mkPackEntry_t "sound/a.wav" 128 64; mkPackEntry_t "sound/b.wav" 512 32] ∅)
  = 2%nat.
Proof.
  destruct (pack_entries_are_the_records Posix
              [mkPackEntry_t "sound/a.wav" 128 64; mkPackEntry_t "sound/b.wav" 512 32])
    as (_ & _ & Hnodup).
  destruct Hnodup as [Hsize _]; [|exact Hsize].
  simpl. apply NoDup_cons. split.
  - intros Habs. apply list_elem_of_singleton in Habs. discriminate Habs.
  - apply NoDup_singleton.
Defined.

(** ** Opening the entries of mounted packs *)

(** The stream of every pack of a well-formed registry is there. *)
Lemma pack_stream_alive (st : CFileSystem) (searchPath : CSearchPath) :
  well_formed st ->
  searchPath ∈ m_SearchPaths st ->
  has_flag (flags searchPath) SearchPathFlag.IS_PACK_FILE = true ->
  exists pack fp f,
    packFile searchPath = Some pack /\ m_pFile pack = Some fp /\ streams st !! fp = Some f.
Proof.
  intros (_ & _ & _ & Halive & _ & Hpacks) Hin Hflag.
  destruct (Hpacks _ Hin Hflag) as [fp Hfp].
  destruct (packFile searchPath) as [pack|] eqn:Hpack; [|discriminate]. simpl in Hfp.
  destruct (Halive fp) as [f Hf].
  { apply elem_of_app. right. unfold pack_streams. apply list_elem_of_omap.
    exists searchPath. split; [exact Hin|]. rewrite Hpack. exact Hfp. }
  exists pack, fp, f. repeat split; assumption.
Qed.

Lemma OpenFromCacheForRead_scan_defined (plat : Platform) (st : CFileSystem)
    (searchPaths : list CSearchPath) (pFileName : string) (pathID : option string) :
  (forall searchPath, searchPath ∈ searchPaths ->
     has_flag (flags searchPath) SearchPathFlag.IS_PACK_FILE = true ->
     exists pack fp f,
       packFile searchPath = Some pack /\ m_pFile pack = Some fp /\
       streams st !! fp = Some f) ->
  is_Some (OpenFromCacheForRead_scan plat st searchPaths pFileName pathID).
Proof.
  induction searchPaths as [|searchPath rest IH]; intros Hpacks; simpl; [eexists; reflexivity|].
  assert (Hrest : is_Some (OpenFromCacheForRead_scan plat st rest pFileName pathID)).
  { apply IH. intros sp Hin. apply Hpacks. apply elem_of_cons. right. exact Hin. }
  destruct (has_flag (flags searchPath) SearchPathFlag.IS_PACK_FILE) eqn:Hflag; simpl;
    [|exact Hrest].
  destruct (pathID_excludes pathID searchPath); [exact Hrest|].
  destruct (packEntries searchPath !! make_preferred plat pFileName); [|exact Hrest].
  destruct (Hpacks searchPath (proj2 (elem_of_cons _ _ _) (or_introl eq_refl)) Hflag)
    as (pack & fp & f & -> & -> & ->).
  eexists; reflexivity.
Qed.

(** [OpenFromCacheForRead] on a well-formed file system. *)
Lemma OpenFromCacheForRead_defined (b : Build) (st : CFileSystem)
    (pFileName pOptions : string) (pathID : option string) :
  well_formed st ->
  strchr pOptions "w"%char = false ->
  exists st' file,
    OpenFromCacheForRead b st (Some pFileName) (Some pOptions) pathID = Some (st', file) /\
    (file <> FILESYSTEM_INVALID_HANDLE <->
     exists searchPath,
       searchPath ∈ m_SearchPaths st /\
       cache_looks_into pathID searchPath = true /\
       is_Some (packEntries searchPath !! make_preferred (platform b) pFileName)).
Proof.
  intros Hwf Hread. unfold OpenFromCacheForRead. rewrite Hread.
  destruct (OpenFromCacheForRead_scan_defined (platform b) st (m_SearchPaths st) pFileName
              pathID) as [[st' file] Hscan].
  { intros sp Hin Hflag. exact (pack_stream_alive st sp Hwf Hin Hflag). }
  exists st', file. split; [exact Hscan|].
  destruct (OpenFromCacheForRead_scan_result _ _ _ _ _ _ _ Hscan)
    as [(-> & -> & Hnone)|(before & sp & after & it & pack & fp & f & Hpaths & _ & Hlooks
                          & Hentry & _ & _ & Hstream & -> & ->)].
  - split; [intros Hne; contradiction|].
    intros (sp & Hin & Hlooks & [it Hit]). rewrite (Hnone sp Hin Hlooks) in Hit. discriminate.
  - split.
    + intros _. exists sp. split; [|split; [exact Hlooks|eexists; exact Hentry]].
      rewrite Hpaths. apply elem_of_app. right. apply elem_of_cons. left. reflexivity.
    + intros _. destruct Hwf as ((_ & _ & Hbelow) & _).
      assert (Hlt : (fp < next_address st)%nat) by (apply Hbelow; eexists; exact Hstream).
      unfold FILESYSTEM_INVALID_HANDLE. lia.
Qed.

(** X17: in a well-formed file system [OpenFromCacheForRead] is always
    defined. With the write option it returns the invalid handle and
    changes nothing but what is reported; without it, it returns a handle
    other than the invalid one exactly when some search path flagged as a
    pack and in scope has an entry under the normalized name. *)
Theorem OpenFromCacheForRead_finds_every_entry (b : Build) (st : CFileSystem)
    (pFileName pOptions : string) (pathID : option string) :
  well_formed st ->
  exists st' file,
    OpenFromCacheForRead b st (Some pFileName) (Some pOptions) pathID = Some (st', file) /\
    (strchr pOptions "w"%char = true ->
     file = FILESYSTEM_INVALID_HANDLE /\
     st' = Warning st FILESYSTEM_WARNING_CRITICAL (OpenFromCacheForRead_write_option pFileName)) /\
    (strchr pOptions "w"%char = false ->
     (file <> FILESYSTEM_INVALID_HANDLE <->
      exists searchPath,
        searchPath ∈ m_SearchPaths st /\
        cache_looks_into pathID searchPath = true /\
        is_Some (packEntries searchPath !! make_preferred (platform b) pFileName))).
Proof.
  intros Hwf. destruct (strchr pOptions "w"%char) eqn:Hwrite.
  - eexists _, _. split; [unfold OpenFromCacheForRead; rewrite Hwrite; reflexivity|].
    split; [intros _; split; reflexivity|discriminate].
  - destruct (OpenFromCacheForRead_defined b st pFileName pOptions pathID Hwf Hwrite)
      as (st' & file & Hopen & Hvalid).
    exists st', file. split; [exact Hopen|]. split; [discriminate|].
    intros _. exact Hvalid.
Qed.

Lemma OpenFromCacheForRead_finds_every_entry_witness :
  exists st' file,
    OpenFromCacheForRead posix_build example_mounted (Some "sound/a.wav") (Some "rb") None
    = Some (st', file).
Proof.
  destruct (OpenFromCacheForRead_finds_every_entry posix_build example_mounted
              "sound/a.wav" "rb" None) as (st' & file & Hopen & _).
  - exact example_mounted_well_formed.
  - exists st', file. exact Hopen.
Defined.

(** ** From the bytes of a pack to the window of a view *)

Lemma c_fread_data (size count : Z) (f : FILE) :
  f_data (snd (c_fread size count f)) = f_data f.
Proof. unfold c_fread. destruct (_ || _); reflexivity. Qed.

Lemma first_record_is_Some (plat : Platform) (packEntries : list PackEntry_t)
    (packEntry : PackEntry_t) :
  packEntry ∈ packEntries ->
  is_Some (first_record plat (make_preferred plat (szFileName packEntry)) packEntries).
Proof.
  induction packEntries as [|first rest IH]; simpl; intros Hin.
  - apply elem_of_nil in Hin. destruct Hin.
  - destruct (String.eqb (make_preferred plat (szFileName first))
                (make_preferred plat (szFileName packEntry))) eqn:Heq;
      [eexists; reflexivity|].
    apply elem_of_cons in Hin as [->|Hin]; [rewrite String.eqb_refl in Heq; discriminate|].
    exact (IH Hin).
Qed.

Lemma pathID_excludes_same (pathID : option string) (searchPath : CSearchPath) :
  pszPathID searchPath = pathID -> pathID_excludes pathID searchPath = false.
Proof.
  intros <-. unfold pathID_excludes. destruct (pszPathID searchPath) as [id|]; [|reflexivity].
  rewrite strcmp_same. reflexivity.
Qed.

(** The entries of a pack that [AddPackFile] has mounted are built from
    the records of the directory of the file. *)
Lemma AddPackFile_entries (b : Build) (pk : PackFile_h) (os : HostOS) (st st' : CFileSystem)
    (name : string) (pathID : option string) (bytes : list Byte.byte) :
  c_fopen os name "rb" = Some bytes ->
  AddPackFile b pk os st (Some name) pathID = (st', true) ->
  exists file2,
    st' = mkCFileSystem
            (m_SearchPaths st ++
             [mkCSearchPath
                (strncpy_terminated (sizeof_szPath b) (make_preferred (platform b) name))
                pathID
                (Z.lor SearchPathFlag.READ_ONLY SearchPathFlag.IS_PACK_FILE)
                (Some (mkCFileHandle name (Some (next_address st)) false 0 (f_size file2)))
                (emplace_pack_entries (platform b)
                   (directory_records (layout_of pk (pack_kind pk bytes)) bytes) ∅)])
            (m_OpenedFiles st) (m_FindFiles st) (m_WarningLevel st) (reported st)
            (<[next_address st := file2]> (streams st))
            (S (next_address st)).
Proof.
  intros Hopen Hadd. apply AddPackFile_result in Hadd.
  destruct Hadd as (name' & bytes' & header & file1 & file2 & entries & [= <-] & Hopen'
                    & Hread & _ & Hprocess & ->).
  rewrite Hopen in Hopen'. injection Hopen' as <-.
  exists file2. do 2 f_equal. f_equal. f_equal.
  assert (Hkind : pack_kind pk bytes = IdentifyPackType pk header).
  { unfold pack_kind. rewrite Hread. reflexivity. }
  rewrite Hkind.
  assert (Hrewind : c_rewind file1 = mkFILE bytes 0).
  { unfold c_rewind. f_equal.
    pose proof (c_fread_data (sizeof_pack_Header_t pk) 1 (mkFILE bytes 0)) as Hdata.
    rewrite Hread in Hdata. exact Hdata. }
  rewrite Hrewind in Hprocess.
  apply ProcessPackFile_result in Hprocess.
  destruct Hprocess as (_ & header' & pFile1 & records & Hhead & _ & _ & Hrecords & ->).
  unfold directory_records. rewrite Hhead.
  destruct (header_dir _ header') as [dirofs dirlen]. simpl in *.
  rewrite Hrecords. reflexivity.
Qed.

(** X18: from the bytes of a pack to the window of a view. After
    [AddPackFile] has mounted a pack in a well-formed file system, every
    record of the directory of the file can be opened from the cache by
    its name, with the tag the pack was mounted with: the call is defined
    and returns a handle on a view. When no two records of the directory
    have the same normalized name and no pack mounted before has the name
    in scope, the view reads the stream of the new pack and its window is
    the position and the length of the record. *)
Theorem mounted_pack_serves_its_directory (b : Build) (pk : PackFile_h) (os : HostOS)
    (st st' : CFileSystem) (name : string) (pathID : option string) (bytes : list Byte.byte)
    (packEntry : PackEntry_t) (pOptions : string) :
  well_formed st ->
  c_fopen os name "rb" = Some bytes ->
  AddPackFile b pk os st (Some name) pathID = (st', true) ->
  packEntry ∈ directory_records (layout_of pk (pack_kind pk bytes)) bytes ->
  strchr pOptions "w"%char = false ->
  exists st'' file view,
    OpenFromCacheForRead b st' (Some (szFileName packEntry)) (Some pOptions) pathID
    = Some (st'', file) /\
    file <> FILESYSTEM_INVALID_HANDLE /\
    dereference st'' file = HandleObject view /\
    IsPackEntry view = true /\
    (NoDup (record_names (platform b)
              (directory_records (layout_of pk (pack_kind pk bytes)) bytes)) ->
     (forall searchPath, searchPath ∈ m_SearchPaths st ->
        cache_looks_into pathID searchPath = true ->
        packEntries searchPath !! make_preferred (platform b) (szFileName packEntry) = None) ->
     m_pFile view = Some (next_address st) /\
     GetStartOffset view = filepos packEntry /\
     GetLength view = filelen packEntry).
Proof.
  intros Hwf Hopen Hadd Hin Hread.
  pose proof (well_formed_AddPackFile b pk os st (Some name) pathID Hwf) as Hwf'.
  rewrite Hadd in Hwf'. simpl in Hwf'.
  destruct (AddPackFile_entries _ _ _ _ _ _ _ _ Hopen Hadd) as (file2 & Hst').
  set (records := directory_records (layout_of pk (pack_kind pk bytes)) bytes) in *.
  set (path := mkCSearchPath
                 (strncpy_terminated (sizeof_szPath b) (make_preferred (platform b) name))
                 pathID (Z.lor SearchPathFlag.READ_ONLY SearchPathFlag.IS_PACK_FILE)
                 (Some (mkCFileHandle name (Some (next_address st)) false 0 (f_size file2)))
                 (emplace_pack_entries (platform b) records ∅)) in *.
  assert (Hlooks : cache_looks_into pathID path = true).
  { unfold cache_looks_into. rewrite (pathID_excludes_same pathID path eq_refl). reflexivity. }
  assert (Hentry : is_Some (packEntries path
                              !! make_preferred (platform b) (szFileName packEntry))).
  { simpl. rewrite emplace_pack_entries_lookup, lookup_empty.
    apply first_record_is_Some. exact Hin. }
  destruct (OpenFromCacheForRead_defined b st' (szFileName packEntry) pOptions
              pathID Hwf' Hread) as (st'' & file & Hcache & Hvalid).
  assert (Hne : file <> FILESYSTEM_INVALID_HANDLE).
  { apply Hvalid. exists path. split; [|split; [exact Hlooks|exact Hentry]].
    rewrite Hst'. simpl. apply elem_of_app. right. apply elem_of_cons. left. reflexivity. }
  exists st'', file. unfold OpenFromCacheForRead in Hcache. rewrite Hread in Hcache.
  destruct (OpenFromCacheForRead_scan_result _ _ _ _ _ _ _ Hcache)
    as [(_ & -> & _)|(before & sp & after & it & pack & fp & f & Hpaths & _ & Hsp
                      & Hit & Hpack & Hfp & _ & Hfile & Hst'')];
    [contradiction|].
  exists (mkCFileHandle (make_preferred (platform b) (szFileName packEntry)) (Some fp) true
            (pe_StartOffset it) (pe_Length it)).
  split; [unfold OpenFromCacheForRead; rewrite Hread; exact Hcache|].
  split; [exact Hne|]. split.
  { apply (dereference_appended _ (m_OpenedFiles st'));
      [exact Hne| |rewrite Hst'', Hfile; reflexivity].
    rewrite Hfile. intros Habs. destruct Hwf' as ((_ & Hhandles & _) & _).
    specialize (Hhandles _ Habs). lia. }
  split; [reflexivity|].
  intros Hnodup Hshadow. simpl.
  assert (sp = path) as ->.
  { assert (Hmember : sp ∈ m_SearchPaths st') by
      (rewrite Hpaths; apply elem_of_app; right; apply elem_of_cons; left; reflexivity).
    rewrite Hst' in Hmember. simpl in Hmember.
    apply elem_of_app in Hmember as [Hold|Hnew].
    - rewrite (Hshadow sp Hold Hsp) in Hit. discriminate.
    - apply list_elem_of_singleton in Hnew. exact Hnew. }
  simpl in Hpack, Hit. injection Hpack as <-. simpl in Hfp. injection Hfp as <-.
  rewrite emplace_pack_entries_lookup, lookup_empty in Hit.
  rewrite (first_record_unique _ _ _ Hnodup Hin) in Hit. injection Hit as <-.
  repeat split.
Qed.

Lemma example_pack_directory :
  directory_records (layout_of example_PackFile_h (pack_kind example_PackFile_h example_pack))
    example_pack
  = [mkPackEntry_t "sound/a.wav" 128 64].
Proof. vm_compute. reflexivity. Qed.

Lemma mounted_pack_serves_its_directory_witness :
  exists st'' file view,
    OpenFromCacheForRead posix_build example_mounted (Some "sound/a.wav") (Some "rb") None
    = Some (st'', file) /\
    file <> FILESYSTEM_INVALID_HANDLE /\
    dereference st'' file = HandleObject view /\
    IsPackEntry view = true.
Proof.
  destruct (mounted_pack_serves_its_directory posix_build example_PackFile_h example_os
              (fst (AddSearchPath posix_build (new_CFileSystem 0) (Some "/base") None false))
              example_mounted "/base.pak" None example_pack
              (mkPackEntry_t "sound/a.wav" 128 64) "rb")
    as (st'' & file & view & Hopen & Hne & Hderef & Hview & _).
  - apply well_formed_AddSearchPath, well_formed_new.
  - reflexivity.
  - vm_compute. reflexivity.
  - rewrite example_pack_directory. apply list_elem_of_singleton. reflexivity.
  - reflexivity.
  - exists st'', file, view. repeat split; assumption.
Defined.

(** ** Removing a search path *)

(** X19: [RemoveSearchPath] goes by the location alone. It returns true
    exactly when some search path has the path as its location, without
    regard to case; it then erases the first such search path in the order
    of registration, whatever its tag, and no other, and closes the stream
    of its pack if it has one. Otherwise the file system is as it was. *)
Theorem RemoveSearchPath_removes_the_first_match (st : CFileSystem) (path : string) :
  (snd (RemoveSearchPath st (Some path)) = true <->
   exists it, it ∈ m_SearchPaths st /\ stricmp path (szPath it) = 0) /\
  (snd (RemoveSearchPath st (Some path)) = false ->
   fst (RemoveSearchPath st (Some path)) = st) /\
  (forall before it after,
     m_SearchPaths st = before ++ it :: after ->
     (forall earlier, earlier ∈ before -> stricmp path (szPath earlier) <> 0) ->
     stricmp path (szPath it) = 0 ->
     snd (RemoveSearchPath st (Some path)) = true /\
     m_SearchPaths (fst (RemoveSearchPath st (Some path))) = before ++ after /\
     m_OpenedFiles (fst (RemoveSearchPath st (Some path))) = m_OpenedFiles st /\
     streams (fst (RemoveSearchPath st (Some path)))
     = match packFile it ≫= m_pFile with
       | Some fp => delete fp (streams st)
       | None => streams st
       end).
Proof.
  destruct (RemoveSearchPath st (Some path)) as [st' ok] eqn:Hremove.
  pose proof (RemoveSearchPath_result _ _ _ _ Hremove) as Hresult. simpl.
  destruct ok.
  - destruct Hresult as (path' & before & it & after & [= <-] & Hpaths & Hit & Hbefore & ->).
    split; [|split; [discriminate|]].
    + split; [intros _|reflexivity]. exists it. split; [|exact Hit].
      rewrite Hpaths. apply elem_of_app. right. apply elem_of_cons. left. reflexivity.
    + intros before' it' after' Hpaths' Hbefore' Hit'.
      rewrite Hpaths in Hpaths'.
      destruct (first_fit_unique (fun e => stricmp path (szPath e) = 0) _ _ _ _ _ _
                  Hpaths' Hbefore Hit Hbefore' Hit') as (<- & <- & <-).
      repeat split.
  - destruct Hresult as [-> Hnone].
    split; [|split; [reflexivity|]].
    + split; [discriminate|]. intros (it & Hin & Hit). exfalso. exact (Hnone it Hin Hit).
    + intros before it after Hpaths _ Hit. exfalso. apply (Hnone it); [|exact Hit].
      rewrite Hpaths. apply elem_of_app. right. apply elem_of_cons. left. reflexivity.
Qed.

Lemma RemoveSearchPath_removes_the_first_match_witness :
  snd (RemoveSearchPath example_mounted (Some "/BASE")) = true /\
  length (m_SearchPaths (fst (RemoveSearchPath example_mounted (Some "/BASE")))) = 1%nat.
Proof.
  destruct (RemoveSearchPath_removes_the_first_match example_mounted "/BASE") as (_ & _ & Hfirst).
  destruct (m_SearchPaths example_mounted) as [|dir rest] eqn:Hpaths;
    [vm_compute in Hpaths; discriminate Hpaths|].
  assert (Hdir : option_map szPath (head (m_SearchPaths example_mounted)) = Some "/base")
    by (vm_compute; reflexivity).
  assert (Hlen : length (m_SearchPaths example_mounted) = 2%nat) by (vm_compute; reflexivity).
  rewrite Hpaths in Hdir, Hlen. simpl in Hdir, Hlen. injection Hdir as Hdir.
  destruct (Hfirst [] dir rest) as (Hok & Hrest & _).
  - reflexivity.
  - intros earlier Hin. apply elem_of_nil in Hin. destruct Hin.
  - rewrite Hdir. reflexivity.
  - split; [exact Hok|]. rewrite Hrest. simpl. lia.
Defined.

(** ** Adding a search path twice *)

Lemma strcmp_antisymmetric (a b : string) : strcmp b a = - strcmp a b.
Proof.
  revert b. induction a as [|ca a IH]; intros [|cb b]; simpl; try lia.
  rewrite (Ascii.eqb_sym cb ca). destruct (Ascii.eqb ca cb); [apply IH|lia].
Qed.

Lemma stricmp_zero_sym (a b : string) : (stricmp a b =? 0) = (stricmp b a =? 0).
Proof.
  unfold stricmp. rewrite (strcmp_antisymmetric (string_map tolower a)).
  destruct (Z.eqb_spec (strcmp (string_map tolower a) (string_map tolower b)) 0);
    destruct (Z.eqb_spec (- strcmp (string_map tolower a) (string_map tolower b)) 0);
    try reflexivity; lia.
Qed.

Lemma same_pathID_sym (a b : option string) : same_pathID a b = same_pathID b a.
Proof.
  destruct a as [a|], b as [b|]; simpl; try reflexivity.
  rewrite (strcmp_antisymmetric a b).
  destruct (Z.eqb_spec (strcmp a b) 0); destruct (Z.eqb_spec (- strcmp a b) 0);
    try reflexivity; lia.
Qed.

Lemma no_duplicate_mounts_app (searchPaths : list CSearchPath) (searchPath : CSearchPath) :
  no_duplicate_mounts (searchPaths ++ [searchPath])
  = no_duplicate_mounts searchPaths
    && forallb (fun other => negb (same_mount other searchPath)) searchPaths.
Proof.
  induction searchPaths as [|first rest IH]; simpl; [reflexivity|].
  rewrite IH, forallb_app. simpl. rewrite andb_true_r.
  destruct (forallb (fun other => negb (same_mount first other)) rest);
    destruct (negb (same_mount first searchPath));
    destruct (no_duplicate_mounts rest);
    destruct (forallb (fun other => negb (same_mount other searchPath)) rest); reflexivity.
Qed.

Lemma no_duplicate_mounts_sublist (l1 l2 : list CSearchPath) :
  l1 `sublist_of` l2 -> no_duplicate_mounts l2 = true -> no_duplicate_mounts l1 = true.
Proof.
  induction 1 as [|x l1 l2 Hsub IH|x l1 l2 Hsub IH]; simpl; [reflexivity| |].
  - intros Hdup. apply andb_true_iff in Hdup as [Hx Hrest].
    rewrite (IH Hrest), andb_true_r.
    apply forallb_forall. intros y Hy. rewrite forallb_forall in Hx. apply Hx.
    apply list_elem_of_In. apply list_elem_of_In in Hy. exact (elem_of_sublist _ _ _ Hy Hsub).
  - intros Hdup. apply andb_true_iff in Hdup as [_ Hrest]. exact (IH Hrest).
Qed.

Lemma FindSearchPath_appended (searchPaths : list CSearchPath) (searchPath : CSearchPath)
    (pszPath : string) (bCheckPathID : bool) (pathID : option string) :
  FindSearchPath_fits pszPath bCheckPathID pathID searchPath = true ->
  is_Some (FindSearchPath (searchPaths ++ [searchPath]) pszPath bCheckPathID pathID).
Proof.
  intros Hfits. induction searchPaths as [|first rest IH]; simpl.
  - unfold FindSearchPath_fits in Hfits. rewrite Hfits. eexists; reflexivity.
  - destruct (_ && _); [eexists; reflexivity|].
    destruct IH as [i ->]. eexists; reflexivity.
Qed.

Lemma stricmp_same (s : string) : stricmp s s = 0.
Proof. apply strcmp_same. Qed.

(** X20: the test for duplicates of [AddSearchPath] is sound whenever the
    location is stored as the path was given, which is so when the path is
    shorter than the array and has no separator to normalize. Then a
    registry in which no two search paths take the same place stays so,
    and adding the same path with the same tag a second time is refused
    and changes nothing; in particular [AddSearchPathNoWrite] does not
    make a search path read-only that [AddSearchPath] has added.
    [RemoveSearchPath] keeps such a registry too. *)
Theorem AddSearchPath_keeps_mounts_distinct (b : Build) (st : CFileSystem) (path : string)
    (pathID : option string) (bReadOnly again : bool) :
  strncpy_terminated (sizeof_szPath b) (make_preferred (platform b) path) = path ->
  no_duplicate_mounts (m_SearchPaths st) = true ->
  no_duplicate_mounts
    (m_SearchPaths (fst (AddSearchPath b st (Some path) pathID bReadOnly))) = true /\
  AddSearchPath b (fst (AddSearchPath b st (Some path) pathID bReadOnly))
    (Some path) pathID again
  = (fst (AddSearchPath b st (Some path) pathID bReadOnly), false) /\
  AddSearchPathNoWrite b (AddSearchPath_writable b st (Some path) pathID) (Some path) pathID
  = AddSearchPath_writable b st (Some path) pathID /\
  forall other,
    no_duplicate_mounts (m_SearchPaths (fst (RemoveSearchPath st other))) = true.
Proof.
  intros Hstored Hdistinct.
  assert (Hagain : forall first second,
            AddSearchPath b (fst (AddSearchPath b st (Some path) pathID first))
              (Some path) pathID second
            = (fst (AddSearchPath b st (Some path) pathID first), false)).
  { intros first second. unfold AddSearchPath at 2 3.
    destruct (strstr path ".bsp") eqn:Hbsp.
    - unfold AddSearchPath. rewrite Hbsp. reflexivity.
    - destruct (FindSearchPath (m_SearchPaths st) path true pathID) as [i|] eqn:Hfind.
      + simpl. unfold AddSearchPath. rewrite Hbsp, Hfind. reflexivity.
      + simpl. unfold AddSearchPath. rewrite Hbsp. simpl.
        match goal with
        | |- context [FindSearchPath (?l ++ [?sp]) path true pathID] =>
            destruct (FindSearchPath_appended l sp path true pathID) as [j ->];
            [|reflexivity]
        end.
        unfold FindSearchPath_fits. simpl. rewrite Hstored, stricmp_same, same_pathID_same.
        reflexivity. }
  split; [|split; [apply Hagain|split]].
  - unfold AddSearchPath. destruct (strstr path ".bsp"); [exact Hdistinct|].
    destruct (FindSearchPath (m_SearchPaths st) path true pathID) as [i|] eqn:Hfind;
      [exact Hdistinct|].
    simpl. rewrite no_duplicate_mounts_app, Hdistinct. simpl.
    apply forallb_forall. intros other Hother. apply list_elem_of_In in Hother.
    pose proof (proj1 (FindSearchPath_None _ _ _ _) Hfind other Hother) as Hfits.
    unfold FindSearchPath_fits in Hfits. simpl in Hfits.
    unfold same_mount. simpl. rewrite Hstored.
    rewrite stricmp_zero_sym, same_pathID_sym. rewrite Hfits. reflexivity.
  - unfold AddSearchPathNoWrite, AddSearchPath_writable. rewrite Hagain. reflexivity.
  - intros other.
    apply (no_duplicate_mounts_sublist _ (m_SearchPaths st)); [|exact Hdistinct].
    unfold RemoveSearchPath. destruct other as [p|]; [|reflexivity].
    destruct (FindSearchPath (m_SearchPaths st) p false None); [|reflexivity].
    simpl. apply sublist_delete.
Qed.

Lemma AddSearchPath_keeps_mounts_distinct_witness :
  snd (AddSearchPath posix_build
         (fst (AddSearchPath posix_build (new_CFileSystem 0) (Some "/base") None false))
         (Some "/base") None true) = false.
Proof.
  destruct (AddSearchPath_keeps_mounts_distinct posix_build (new_CFileSystem 0) "/base" None
              false true) as (_ & Hagain & _).
  - reflexivity.
  - reflexivity.
  - rewrite Hagain. reflexivity.
Defined.

(** ** Queries by name *)

(** The first search path under which a name exists. *)
Lemma scans_find_the_first (plat : Platform) (os : HostOS) (before : list CSearchPath)
    (searchPath : CSearchPath) (after : list CSearchPath) (pFileName : string) :
  (forall earlier, earlier ∈ before ->
     fs_exists os (path_append plat (szPath earlier) pFileName) = false) ->
  fs_exists os (path_append plat (szPath searchPath) pFileName) = true ->
  FileExists_scan plat os (before ++ searchPath :: after) pFileName = true /\
  GetFileTime_scan plat os (before ++ searchPath :: after) pFileName
  = fs_last_write_time os (path_append plat (szPath searchPath) pFileName) /\
  GetLocalPath_scan plat os (before ++ searchPath :: after) pFileName
  = Some (make_preferred plat (path_append plat (szPath searchPath) pFileName)).
Proof.
  intros Hbefore Hhere. induction before as [|earlier before IH]; simpl.
  - rewrite Hhere. repeat split.
  - rewrite (Hbefore earlier) by (apply elem_of_cons; left; reflexivity).
    apply IH. intros e He. apply Hbefore. apply elem_of_cons. right. exact He.
Qed.

Lemma scans_find_nothing (plat : Platform) (os : HostOS) (searchPaths : list CSearchPath)
    (pFileName : string) :
  (forall searchPath, searchPath ∈ searchPaths ->
     fs_exists os (path_append plat (szPath searchPath) pFileName) = false) ->
  FileExists_scan plat os searchPaths pFileName = false /\
  GetFileTime_scan plat os searchPaths pFileName = 0 /\
  GetLocalPath_scan plat os searchPaths pFileName = None.
Proof.
  intros Hnone. induction searchPaths as [|searchPath rest IH]; simpl; [repeat split|].
  rewrite (Hnone searchPath) by (apply elem_of_cons; left; reflexivity).
  apply IH. intros e He. apply Hnone. apply elem_of_cons. right. exact He.
Qed.

Lemma first_that_exists (plat : Platform) (os : HostOS) (searchPaths : list CSearchPath)
    (pFileName : string) :
  (forall searchPath, searchPath ∈ searchPaths ->
     fs_exists os (path_append plat (szPath searchPath) pFileName) = false) \/
  exists before searchPath after,
    searchPaths = before ++ searchPath :: after /\
    (forall earlier, earlier ∈ before ->
       fs_exists os (path_append plat (szPath earlier) pFileName) = false) /\
    fs_exists os (path_append plat (szPath searchPath) pFileName) = true.
Proof.
  induction searchPaths as [|searchPath rest IH].
  - left. intros sp Hin. apply elem_of_nil in Hin. destruct Hin.
  - destruct (fs_exists os (path_append plat (szPath searchPath) pFileName)) eqn:Hhere.
    + right. exists [], searchPath, rest. split; [reflexivity|]. split; [|exact Hhere].
      intros e He. apply elem_of_nil in He. destruct He.
    + destruct IH as [Hnone|(before & sp & after & -> & Hbefore & Hsp)].
      * left. intros sp Hin. apply elem_of_cons in Hin as [->|Hin]; [exact Hhere|auto].
      * right. exists (searchPath :: before), sp, after. split; [reflexivity|].
        split; [|exact Hsp].
        intros e He. apply elem_of_cons in He as [->|He]; [exact Hhere|auto].
Qed.

(** X21: [FileExists], [GetFileTime] and [GetLocalPath] answer for the
    same file: the name under the first search path, in the order of
    registration, under which it exists, whatever the flags and the tag of
    the search path. [FileExists] is true exactly when there is such a
    search path, which is exactly when [GetLocalPath] returns its buffer,
    and then [GetFileTime] is the time of that file and the buffer holds
    its preferred path, cut to the size of the buffer; when there is none,
    [GetFileTime] is 0. *)
Theorem queries_by_name_agree (b : Build) (os : HostOS) (st : CFileSystem)
    (pFileName : string) (localPathBufferSize : Z) :
  0 < localPathBufferSize ->
  (FileExists b os st (Some pFileName) = true <->
   exists searchPath,
     searchPath ∈ m_SearchPaths st /\
     fs_exists os (path_append (platform b) (szPath searchPath) pFileName) = true) /\
  (FileExists b os st (Some pFileName) = true <->
   is_Some (GetLocalPath b os st pFileName true localPathBufferSize)) /\
  (FileExists b os st (Some pFileName) = false -> GetFileTime b os st pFileName = 0) /\
  (forall before searchPath after,
     m_SearchPaths st = before ++ searchPath :: after ->
     (forall earlier, earlier ∈ before ->
        fs_exists os (path_append (platform b) (szPath earlier) pFileName) = false) ->
     fs_exists os (path_append (platform b) (szPath searchPath) pFileName) = true ->
     GetFileTime b os st pFileName
     = fs_last_write_time os (path_append (platform b) (szPath searchPath) pFileName) /\
     GetLocalPath b os st pFileName true localPathBufferSize
     = Some (strncpy_terminated (Z.to_nat localPathBufferSize)
               (make_preferred (platform b)
                  (path_append (platform b) (szPath searchPath) pFileName)))).
Proof.
  intros Hsize. unfold FileExists, GetFileTime, GetLocalPath.
  destruct (Z.leb_spec localPathBufferSize 0) as [Hle|_]; [lia|]. simpl.
  assert (Hfirst : forall before searchPath after,
            m_SearchPaths st = before ++ searchPath :: after ->
            (forall earlier, earlier ∈ before ->
               fs_exists os (path_append (platform b) (szPath earlier) pFileName) = false) ->
            fs_exists os (path_append (platform b) (szPath searchPath) pFileName) = true ->
            FileExists_scan (platform b) os (m_SearchPaths st) pFileName = true /\
            GetFileTime_scan (platform b) os (m_SearchPaths st) pFileName
            = fs_last_write_time os (path_append (platform b) (szPath searchPath) pFileName) /\
            GetLocalPath_scan (platform b) os (m_SearchPaths st) pFileName
            = Some (make_preferred (platform b)
                      (path_append (platform b) (szPath searchPath) pFileName))).
  { intros before sp after -> Hbefore Hsp. apply scans_find_the_first; assumption. }
  destruct (first_that_exists (platform b) os (m_SearchPaths st) pFileName)
    as [Hnone|(before & sp & after & Hpaths & Hbefore & Hsp)].
  - destruct (scans_find_nothing _ _ _ _ Hnone) as (-> & -> & ->). simpl.
    split; [|split; [|split]].
    + split; [discriminate|]. intros (sp & Hin & Hsp). rewrite (Hnone sp Hin) in Hsp.
      discriminate.
    + split; [discriminate|]. intros [x Hx]. discriminate.
    + reflexivity.
    + intros before sp after Hpaths _ Hsp. exfalso.
      rewrite (Hnone sp) in Hsp; [discriminate|].
      rewrite Hpaths. apply elem_of_app. right. apply elem_of_cons. left. reflexivity.
  - destruct (Hfirst before sp after Hpaths Hbefore Hsp) as (Hexists & Htime & Hlocal).
    rewrite Hexists. split; [|split; [|split]].
    + split; [intros _|reflexivity]. exists sp. split; [|exact Hsp].
      rewrite Hpaths. apply elem_of_app. right. apply elem_of_cons. left. reflexivity.
    + rewrite Hlocal. simpl. split; [intros _; eexists|]; reflexivity.
    + discriminate.
    + intros before' sp' after' Hpaths' Hbefore' Hsp'.
      destruct (Hfirst before' sp' after' Hpaths' Hbefore' Hsp') as (_ & -> & ->).
      split; reflexivity.
Qed.

Lemma queries_by_name_agree_witness :
  FileExists posix_build example_os example_mounted (Some "a.txt") = true /\
  GetFileTime posix_build example_os example_mounted "a.txt" = 1000 /\
  GetLocalPath posix_build example_os example_mounted "a.txt" true 8 = Some "/base/a".
Proof.
  destruct (queries_by_name_agree posix_build example_os example_mounted "a.txt" 8)
    as (Hexists & _ & _ & Hfirst); [lia|].
  destruct (m_SearchPaths example_mounted) as [|dir rest] eqn:Hpaths;
    [vm_compute in Hpaths; discriminate Hpaths|].
  assert (Hdir : option_map szPath (head (m_SearchPaths example_mounted)) = Some "/base")
    by (vm_compute; reflexivity).
  rewrite Hpaths in Hdir. simpl in Hdir. injection Hdir as Hdir.
  split.
  - apply Hexists. exists dir. split; [apply elem_of_cons; left; reflexivity|].
    rewrite Hdir. reflexivity.
  - destruct (Hfirst [] dir rest) as [Htime Hlocal].
    + reflexivity.
    + intros earlier Hin. apply elem_of_nil in Hin. destruct Hin.
    + rewrite Hdir. reflexivity.
    + rewrite Htime, Hlocal, Hdir. split; reflexivity.
Defined.

(** ** Creating directories and removing files *)



Lemma RemoveFile_scan_result (plat : Platform) (fs_remove : string -> bool)
    (searchPaths : list CSearchPath) (pRelativePath : string) (pathID : option string) :
  (forall path, path ∈ RemoveFile_scan plat fs_remove searchPaths pRelativePath pathID ->
     exists searchPath,
       searchPath ∈ searchPaths /\
       writable_in_scope pathID searchPath = true /\
       path = path_append plat (szPath searchPath) pRelativePath) /\
  (forall before path after,
     RemoveFile_scan plat fs_remove searchPaths pRelativePath pathID
     = before ++ path :: after ->
     fs_remove path = true -> after = []) /\
  (forall searchPath,
     searchPath ∈ searchPaths ->
     writable_in_scope pathID searchPath = true ->
     path_append plat (szPath searchPath) pRelativePath
       ∈ RemoveFile_scan plat fs_remove searchPaths pRelativePath pathID \/
     exists removed,
       removed ∈ RemoveFile_scan plat fs_remove searchPaths pRelativePath pathID /\
       fs_remove removed = true).
Proof.
  induction searchPaths as [|searchPath rest IH]; simpl.
  - split; [intros p Hp; apply elem_of_nil in Hp; destruct Hp|].
    split; [intros [|? ?] ? ? Heq; discriminate Heq|].
    intros sp Hin. apply elem_of_nil in Hin. destruct Hin.
  - destruct IH as (Hcalls & Hstop & Hall).
    assert (Hskip : writable_in_scope pathID searchPath = false ->
              (forall path,
                 path ∈ RemoveFile_scan plat fs_remove rest pRelativePath pathID ->
                 exists sp,
                   sp ∈ searchPath :: rest /\ writable_in_scope pathID sp = true /\
                   path = path_append plat (szPath sp) pRelativePath) /\
              (forall before path after,
                 RemoveFile_scan plat fs_remove rest pRelativePath pathID
                 = before ++ path :: after ->
                 fs_remove path = true -> after = []) /\
              (forall sp,
                 sp ∈ searchPath :: rest ->
                 writable_in_scope pathID sp = true ->
                 path_append plat (szPath sp) pRelativePath
                   ∈ RemoveFile_scan plat fs_remove rest pRelativePath pathID \/
                 exists removed,
                   removed ∈ RemoveFile_scan plat fs_remove rest pRelativePath pathID /\
                   fs_remove removed = true)).
    { intros Hnot. split; [|split; [exact Hstop|]].
      - intros p Hp. destruct (Hcalls p Hp) as (sp & Hin & Hsp).
        exists sp. split; [apply elem_of_cons; right; exact Hin|exact Hsp].
      - intros sp Hin Hsp. apply elem_of_cons in Hin as [->|Hin]; [congruence|].
        exact (Hall sp Hin Hsp). }
    unfold writable_in_scope at 1 in Hskip.
    destruct (has_flag (flags searchPath) SearchPathFlag.READ_ONLY) eqn:Hro;
      [apply Hskip; reflexivity|].
    destruct (pathID_excludes pathID searchPath) eqn:Hscope; [apply Hskip; reflexivity|].
    clear Hskip.
    assert (Hhere : writable_in_scope pathID searchPath = true)
      by (unfold writable_in_scope; rewrite Hro, Hscope; reflexivity).
    destruct (fs_remove (path_append plat (szPath searchPath) pRelativePath)) eqn:Hremove.
    + split; [|split].
      * intros p Hp. apply list_elem_of_singleton in Hp. subst p.
        exists searchPath. split; [apply elem_of_cons; left; reflexivity|].
        split; [exact Hhere|reflexivity].
      * intros [|x before] p after Heq _; simpl in Heq.
        -- injection Heq as _ <-. reflexivity.
        -- injection Heq as _ Heq. destruct before; discriminate Heq.
      * intros sp _ _. right. eexists. split; [apply list_elem_of_singleton; reflexivity|].
        exact Hremove.
    + split; [|split].
      * intros p Hp. apply elem_of_cons in Hp as [->|Hp].
        -- exists searchPath. split; [apply elem_of_cons; left; reflexivity|].
           split; [exact Hhere|reflexivity].
        -- destruct (Hcalls p Hp) as (sp & Hin & Hsp).
           exists sp. split; [apply elem_of_cons; right; exact Hin|exact Hsp].
      * intros [|x before] p after Heq Hp; simpl in Heq.
        -- injection Heq as <- _. congruence.
        -- injection Heq as _ Heq. exact (Hstop before p after Heq Hp).
      * intros sp Hin Hsp. apply elem_of_cons in Hin as [->|Hin].
        -- left. apply elem_of_cons. left. reflexivity.
        -- destruct (Hall sp Hin Hsp) as [Hcalled|(removed & Hin' & Hremoved)].
           ++ left. apply elem_of_cons. right. exact Hcalled.
           ++ right. exists removed. split; [apply elem_of_cons; right; exact Hin'|exact Hremoved].
Qed.

(** X23: [RemoveFile] calls [fs::remove] only on the path under search
    paths that are not read-only and are in the scope of the tag; it stops
    with the first call that removes something, so that at most one file
    is removed; and unless a call has removed something, it has tried
    every such search path. *)
Theorem RemoveFile_tries_writable_search_paths (b : Build) (fs_remove : string -> bool)
    (st : CFileSystem) (pRelativePath : string) (pathID : option string) :
  (forall path, path ∈ RemoveFile b fs_remove st (Some pRelativePath) pathID ->
     exists searchPath,
       searchPath ∈ m_SearchPaths st /\
       has_flag (flags searchPath) SearchPathFlag.READ_ONLY = false /\
       pathID_excludes pathID searchPath = false /\
       path = path_append (platform b) (szPath searchPath) pRelativePath) /\
  (forall before path after,
     RemoveFile b fs_remove st (Some pRelativePath) pathID = before ++ path :: after ->
     fs_remove path = true -> after = []) /\
  (forall searchPath,
     searchPath ∈ m_SearchPaths st ->
     has_flag (flags searchPath) SearchPathFlag.READ_ONLY = false ->
     pathID_excludes pathID searchPath = false ->
     path_append (platform b) (szPath searchPath) pRelativePath
       ∈ RemoveFile b fs_remove st (Some pRelativePath) pathID \/
     exists removed,
       removed ∈ RemoveFile b fs_remove st (Some pRelativePath) pathID /\
       fs_remove removed = true).
Proof.
  unfold RemoveFile.
  destruct (RemoveFile_scan_result (platform b) fs_remove (m_SearchPaths st) pRelativePath
              pathID) as (Hcalls & Hstop & Hall).
  split; [|split; [exact Hstop|]].
  - intros p Hp. destruct (Hcalls p Hp) as (sp & Hin & Hsp & ->).
    exists sp. unfold writable_in_scope in Hsp. apply andb_true_iff in Hsp as [Hro Hscope].
    apply negb_true_iff in Hro. apply negb_true_iff in Hscope. repeat split; assumption.
  - intros sp Hin Hro Hscope. apply Hall; [exact Hin|].
    unfold writable_in_scope. rewrite Hro, Hscope. reflexivity.
Qed.


Lemma RemoveFile_tries_writable_search_paths_witness :
  exists searchPath,
    searchPath ∈ m_SearchPaths example_mounted /\
    has_flag (flags searchPath) SearchPathFlag.READ_ONLY = false /\
    "/base/a.txt" = path_append Posix (szPath searchPath) "a.txt".
Proof.
  destruct (RemoveFile_tries_writable_search_paths posix_build
              (fun path => String.eqb path "/base/a.txt") example_mounted "a.txt" None)
    as (Hcalls & _ & _).
  destruct (Hcalls "/base/a.txt") as (sp & Hin & Hro & _ & Hpath).
  - assert (Hlist : RemoveFile posix_build (fun path => String.eqb path "/base/a.txt")
                      example_mounted (Some "a.txt") None = ["/base/a.txt"])
      by (vm_compute; reflexivity).
    rewrite Hlist. apply list_elem_of_singleton. reflexivity.
  - exists sp. split; [exact Hin|]. split; [exact Hro|exact Hpath].
Defined.

(** ** Enumeration *)

Lemma next_search_path_Some (searchPaths : list CSearchPath) (first : nat) (id : string)
    (position : nat) (searchPath : CSearchPath) :
  next_search_path searchPaths first id = Some (position, searchPath) ->
  exists before after,
    searchPaths = before ++ searchPath :: after /\
    position = (first + length before)%nat /\
    out_of_scope id searchPath = false /\
    forall earlier, earlier ∈ before -> out_of_scope id earlier = true.
Proof.
  revert first. induction searchPaths as [|path rest IH]; intros first; simpl; [discriminate|].
  fold (out_of_scope id path). destruct (out_of_scope id path) eqn:Hscope.
  - intros Hnext. destruct (IH _ Hnext) as (before & after & -> & -> & Hsp & Hbefore).
    exists (path :: before), after. split; [reflexivity|]. split; [simpl; lia|].
    split; [exact Hsp|]. intros e He. apply elem_of_cons in He as [->|He]; auto.
  - intros [= <- <-]. exists [], rest. split; [reflexivity|]. split; [simpl; lia|].
    split; [exact Hscope|]. intros e He. apply elem_of_nil in He. destruct He.
Qed.

Lemma next_search_path_None (searchPaths : list CSearchPath) (first : nat) (id : string) :
  next_search_path searchPaths first id = None <->
  forall searchPath, searchPath ∈ searchPaths -> out_of_scope id searchPath = true.
Proof.
  revert first. induction searchPaths as [|path rest IH]; intros first; simpl.
  - split; [|reflexivity]. intros _ sp Hin. apply elem_of_nil in Hin. destruct Hin.
  - fold (out_of_scope id path). destruct (out_of_scope id path) eqn:Hscope.
    + rewrite IH. split.
      * intros Hrest sp Hin. apply elem_of_cons in Hin as [->|Hin]; auto.
      * intros Hall sp Hin. apply Hall. apply elem_of_cons. right. exact Hin.
    + split; [discriminate|]. intros Hall.
      rewrite (Hall path) in Hscope; [discriminate|apply elem_of_cons; left; reflexivity].
Qed.

(** The scan does not move from a search path it has ended at. *)
Lemma next_search_path_again (searchPaths : list CSearchPath) (first : nat) (id : string)
    (position : nat) (searchPath : CSearchPath) :
  next_search_path (drop first searchPaths) first id = Some (position, searchPath) ->
  next_search_path (drop position searchPaths) position id = Some (position, searchPath).
Proof.
  intros Hnext.
  destruct (next_search_path_Some _ _ _ _ _ Hnext) as (before & after & Hdrop & -> & Hsp & _).
  assert (Hrest : drop (first + length before) searchPaths = searchPath :: after).
  { rewrite <- drop_drop, Hdrop. rewrite drop_app_length. reflexivity. }
  rewrite Hrest. simpl. fold (out_of_scope id searchPath). rewrite Hsp. reflexivity.
Qed.

Lemma next_match_Some (flt : regex) (walk : list string) (szFileName name : string)
    (rest : list string) (last : string) :
  next_match flt walk szFileName = (Some name, rest, last) ->
  last = name /\ regex_match name flt = true /\
  exists skipped,
    walk = skipped ++ name :: rest /\
    forall entry, entry ∈ skipped -> regex_match entry flt = false.
Proof.
  revert szFileName. induction walk as [|entry walk IH]; intros szFileName; simpl;
    [discriminate|].
  destruct (regex_match entry flt) eqn:Hmatch.
  - intros [= <- <- <-]. split; [reflexivity|]. split; [exact Hmatch|].
    exists []. split; [reflexivity|]. intros e He. apply elem_of_nil in He. destruct He.
  - intros Hnext. destruct (IH _ Hnext) as (Hlast & Hname & skipped & -> & Hskipped).
    split; [exact Hlast|]. split; [exact Hname|].
    exists (entry :: skipped). split; [reflexivity|].
    intros e He. apply elem_of_cons in He as [->|He]; auto.
Qed.

Lemma next_match_None (flt : regex) (walk : list string) (szFileName : string)
    (rest : list string) (last : string) :
  next_match flt walk szFileName = (None, rest, last) ->
  rest = [] /\ forall entry, entry ∈ walk -> regex_match entry flt = false.
Proof.
  revert szFileName. induction walk as [|entry walk IH]; intros szFileName; simpl.
  - intros [= <- _]. split; [reflexivity|]. intros e He. apply elem_of_nil in He. destruct He.
  - destruct (regex_match entry flt) eqn:Hmatch; [discriminate|].
    intros Hnext. destruct (IH _ Hnext) as [Hrest Hnone]. split; [exact Hrest|].
    intros e He. apply elem_of_cons in He as [->|He]; auto.
Qed.

(** One run of the loop of [FindNext] on a cursor that serves a search
    path: if it ends, it ends with a name of the directory of that search
    path that matches the filter, and the cursor serves the search path as
    before. *)
Lemma FindNext_loop_serves (rounds : nat) (os : HostOS) (searchPaths : list CSearchPath)
    (data data' : FindFileData) (result : option string) (position : nat)
    (searchPath : CSearchPath) :
  cursor_serves os searchPaths data position searchPath ->
  FindNext_loop rounds os searchPaths data = Some (data', result) ->
  cursor_serves os searchPaths data' position searchPath /\
  filter data' = filter data /\
  szPathID data' = szPathID data /\
  exists name,
    result = Some name /\
    data_szFileName data' = name /\
    name ∈ fs_recursive_directory_iterator os (szPath searchPath) /\
    regex_match name (filter data) = true.
Proof.
  revert data. induction rounds as [|rounds IH]; intros data (Hscan & Hend & Hwalk); simpl;
    [discriminate|].
  unfold scan_start in Hscan.
  match goal with
  | |- context [has_flag (data_flags ?d) FindFileFlag.END_OF_DATA] => set (data1 := d)
  end.
  assert (Hdata1 : filter data1 = filter data /\ szPathID data1 = szPathID data /\
                   data_flags data1 = data_flags data /\
                   (forall entry, entry ∈ iterator data1 ->
                      entry ∈ fs_recursive_directory_iterator os (szPath searchPath)) /\
                   next_search_path (drop (scan_start data1) searchPaths) (scan_start data1)
                     (szPathID data1) = Some (position, searchPath)).
  { unfold data1. destruct (iterator data) as [|entry walk] eqn:Hiter.
    - rewrite Hscan. simpl. split; [reflexivity|]. split; [reflexivity|].
      split; [reflexivity|]. split; [intros e He; exact He|].
      unfold scan_start. simpl. exact (next_search_path_again _ _ _ _ _ Hscan).
    - split; [reflexivity|]. split; [reflexivity|]. split; [reflexivity|].
      split; [rewrite Hiter; exact Hwalk|]. unfold scan_start. exact Hscan. }
  destruct Hdata1 as (Hflt & Hid & Hflags & Hwalk1 & Hscan1). clearbody data1.
  rewrite Hflags at 1. rewrite Hend.
  destruct (next_match (filter data1) (iterator data1) (data_szFileName data1))
    as [[[name|] rest] last] eqn:Hnext.
  - intros [= <- <-].
    destruct (next_match_Some _ _ _ _ _ _ Hnext) as (-> & Hname & skipped & Hiter & _).
    split; [|split; [exact Hflt|split; [exact Hid|]]].
    + split; [exact Hscan1|]. simpl. rewrite Hflags. split; [exact Hend|].
      intros e He. apply Hwalk1. rewrite Hiter. apply elem_of_app. right.
      apply elem_of_cons. right. exact He.
    + exists name. split; [reflexivity|]. split; [reflexivity|].
      split; [|rewrite <- Hflt; exact Hname].
      apply Hwalk1. rewrite Hiter. apply elem_of_app. right. apply elem_of_cons. left.
      reflexivity.
  - intros Hloop. destruct (next_match_None _ _ _ _ _ Hnext) as [-> _].
    apply IH in Hloop.
    + destruct Hloop as (Hserves & Hflt' & Hid' & name & Hresult & Hlast & Hin & Hmatch).
      simpl in Hflt', Hid', Hmatch.
      split; [exact Hserves|]. split; [congruence|]. split; [congruence|].
      exists name. rewrite <- Hflt. repeat split; assumption.
    + split; [exact Hscan1|]. simpl. rewrite Hflags. split; [exact Hend|].
      intros e He. apply elem_of_nil in He. destruct He.
Qed.

(** The same for a cursor of the table, through [FindNext]. *)
Lemma FindNext_serves (os : HostOS) (st st' : CFileSystem) (handle : Z) (rounds : nat)
    (data : FindFileData) (result : option string) (position : nat)
    (searchPath : CSearchPath) :
  m_FindFiles st !! Z.to_nat (to_size_t handle) = Some data ->
  cursor_serves os (m_SearchPaths st) data position searchPath ->
  FindNext os st handle rounds = Some (st', result) ->
  exists data' name,
    st' = set_FindFiles st (<[Z.to_nat (to_size_t handle) := data']> (m_FindFiles st)) /\
    cursor_serves os (m_SearchPaths st') data' position searchPath /\
    result = Some name /\
    name ∈ fs_recursive_directory_iterator os (szPath searchPath) /\
    regex_match name (filter data) = true.
Proof.
  intros Hdata Hserves. unfold FindNext.
  assert (Hin : (Z.to_nat (to_size_t handle) < length (m_FindFiles st))%nat)
    by (apply lookup_lt_is_Some; eexists; exact Hdata).
  assert (Hnonneg : 0 <= to_size_t handle) by (unfold_wraps; apply Z.mod_pos_bound; lia).
  destruct (Z.geb_spec (to_size_t handle) (Z.of_nat (length (m_FindFiles st)))) as [Hge|_];
    [lia|].
  rewrite Hdata. destruct Hserves as (Hscan & Hend & Hwalk). rewrite Hend.
  destruct (FindNext_loop rounds os (m_SearchPaths st) data) as [[data' r]|] eqn:Hloop;
    [|discriminate].
  intros [= <- <-].
  destruct (FindNext_loop_serves _ _ _ _ _ _ _ _ (conj Hscan (conj Hend Hwalk)) Hloop)
    as (Hserves' & _ & _ & name & -> & _ & Hin' & Hmatch).
  exists data', name. split; [reflexivity|]. split; [exact Hserves'|].
  split; [reflexivity|]. split; assumption.
Qed.

(** X24: [FindNext] never leaves the search path it is on and never
    reports the end of the data. For a cursor of the table that serves a
    search path, which is the first search path in scope for a cursor as
    [FindFirst] makes it, every call of [FindNext] that returns gives a
    name: an entry of the recursive walk of the directory of that search
    path that matches the filter; and afterwards the cursor serves the
    same search path. The scan for the next search path starts at the
    current one, so that the walk of its directory starts again when it is
    done, and the search paths after it are never walked. *)
Theorem FindNext_stays_on_its_search_path (os : HostOS) (st st' : CFileSystem) (handle : Z)
    (rounds : nat) (data : FindFileData) (result : option string) (position : nat)
    (searchPath : CSearchPath) :
  m_FindFiles st !! Z.to_nat (to_size_t handle) = Some data ->
  cursor_serves os (m_SearchPaths st) data position searchPath ->
  FindNext os st handle rounds = Some (st', result) ->
  exists data' name,
    m_FindFiles st' = <[Z.to_nat (to_size_t handle) := data']> (m_FindFiles st) /\
    m_SearchPaths st' = m_SearchPaths st /\
    cursor_serves os (m_SearchPaths st') data' position searchPath /\
    result = Some name /\
    name ∈ fs_recursive_directory_iterator os (szPath searchPath) /\
    regex_match name (filter data) = true.
Proof.
  intros Hdata Hserves Hnext.
  destruct (FindNext_serves _ _ _ _ _ _ _ _ _ Hdata Hserves Hnext)
    as (data' & name & -> & Hserves' & -> & Hin & Hmatch).
  exists data', name. split; [reflexivity|]. split; [reflexivity|].
  split; [exact Hserves'|]. split; [reflexivity|]. split; assumption.
Qed.

Lemma example_finding_serves (flt : regex) :
  exists searchPath,
    szPath searchPath = "/base" /\
    cursor_serves example_os (m_SearchPaths (example_finding flt))
      (mkFindFileData flt EmptyString None [] EmptyString FindFileFlag.VALID)
      0 searchPath.
Proof.
  destruct (m_SearchPaths example_mounted) as [|dir rest] eqn:Hpaths;
    [vm_compute in Hpaths; discriminate Hpaths|].
  assert (Hdir : option_map szPath (head (m_SearchPaths example_mounted)) = Some "/base")
    by (vm_compute; reflexivity).
  rewrite Hpaths in Hdir. simpl in Hdir. injection Hdir as Hdir.
  exists dir. split; [exact Hdir|]. unfold cursor_serves.
  change (m_SearchPaths (example_finding flt)) with (m_SearchPaths example_mounted).
  rewrite Hpaths. split; [reflexivity|]. split; [reflexivity|].
  intros e He. apply elem_of_nil in He. destruct He.
Qed.

Lemma FindNext_stays_on_its_search_path_witness :
  match FindNext example_os (example_finding (Star AnyChar)) 0 1 with
  | Some (_, result) => result = Some "/base/a.txt"
  | None => False
  end.
Proof.
  destruct (example_finding_serves (Star AnyChar)) as (dir & Hdir & Hserves).
  destruct (FindNext example_os (example_finding (Star AnyChar)) 0 1) as [[st' result]|]
    eqn:Hnext; [|vm_compute in Hnext; discriminate Hnext].
  destruct (FindNext_stays_on_its_search_path example_os (example_finding (Star AnyChar))
              st' 0 1 _ result 0 dir eq_refl Hserves Hnext)
    as (data' & name & _ & _ & _ & -> & Hin & _).
  rewrite Hdir in Hin. simpl in Hin. apply list_elem_of_singleton in Hin. subst name.
  reflexivity.
Defined.



(** ** Starting an enumeration *)

(** A cursor on its first walk: when the loop of [FindNext] ends, the
    name is the first entry of the walk of the directory that matches, and
    the cursor holds what comes after it. *)
Lemma FindNext_loop_first_match (rounds : nat) (os : HostOS) (searchPaths : list CSearchPath)
    (data data' : FindFileData) (result : option string) (position : nat)
    (searchPath : CSearchPath) :
  cursor_serves os searchPaths data position searchPath ->
  iterator data = [] ->
  FindNext_loop rounds os searchPaths data = Some (data', result) ->
  data_flags data' = data_flags data /\
  currentPath data' = Some position /\
  exists name skipped,
    result = Some name /\
    fs_recursive_directory_iterator os (szPath searchPath)
    = skipped ++ name :: iterator data' /\
    forall entry, entry ∈ skipped -> regex_match entry (filter data) = false.
Proof.
  revert data. induction rounds as [|rounds IH]; intros data (Hscan & Hend & Hwalk) Hiter;
    simpl; [discriminate|].
  unfold scan_start in Hscan. rewrite Hiter, Hscan. simpl. rewrite Hend.
  destruct (next_match (filter data) (fs_recursive_directory_iterator os (szPath searchPath))
              (data_szFileName data)) as [[[name|] rest] last] eqn:Hnext.
  - intros [= <- <-]. simpl. split; [reflexivity|]. split; [reflexivity|].
    destruct (next_match_Some _ _ _ _ _ _ Hnext) as (_ & _ & skipped & Hwalk' & Hskipped).
    exists name, skipped. repeat split; assumption.
  - intros Hloop. destruct (next_match_None _ _ _ _ _ Hnext) as [-> Hnone].
    apply IH in Hloop; [| |reflexivity].
    + simpl in Hloop. exact Hloop.
    + split; [|split; [exact Hend|]].
      * unfold scan_start. simpl. exact (next_search_path_again _ _ _ _ _ Hscan).
      * intros e He. apply elem_of_nil in He. destruct He.
Qed.

Lemma FindFirst_handle (st : CFileSystem) (data : FindFileData) :
  Z.of_nat (length (m_FindFiles st)) <= INT_MAX ->
  let st1 := set_FindFiles st (m_FindFiles st ++ [data]) in
  let handle := to_int (Z.of_nat (length (m_FindFiles st1)) - 1) in
  handle = Z.of_nat (length (m_FindFiles st)) /\
  Z.to_nat (to_size_t handle) = length (m_FindFiles st) /\
  (to_size_t handle >=? Z.of_nat (length (m_FindFiles st1))) = false /\
  (to_size_t handle =? to_size_t (Z.of_nat (length (m_FindFiles st1)) - 1)) = true /\
  m_FindFiles st1 !! Z.to_nat (to_size_t handle) = Some data.
Proof.
  intros Hlen st1 handle. unfold st1, handle. simpl. rewrite length_app. simpl.
  replace (Z.of_nat (length (m_FindFiles st) + 1) - 1) with (Z.of_nat (length (m_FindFiles st)))
    by lia.
  unfold INT_MAX in Hlen. change (2 ^ 31 - 1) with 2147483647 in Hlen.
  rewrite to_int_in_range by (unfold INT_MIN, INT_MAX; lia).
  assert (Hsize : to_size_t (Z.of_nat (length (m_FindFiles st)))
                  = Z.of_nat (length (m_FindFiles st)))
    by (unfold_wraps; apply Z.mod_small; lia).
  rewrite Hsize, Nat2Z.id. split; [reflexivity|]. split; [reflexivity|].
  split; [destruct (Z.geb_spec (Z.of_nat (length (m_FindFiles st)))
                      (Z.of_nat (length (m_FindFiles st) + 1))); [lia|reflexivity]|].
  split; [apply Z.eqb_refl|].
  rewrite list_lookup_middle by reflexivity. reflexivity.
Qed.

(** X26: [FindFirst] returns the first match under the first search path
    in scope. When some search path is in the scope of the tag and the
    call returns, it returns a name: the first entry of the recursive walk
    of the directory of the first such search path that matches the wild
    card; the handle it stores is the index of a cursor appended to the
    table, which is valid and holds the rest of that walk. *)
Theorem FindFirst_returns_the_first_match (b : Build) (os : HostOS) (st st' : CFileSystem)
    (pWildCard : string) (pathID : option string) (rounds : nat) (flt : regex)
    (position : nat) (searchPath : CSearchPath) (handle : option Z) (result : option string) :
  wildcard_filter (platform b) pWildCard = Compiled flt ->
  next_search_path (m_SearchPaths st) 0 (cursor_scope b pathID) = Some (position, searchPath) ->
  Z.of_nat (length (m_FindFiles st)) <= INT_MAX ->
  FindFirst b os st (Some pWildCard) true pathID rounds = Some (st', handle, result) ->
  exists data' name skipped,
    handle = Some (Z.of_nat (length (m_FindFiles st))) /\
    result = Some name /\
    m_FindFiles st' = m_FindFiles st ++ [data'] /\
    has_flag (data_flags data') FindFileFlag.VALID = true /\
    currentPath data' = Some position /\
    fs_recursive_directory_iterator os (szPath searchPath)
    = skipped ++ name :: iterator data' /\
    regex_match name flt = true /\
    forall entry, entry ∈ skipped -> regex_match entry flt = false.
Proof.
  intros Hflt Hscope Hlen. unfold FindFirst. rewrite Hflt.
  fold (cursor_scope b pathID).
  set (data := mkFindFileData flt (cursor_scope b pathID) None [] EmptyString
                 FindFileFlag.VALID).
  destruct (FindFirst_handle st data Hlen) as (Hhandle & Hindex & Hrange & Hlast & Hlook).
  cbv zeta in Hhandle, Hindex, Hrange, Hlast, Hlook.
  assert (Hserves : cursor_serves os (m_SearchPaths st) data position searchPath).
  { split; [exact Hscope|]. split; [reflexivity|].
    intros e He. apply elem_of_nil in He. destruct He. }
  cbv zeta. unfold FindNext. rewrite Hrange, Hlook, Hindex, Hhandle.
  change (has_flag (data_flags data) FindFileFlag.END_OF_DATA) with false. cbv iota.
  change (m_SearchPaths (set_FindFiles st (m_FindFiles st ++ [data]))) with (m_SearchPaths st).
  destruct (FindNext_loop rounds os (m_SearchPaths st) data) as [[data' r]|] eqn:Hloop;
    [|discriminate].
  destruct (FindNext_loop_first_match _ _ _ _ _ _ _ _ Hserves eq_refl Hloop)
    as (Hflags & Hcurrent & name & skipped & -> & Hwalk & Hskipped).
  destruct (FindNext_loop_serves _ _ _ _ _ _ _ _ Hserves Hloop)
    as (_ & _ & _ & name' & [= <-] & _ & _ & Hmatch).
  intros [= <- <- <-]. exists data', name, skipped.
  split; [reflexivity|]. split; [reflexivity|].
  split.
  { simpl. rewrite insert_app_r_alt by lia.
    rewrite Nat.sub_diag. reflexivity. }
  split; [rewrite Hflags; reflexivity|]. split; [exact Hcurrent|].
  split; [exact Hwalk|]. split; [exact Hmatch|exact Hskipped].
Qed.

Lemma FindFirst_returns_the_first_match_witness :
  match FindFirst posix_build example_os example_mounted (Some "*.txt") true None 1 with
  | Some (_, handle, result) => handle = Some 0 /\ result = Some "/base/a.txt"
  | None => False
  end.
Proof.
  destruct (example_finding_serves Eps) as (dir & Hdir & Hscan & _).
  destruct (wildcard_filter (platform posix_build) "*.txt") as [flt| |] eqn:Hflt;
    try (vm_compute in Hflt; discriminate Hflt).
  destruct (FindFirst posix_build example_os example_mounted (Some "*.txt") true None 1)
    as [[[st' handle] result]|] eqn:Hfirst; [|vm_compute in Hfirst; discriminate Hfirst].
  destruct (FindFirst_returns_the_first_match posix_build example_os example_mounted st'
              "*.txt" None 1 flt 0 dir handle result Hflt Hscan)
    as (data' & name & skipped & -> & -> & _ & _ & _ & Hwalk & _ & _).
  - vm_compute. discriminate.
  - exact Hfirst.
  - split; [reflexivity|]. rewrite Hdir in Hwalk. simpl in Hwalk.
    destruct skipped as [|e [|e' skipped]]; simpl in Hwalk.
    + injection Hwalk as <- _. reflexivity.
    + injection Hwalk as _ Hwalk. discriminate Hwalk.
    + injection Hwalk as _ Hwalk. discriminate Hwalk.
Defined.

Lemma has_flag_set (f bit : Z) : 0 < bit -> has_flag (Z.lor f bit) bit = true.
Proof.
  intros Hbit. unfold has_flag. apply negb_true_iff. apply Z.eqb_neq.
  rewrite Z.land_lor_distr_l, Z.land_diag. intros Hzero.
  apply Z.lor_eq_0_iff in Hzero as [_ Hzero]. lia.
Qed.

(** The loop of [FindNext] on a cursor whose walk is done and which has
    no search path to go to: the end of the data. *)
Lemma FindNext_loop_end (rounds : nat) (os : HostOS) (searchPaths : list CSearchPath)
    (data : FindFileData) :
  iterator data = [] ->
  next_search_path (drop (scan_start data) searchPaths) (scan_start data) (szPathID data)
  = None ->
  FindNext_loop (S rounds) os searchPaths data
  = Some (set_data_flags data (Z.lor (data_flags data) FindFileFlag.END_OF_DATA), None).
Proof.
  intros Hiter Hscan. simpl. unfold scan_start in Hscan. rewrite Hiter, Hscan.
  cbn [data_flags set_data_flags].
  rewrite has_flag_set by (unfold FindFileFlag.END_OF_DATA; lia). reflexivity.
Qed.

(** X27: a [FindFirst] that has no search path to walk leaves its cursor
    behind. When no search path is in the scope of the tag, [FindFirst]
    stores the invalid find handle and returns the null pointer, as it
    should; but the cursor it made for the call stays in the table, valid
    and at the end of its data, since [FindClose] does not erase the last
    cursor: the table grows by one with every such call. *)
Theorem FindFirst_without_a_search_path_leaves_its_cursor (b : Build) (os : HostOS)
    (st : CFileSystem) (pWildCard : string) (pathID : option string) (rounds : nat)
    (flt : regex) :
  wildcard_filter (platform b) pWildCard = Compiled flt ->
  (forall searchPath, searchPath ∈ m_SearchPaths st ->
     out_of_scope (cursor_scope b pathID) searchPath = true) ->
  Z.of_nat (length (m_FindFiles st)) <= INT_MAX ->
  FindFirst b os st (Some pWildCard) true pathID (S rounds)
  = Some (set_FindFiles st
            (m_FindFiles st ++
             [mkFindFileData flt (cursor_scope b pathID) None [] EmptyString
                (Z.lor FindFileFlag.VALID FindFileFlag.END_OF_DATA)]),
          Some FILESYSTEM_INVALID_FIND_HANDLE, None).
Proof.
  intros Hflt Hscope Hlen. unfold FindFirst. rewrite Hflt.
  fold (cursor_scope b pathID).
  set (data := mkFindFileData flt (cursor_scope b pathID) None [] EmptyString
                 FindFileFlag.VALID).
  destruct (FindFirst_handle st data Hlen) as (Hhandle & Hindex & Hrange & Hlast & Hlook).
  cbv zeta in Hhandle, Hindex, Hrange, Hlast, Hlook.
  cbv zeta. unfold FindNext. rewrite Hrange, Hlook, Hindex.
  change (has_flag (data_flags data) FindFileFlag.END_OF_DATA) with false. cbv iota.
  change (m_SearchPaths (set_FindFiles st (m_FindFiles st ++ [data]))) with (m_SearchPaths st).
  assert (Hnone : next_search_path (m_SearchPaths st) 0 (cursor_scope b pathID) = None)
    by (apply next_search_path_None; exact Hscope).
  rewrite (FindNext_loop_end rounds os (m_SearchPaths st) data eq_refl Hnone).
  change (data_flags data) with FindFileFlag.VALID.
  set (done := set_data_flags data (Z.lor FindFileFlag.VALID FindFileFlag.END_OF_DATA)).
  assert (Htable : <[length (m_FindFiles st) := done]> (m_FindFiles st ++ [data])
                   = m_FindFiles st ++ [done]).
  { rewrite insert_app_r_alt by lia. rewrite Nat.sub_diag. reflexivity. }
  rewrite FindClose_last.
  - do 2 f_equal. unfold set_FindFiles. simpl. rewrite Htable. reflexivity.
  - apply Z.eqb_eq in Hlast. rewrite Hlast. simpl m_FindFiles. rewrite length_insert.
    reflexivity.
Qed.

Lemma FindFirst_without_a_search_path_leaves_its_cursor_witness :
  exists cursor,
    FindFirst posix_build example_os (new_CFileSystem 0) (Some "*.txt") true None 1
    = Some (set_FindFiles (new_CFileSystem 0) [cursor],
            Some FILESYSTEM_INVALID_FIND_HANDLE, None).
Proof.
  destruct (wildcard_filter (platform posix_build) "*.txt") as [flt| |] eqn:Hflt;
    try (vm_compute in Hflt; discriminate Hflt).
  eexists.
  apply (FindFirst_without_a_search_path_leaves_its_cursor posix_build example_os
           (new_CFileSystem 0) "*.txt" None 0 flt Hflt).
  - intros sp Hin. apply elem_of_nil in Hin. destruct Hin.
  - vm_compute. discriminate.
Defined.

(** ** Find handles that are not in the table *)

(** X28: a find handle that is negative, as the invalid find handle is,
    or not below the size of the table, is refused by [FindNext] and by
    [FindClose]: the first returns the null pointer, and both leave the
    file system as it is. *)
Theorem find_handles_out_of_range_are_refused (os : HostOS) (st : CFileSystem) (handle : Z)
    (rounds : nat) :
  INT_MIN <= handle <= INT_MAX ->
  Z.of_nat (length (m_FindFiles st)) <= INT_MAX ->
  handle < 0 \/ Z.of_nat (length (m_FindFiles st)) <= handle ->
  FindNext os st handle rounds = Some (st, None) /\
  FindClose st handle = Some st.
Proof.
  intros Hint Hlen Hout.
  assert (Hrange : (to_size_t handle >=? Z.of_nat (length (m_FindFiles st))) = true).
  { unfold INT_MIN, INT_MAX in *. change (2 ^ 31) with 2147483648 in *.
    destruct (Z.geb_spec (to_size_t handle) (Z.of_nat (length (m_FindFiles st))))
      as [_|Hlt]; [reflexivity|]. exfalso. unfold_wraps.
    destruct Hout as [Hneg|Hge].
    - assert (handle mod 18446744073709551616 = handle + 18446744073709551616)
        by (symmetry; apply (Z.mod_unique_pos _ _ (-1)); lia).
      lia.
    - rewrite Z.mod_small in Hlt by lia. lia. }
  unfold FindNext, FindClose. rewrite Hrange. split; reflexivity.
Qed.

Lemma find_handles_out_of_range_are_refused_witness :
  FindNext example_os example_cursors FILESYSTEM_INVALID_FIND_HANDLE 1
  = Some (example_cursors, None) /\
  FindClose example_cursors FILESYSTEM_INVALID_FIND_HANDLE = Some example_cursors.
Proof.
  apply (find_handles_out_of_range_are_refused example_os example_cursors
           FILESYSTEM_INVALID_FIND_HANDLE 1).
  - unfold FILESYSTEM_INVALID_FIND_HANDLE, INT_MIN, INT_MAX. lia.
  - simpl. unfold INT_MAX. lia.
  - left. unfold FILESYSTEM_INVALID_FIND_HANDLE. lia.
Defined.
